(** * Project Master MCP: task utilities and PRP parser

    A shallow embedding of
    - [src/project-master/utils/task-utils.ts]
      ([validateTaskDependencies], [buildTaskDependencyGraph],
       [findNextTask], [calculateProjectAnalytics]) and
    - the [PRPParser] class ([generateTasksFromPRP],
      [validateAndNormalizeTasks], [parsePreviewPRP],
      [sanitizePRPContent]),
    followed by the properties the specification states about them.

    Conventions of the embedding.
    - A JavaScript string is the list of its UTF-16 code units.
    - The numbers of the analytics, which are added and divided, are
      IEEE 754 binary64 values ([spec_float] at precision 53 and
      [emax = 1024]), with rounding, signed zeros, infinities and [NaN].
      The parser only compares numbers, multiplies by 8 and adds 1, which
      binary64 does without rounding; its numbers are rationals ([Q]),
      a number read by [JSON.parse] being the exact value of its literal,
      or 0 when the literal underflows.
    - A [Set<string>] is a [gset]. The graph object of
      [buildTaskDependencyGraph] is a [gmap] from property names to
      nodes, read through [getProperty], which also answers for the
      properties the object inherits.
    - Code that can throw runs in the [outcome] monad; [try]/[catch] is
      [try_catch].
    - Recursive closures take a [fuel] argument and return [None] when it
      runs out; every entry point supplies enough fuel, and that is
      proved. *)

From Stdlib Require Import ZArith QArith Qround Qminmax Lia List Ascii String Bool.
From Stdlib Require Import Floats.SpecFloat.
From stdpp Require Import base option list sets gmap relations.

Set Warnings "-register-all,-clear-no-such-hyp".
Local Open Scope nat_scope.

(** ** JavaScript strings *)

Abbreviation jsstring := (list N).

Definition js (s : string) : jsstring :=
  List.map N_of_ascii (list_ascii_of_string s).

Definition jseqb (a b : jsstring) : bool := bool_decide (a = b).

(** [String.prototype.includes]: [needle] occurs as a contiguous block. *)
Fixpoint startsWith (needle s : jsstring) : bool :=
  match needle, s with
  | [], _ => true
  | _ :: _, [] => false
  | a :: needle', b :: s' => N.eqb a b && startsWith needle' s'
  end.

Fixpoint includes (s needle : jsstring) : bool :=
  startsWith needle s ||
  match s with
  | [] => false
  | _ :: s' => includes s' needle
  end.

(** [String.prototype.substring(0, n)] for a non-negative integer [n]. *)
Definition substring0 (n : nat) (s : jsstring) : jsstring := take n s.

(** ECMAScript [WhiteSpace] and [LineTerminator] code units, the ones
    [String.prototype.trim] strips. *)
Definition isTrimSpace (c : N) : bool :=
  existsb (N.eqb c)
    [9; 10; 11; 12; 13; 32; 160; 5760; 8232; 8233; 8239; 8287; 12288; 65279]%N
  || (N.leb 8192 c && N.leb c 8202).

Fixpoint trimStart (s : jsstring) : jsstring :=
  match s with
  | [] => []
  | c :: s' => if isTrimSpace c then trimStart s' else s
  end.

Definition trimEnd (s : jsstring) : jsstring := rev (trimStart (rev s)).

Definition trim (s : jsstring) : jsstring := trimEnd (trimStart s).

(** [String.prototype.split] with a one-unit separator. *)
Fixpoint split (sep : N) (s : jsstring) : list jsstring :=
  match s with
  | [] => [[]]
  | c :: s' =>
      if N.eqb c sep then [] :: split sep s'
      else match split sep s' with
           | [] => [[c]]
           | l :: ls => (c :: l) :: ls
           end
  end.

(** Decimal rendering of a natural number, as a template literal does. *)
Fixpoint digitsOf (fuel n : nat) (acc : jsstring) : jsstring :=
  match fuel with
  | 0 => acc
  | S fuel' =>
      let acc' := N.of_nat (48 + n mod 10) :: acc in
      if n / 10 =? 0 then acc' else digitsOf fuel' (n / 10) acc'
  end.

Definition natToString (n : nat) : jsstring := digitsOf (S n) n [].

(** ** Exceptions *)

Inductive outcome (A : Type) : Type :=
| Return (a : A)
| Throw (e : jsstring).
Arguments Return {A} a.
Arguments Throw {A} e.

#[global] Instance outcome_ret : MRet outcome := fun A a => Return a.
#[global] Instance outcome_bind : MBind outcome := fun A B k m =>
  match m with
  | Return a => k a
  | Throw e => Throw e
  end.

Definition try_catch {A} (body : outcome A) (handler : jsstring -> outcome A)
  : outcome A :=
  match body with
  | Return a => Return a
  | Throw e => handler e
  end.

Fixpoint mapiO {A B} (f : nat -> A -> outcome B) (i : nat) (l : list A)
  : outcome (list B) :=
  match l with
  | [] => Return []
  | a :: l' => b ← f i a; bs ← mapiO f (S i) l'; Return (b :: bs)
  end.

(** ** JavaScript numbers *)

(** A Number is an IEEE 754 binary64 value. The operations are the ones
    of the standard library's specification of floating-point arithmetic
    at 53 bits of precision and [emax = 1024], rounding to nearest, ties
    to even. *)
Abbreviation number := spec_float.

Definition Number_add : number -> number -> number := SFadd 53 1024.
Definition Number_mul : number -> number -> number := SFmul 53 1024.
Definition Number_div : number -> number -> number := SFdiv 53 1024.

(** [x < y]; [false] when either side is [NaN]. *)
Definition Number_lt : number -> number -> bool := SFltb.

(** An integer as a Number: an array length, or a literal of the code. *)
Definition Number_ofZ (z : Z) : number := binary_normalize 53 1024 z 0 false.

Definition Number_isNaN (x : number) : bool :=
  match x with
  | S754_nan => true
  | _ => false
  end.

(** Truthiness of a Number: [0], [-0] and [NaN] are falsy. *)
Definition Number_truthy (x : number) : bool :=
  match x with
  | S754_zero _ | S754_nan => false
  | _ => true
  end.

(** ** Domain types ([database/schema.ts]) *)

Inductive TaskStatus := TODO | IN_PROGRESS | BLOCKED | IN_REVIEW | DONE.
Inductive TaskPriority := CRITICAL | HIGH | MEDIUM | LOW.

#[global] Instance TaskStatus_eq_dec : EqDecision TaskStatus.
Proof. solve_decision. Defined.
#[global] Instance TaskPriority_eq_dec : EqDecision TaskPriority.
Proof. solve_decision. Defined.

(** The string values of the [TaskPriority] enum. *)
Definition priorityValue (p : TaskPriority) : jsstring :=
  match p with
  | CRITICAL => js "critical"
  | HIGH => js "high"
  | MEDIUM => js "medium"
  | LOW => js "low"
  end.

(** An hours field as it reaches the analytics: the [Task] interface says
    [number | undefined], the callers pass database rows through
    [as any], so [null] and decimal strings occur too. *)
Inductive hoursField :=
| HUndefined
| HNull
| HNumber (x : number)
| HString (s : jsstring).

Record Task := {
  task_id : jsstring;
  task_projectId : jsstring;
  task_title : jsstring;
  task_status : TaskStatus;
  task_priority : TaskPriority;
  task_dependencies : option (list jsstring);
  task_estimatedHours : hoursField;
  task_actualHours : hoursField;
  task_createdAt : Z;            (* [new Date(createdAt).getTime()] *)
  task_completedAt : option Z
}.

Record ValidationResult := {
  isValid : bool;
  errors : list jsstring
}.

(** [allTasks.find(t => t.id === k)] *)
Definition findTask (k : jsstring) (tasks : list Task) : option Task :=
  List.find (fun t => jseqb (task_id t) k) tasks.

(** [x.dependencies || []] *)
Definition depsOrEmpty (o : option (list jsstring)) : list jsstring :=
  match o with
  | Some l => l
  | None => []
  end.

(** ** [validateTaskDependencies] (task-utils.ts, lines 20-88) *)

(** The two [Set<string>] objects the closure [hasCycle] mutates. *)
Record CycleState := {
  visited : gset jsstring;
  recursionStack : gset jsstring
}.

Definition emptyCycleState : CycleState :=
  {| visited := ∅; recursionStack := ∅ |}.

(** The [for (const depId of currentDeps)] loop of [hasCycle]: the first
    [true] leaves the loop (and the function) at once. *)
Fixpoint cycleLoop (rec : jsstring -> CycleState -> option (bool * CycleState))
    (deps : list jsstring) (st : CycleState) : option (bool * CycleState) :=
  match deps with
  | [] => Some (false, st)
  | depId :: rest =>
      match rec depId st with
      | None => None
      | Some (true, st') => Some (true, st')
      | Some (false, st') => cycleLoop rec rest st'
      end
  end.

Section Validate.
Variables (taskId : jsstring) (dependencies : list jsstring)
          (allTasks : list Task).

(** [currentTaskId === taskId ? dependencies
                              : currentTask?.dependencies || []] *)
Definition currentDeps (currentTaskId : jsstring) : list jsstring :=
  if jseqb currentTaskId taskId then dependencies
  else match findTask currentTaskId allTasks with
       | Some currentTask => depsOrEmpty (task_dependencies currentTask)
       | None => []
       end.

Fixpoint hasCycle (fuel : nat) (currentTaskId : jsstring) (st : CycleState)
  : option (bool * CycleState) :=
  match fuel with
  | 0 => None
  | S fuel' =>
      if decide (currentTaskId ∈ recursionStack st) then Some (true, st)
      else if decide (currentTaskId ∈ visited st) then Some (false, st)
      else
        let st1 := {| visited := {[currentTaskId]} ∪ visited st;
                      recursionStack := {[currentTaskId]} ∪ recursionStack st |} in
        match cycleLoop (hasCycle fuel') (currentDeps currentTaskId) st1 with
        | None => None
        | Some (true, st2) => Some (true, st2)
        | Some (false, st2) =>
            Some (false, {| visited := visited st2;
                            recursionStack := recursionStack st2 ∖ {[currentTaskId]} |})
        end
  end.

(** Every id the traversal can meet. *)
Definition cycleNodes : gset jsstring :=
  list_to_set
    (taskId :: dependencies ++
     flat_map (fun t => task_id t :: depsOrEmpty (task_dependencies t)) allTasks).

(** Depth of recursion the traversal can need: one frame per id, plus
    the frame that finds the id already seen. *)
Definition cycleFuel : nat := S (size cycleNodes).

Definition selfDependencyError : jsstring := js "Task cannot depend on itself".
Definition circularError : jsstring := js "Circular dependency detected".
Definition notFoundError (depId : jsstring) : jsstring :=
  js "Dependency task " ++ depId ++ js " not found".
Definition otherProjectError (depId : jsstring) : jsstring :=
  js "Dependency task " ++ depId ++ js " is not in the same project".

(** Lines 71-82: the existence and same-project checks, guarded by
    [if (taskProjectId)]. *)
Definition projectErrors : list jsstring :=
  match task_projectId <$> findTask taskId allTasks with
  | Some ((_ :: _) as taskProjectId) =>
      flat_map (fun depId =>
        match findTask depId allTasks with
        | None => [notFoundError depId]
        | Some depTask =>
            if jseqb (task_projectId depTask) taskProjectId then []
            else [otherProjectError depId]
        end) dependencies
  | _ => []
  end.

(** [None] only if the traversal ran out of fuel, which
    [validateTaskDependencies_total] excludes. *)
Definition validateTaskDependencies : option ValidationResult :=
  match dependencies with
  | [] => Some {| isValid := true; errors := [] |}
  | _ :: _ =>
      match hasCycle cycleFuel taskId emptyCycleState with
      | None => None
      | Some (cyclic, _) =>
          let errs :=
            (if bool_decide (taskId ∈ dependencies)
             then [selfDependencyError] else []) ++
            (if cyclic then [circularError] else []) ++
            projectErrors in
          Some {| isValid := bool_decide (errs = []); errors := errs |}
      end
  end.
End Validate.

(** ** [buildTaskDependencyGraph] (task-utils.ts, lines 93-145) *)

Record GraphNode := {
  node_task : Task;
  node_dependencies : list jsstring;
  node_dependents : list jsstring;
  node_level : nat
}.

(** The graph is a plain object, [{}], used as a dictionary. Its own
    properties are the entries of a [gmap]. Reading and assigning
    [graph["__proto__"]] reads and sets the prototype of the object, so
    the entry under [protoKey] stands for the prototype the first loop
    may install; it is no own property, and [Object.keys] skips it. *)
Abbreviation TaskDependencyGraph := (gmap jsstring GraphNode).

Definition protoKey : jsstring := js "__proto__".

(** The properties every object inherits from [Object.prototype]:
    functions, and the accessor [__proto__], which gives
    [Object.prototype] itself until the prototype is replaced. *)
Definition objectPrototypeNames : list jsstring :=
  [ js "constructor"; js "__defineGetter__"; js "__defineSetter__";
    js "hasOwnProperty"; js "__lookupGetter__"; js "__lookupSetter__";
    js "isPrototypeOf"; js "propertyIsEnumerable"; js "toString";
    js "valueOf"; protoKey; js "toLocaleString" ].

(** What [graph[key]] gives. *)
Inductive property :=
| PNode (node : GraphNode)   (* a node: an own property, or the prototype *)
| PTask (task : Task)        (* the [task] field of the prototype node *)
| PObject                    (* another inherited function, array or object *)
| PUndefined.                (* [undefined], or the inherited [level], 0 *)

Definition getProperty (graph : TaskDependencyGraph) (key : jsstring) : property :=
  match graph !! key with
  | Some node => PNode node
  | None =>
      if bool_decide (key ∈ objectPrototypeNames) then PObject
      else
        match graph !! protoKey with
        | Some proto =>
            if jseqb key (js "task") then PTask (node_task proto)
            else if jseqb key (js "dependencies") || jseqb key (js "dependents")
            then PObject
            else PUndefined
        | None => PUndefined
        end
  end.

(** The messages of the [TypeError]s the engine throws on
    [undefined.push] and on [undefined.length]. *)
Definition cannotReadPush : jsstring :=
  js "Cannot read properties of undefined (reading 'push')".
Definition cannotReadLength : jsstring :=
  js "Cannot read properties of undefined (reading 'length')".

Definition initNode (task : Task) : GraphNode :=
  {| node_task := task;
     node_dependencies := depsOrEmpty (task_dependencies task);
     node_dependents := [];
     node_level := 0 |}.

(** First loop: [graph[task.id] = {...}], a later task replacing an
    earlier one of the same id. *)
Definition initGraph (tasks : list Task) : TaskDependencyGraph :=
  fold_left (fun graph task => <[task_id task := initNode task]> graph) tasks ∅.

Definition pushDependent (who : jsstring) (n : GraphNode) : GraphNode :=
  {| node_task := node_task n;
     node_dependencies := node_dependencies n;
     node_dependents := node_dependents n ++ [who];
     node_level := node_level n |}.

(** [if (graph[depId]) graph[depId].dependents.push(task.id)]: an
    inherited value is truthy and has no [dependents]. *)
Definition pushOn (who depId : jsstring) (graph : TaskDependencyGraph)
  : outcome TaskDependencyGraph :=
  match getProperty graph depId with
  | PNode _ => Return (alter (pushDependent who) depId graph)
  | PUndefined => Return graph
  | PTask _ | PObject => Throw cannotReadPush
  end.

Fixpoint pushAll (who : jsstring) (deps : list jsstring)
    (graph : TaskDependencyGraph) : outcome TaskDependencyGraph :=
  match deps with
  | [] => Return graph
  | depId :: rest => graph' ← pushOn who depId graph; pushAll who rest graph'
  end.

(** Second loop. *)
Fixpoint addDependents (tasks : list Task) (graph : TaskDependencyGraph)
  : outcome TaskDependencyGraph :=
  match tasks with
  | [] => Return graph
  | task :: rest =>
      graph' ← match task_dependencies task with
               | Some deps => pushAll (task_id task) deps graph
               | None => Return graph
               end;
      addDependents rest graph'
  end.

(** The [for (const depId of node.dependencies)] loop of [calculateLevel];
    every recursive call gets its own copy of [visited]. [None] is a
    recursion that ran out of fuel. *)
Fixpoint levelLoop (rec : jsstring -> gset jsstring -> option (outcome nat))
    (graph : TaskDependencyGraph) (visited : gset jsstring)
    (deps : list jsstring) (maxLevel : nat) : option (outcome nat) :=
  match deps with
  | [] => Some (Return maxLevel)
  | depId :: rest =>
      match getProperty graph depId with
      | PUndefined => levelLoop rec graph visited rest maxLevel
      | _ =>
          match rec depId visited with
          | None => None
          | Some (Throw e) => Some (Throw e)
          | Some (Return depLevel) =>
              levelLoop rec graph visited rest (Nat.max maxLevel (depLevel + 1))
          end
      end
  end.

Fixpoint calculateLevel (fuel : nat) (graph : TaskDependencyGraph)
    (taskId : jsstring) (visited : gset jsstring) : option (outcome nat) :=
  match fuel with
  | 0 => None
  | S fuel' =>
      if decide (taskId ∈ visited) then Some (Return 0)
      else
        let visited' := {[taskId]} ∪ visited in
        let loop deps :=
          match deps with
          | [] => Some (Return 0)
          | _ => levelLoop (calculateLevel fuel' graph) graph visited' deps 0
          end in
        match getProperty graph taskId with
        | PUndefined => Some (Return 0)
        | PNode node => loop (node_dependencies node)
        | PTask task =>
            match task_dependencies task with
            | Some deps => loop deps
            | None => Some (Throw cannotReadLength)
            end
        | PObject => Some (Throw cannotReadLength)
        end
  end.

Definition setLevel (l : nat) (n : GraphNode) : GraphNode :=
  {| node_task := node_task n;
     node_dependencies := node_dependencies n;
     node_dependents := node_dependents n;
     node_level := l |}.

Definition levelFuel (graph : TaskDependencyGraph) : nat := S (size graph).

(** [Object.keys(graph)]: every own property once. The order, integer
    keys first, does not matter to the levels. *)
Definition ownKeys (graph : TaskDependencyGraph) : list jsstring :=
  List.filter (fun key => negb (jseqb key protoKey)) (elements (dom graph)).

(** Third loop: [graph[taskId].level = calculateLevel(taskId, new Set())]
    for every key of the graph. The closure reads the graph the loop is
    updating, so the current graph is passed along. *)
Fixpoint assignLevels (fuel : nat) (keys : list jsstring)
    (graph : TaskDependencyGraph) : option (outcome TaskDependencyGraph) :=
  match keys with
  | [] => Some (Return graph)
  | taskId :: rest =>
      match calculateLevel fuel graph taskId ∅ with
      | None => None
      | Some (Throw e) => Some (Throw e)
      | Some (Return l) => assignLevels fuel rest (alter (setLevel l) taskId graph)
      end
  end.

(** The result is [None] only if a level computation ran out of fuel,
    which never happens with [levelFuel]. *)
Definition buildTaskDependencyGraph (tasks : list Task)
  : option (outcome TaskDependencyGraph) :=
  match addDependents tasks (initGraph tasks) with
  | Throw e => Some (Throw e)
  | Return graph => assignLevels (levelFuel graph) (ownKeys graph) graph
  end.

(** ** [findNextTask] (task-utils.ts, lines 150-192) *)

Definition dependenciesMet (tasks : list Task) (task : Task) : bool :=
  forallb (fun depId =>
    match findTask depId tasks with
    | Some depTask => bool_decide (task_status depTask = DONE)
    | None => false
    end) (depsOrEmpty (task_dependencies task)).

Definition isAvailable (excludeBlocked : bool) (tasks : list Task) (task : Task)
  : bool :=
  if bool_decide (task_status task = DONE) then false
  else if excludeBlocked && bool_decide (task_status task = BLOCKED) then false
  else if bool_decide (task_status task = IN_PROGRESS) then false
  else dependenciesMet tasks task.

Definition priorityOrder (p : TaskPriority) : Z :=
  match p with
  | CRITICAL => 0
  | HIGH => 1
  | MEDIUM => 2
  | LOW => 3
  end.

(** The comparator handed to [Array.prototype.sort]. *)
Definition compareTasks (a b : Task) : Z :=
  let priorityDiff := (priorityOrder (task_priority a) - priorityOrder (task_priority b))%Z in
  if negb (priorityDiff =? 0)%Z then priorityDiff
  else (task_createdAt a - task_createdAt b)%Z.

(** [Array.prototype.sort] is a stable sort; insertion from the right,
    placing an element before the first one it does not exceed, is one. *)
Fixpoint insertSorted {A} (cmp : A -> A -> Z) (x : A) (l : list A) : list A :=
  match l with
  | [] => [x]
  | y :: l' => if (cmp x y <=? 0)%Z then x :: l else y :: insertSorted cmp x l'
  end.

Definition stableSort {A} (cmp : A -> A -> Z) (l : list A) : list A :=
  fold_right (insertSorted cmp) [] l.

Definition findNextTask (tasks : list Task) (excludeBlocked : bool) : option Task :=
  let availableTasks := List.filter (isAvailable excludeBlocked tasks) tasks in
  match stableSort compareTasks availableTasks with
  | [] => None
  | first :: _ => Some first
  end.

(** ** [calculateProjectAnalytics] (task-utils.ts, lines 197-244) *)

Record ProjectAnalytics := {
  totalTasks : nat;
  completedTasks : nat;
  inProgressTasks : nat;
  blockedTasks : nat;
  completionRate : number;
  averageTaskDuration : number;
  totalEstimatedHours : number;
  totalActualHours : number;
  efficiencyRatio : number
}.

Definition countStatus (s : TaskStatus) (tasks : list Task) : nat :=
  length (List.filter (fun t => bool_decide (task_status t = s)) tasks).

(** A length as a Number. *)
Definition Number_ofNat (n : nat) : number := Number_ofZ (Z.of_nat n).

(** The literal [0]. *)
Definition zero : number := S754_zero false.

Section Analytics.
(** The platform's [parseFloat]; it returns [NaN] for a string that
    starts with no number. *)
Variable parseFloat : jsstring -> number.

Definition safeToNumber (value : hoursField) : number :=
  match value with
  | HUndefined | HNull => zero
  | HString s => let num := parseFloat s in
                 if Number_isNaN num then zero else num
  | HNumber x => x
  end.

(** Truthiness of an hours field, for [t.actualHours && t.completedAt]. *)
Definition hoursTruthy (value : hoursField) : bool :=
  match value with
  | HUndefined | HNull => false
  | HNumber x => Number_truthy x
  | HString s => negb (bool_decide (s = []))
  end.

Definition sumHours (field : Task -> hoursField) (tasks : list Task) : number :=
  fold_left (fun sum task => Number_add sum (safeToNumber (field task))) tasks zero.

Definition calculateProjectAnalytics (tasks : list Task) : ProjectAnalytics :=
  let total := length tasks in
  let completed := countStatus DONE tasks in
  let rate :=
    if 0 <? total
    then Number_mul (Number_div (Number_ofNat completed) (Number_ofNat total))
                    (Number_ofZ 100)
    else zero in
  let estimated := sumHours task_estimatedHours tasks in
  let actual := sumHours task_actualHours tasks in
  let completedTasksWithHours :=
    List.filter (fun t => bool_decide (task_status t = DONE)
                          && hoursTruthy (task_actualHours t)
                          && bool_decide (is_Some (task_completedAt t))) tasks in
  let average :=
    if 0 <? length completedTasksWithHours
    then Number_div (sumHours task_actualHours completedTasksWithHours)
                    (Number_ofNat (length completedTasksWithHours))
    else zero in
  let efficiency :=
    if Number_lt zero estimated && Number_lt zero actual
    then Number_mul (Number_div estimated actual) (Number_ofZ 100) else zero in
  {| totalTasks := total;
     completedTasks := completed;
     inProgressTasks := countStatus IN_PROGRESS tasks;
     blockedTasks := countStatus BLOCKED tasks;
     completionRate := rate;
     averageTaskDuration := average;
     totalEstimatedHours := estimated;
     totalActualHours := actual;
     efficiencyRatio := efficiency |}.
End Analytics.

(** ** JSON values and [JSON.parse] *)

Inductive json :=
| JNull
| JBool (b : bool)
| JNumber (q : Q)
| JString (s : jsstring)
| JArray (items : list json)
| JObject (members : list (jsstring * json)).

Inductive parsed (A : Type) : Type :=
| POk (a : A) (rest : jsstring)
| PSyntaxError
| POutOfFuel.
Arguments POk {A} a rest.
Arguments PSyntaxError {A}.
Arguments POutOfFuel {A}.

(** JSON white space: tab, line feed, carriage return, space. *)
Definition isJsonSpace (c : N) : bool :=
  N.eqb c 9 || N.eqb c 10 || N.eqb c 13 || N.eqb c 32.

Fixpoint skipWs (s : jsstring) : jsstring :=
  match s with
  | [] => []
  | c :: s' => if isJsonSpace c then skipWs s' else s
  end.

Definition hexValue (c : N) : option N :=
  if N.leb 48 c && N.leb c 57 then Some (c - 48)%N
  else if N.leb 65 c && N.leb c 70 then Some (c - 55)%N
  else if N.leb 97 c && N.leb c 102 then Some (c - 87)%N
  else None.

Definition simpleEscape (c : N) : option N :=
  match c with
  | 34%N => Some 34%N     (* escaped double quote *)
  | 92%N => Some 92%N     (* escaped backslash *)
  | 47%N => Some 47%N     (* escaped solidus *)
  | 98%N => Some 8%N      (* b: backspace *)
  | 102%N => Some 12%N    (* f: form feed *)
  | 110%N => Some 10%N    (* n: line feed *)
  | 114%N => Some 13%N    (* r: carriage return *)
  | 116%N => Some 9%N     (* t: tab *)
  | _ => None
  end.

(** The characters of a string literal after its opening quote, up to
    and including the closing quote. *)
Fixpoint parseStringBody (s : jsstring) : option (jsstring * jsstring) :=
  match s with
  | [] => None
  | c :: s' =>
      if N.eqb c 34 then Some ([], s')
      else if N.eqb c 92 then
        match s' with
        | [] => None
        | e :: s'' =>
            if N.eqb e 117 then
              match s'' with
              | h1 :: h2 :: h3 :: h4 :: s3 =>
                  match hexValue h1, hexValue h2, hexValue h3, hexValue h4 with
                  | Some a, Some b, Some c', Some d =>
                      match parseStringBody s3 with
                      | Some (str, rest) =>
                          Some ((((a * 16 + b) * 16 + c') * 16 + d)%N :: str, rest)
                      | None => None
                      end
                  | _, _, _, _ => None
                  end
              | _ => None
              end
            else
              match simpleEscape e with
              | Some u =>
                  match parseStringBody s'' with
                  | Some (str, rest) => Some (u :: str, rest)
                  | None => None
                  end
              | None => None
              end
        end
      else if N.ltb c 32 then None
      else
        match parseStringBody s' with
        | Some (str, rest) => Some (c :: str, rest)
        | None => None
        end
  end.

Definition isDigit (c : N) : bool := N.leb 48 c && N.leb c 57.

(** The longest prefix of decimal digits: its value, its length, the rest. *)
Fixpoint takeDigits (s : jsstring) (value : Z) (count : nat) : Z * nat * jsstring :=
  match s with
  | c :: s' =>
      if isDigit c then takeDigits s' (value * 10 + Z.of_N (c - 48)) (S count)
      else (value, count, s)
  | [] => (value, count, s)
  end.

Definition pow10 (e : Z) : Q :=
  if (e <? 0)%Z then 1 / inject_Z (10 ^ (- e)) else inject_Z (10 ^ e).

Definition parseExponent (s : jsstring) : option (Z * jsstring) :=
  match s with
  | c :: s' =>
      if N.eqb c 101 || N.eqb c 69 then
        let '(negative, s'') :=
          match s' with
          | d :: r => if N.eqb d 45 then (true, r)
                      else if N.eqb d 43 then (false, r) else (false, s')
          | [] => (false, s')
          end in
        match takeDigits s'' 0 0 with
        | (_, 0, _) => None
        | (e, S _, rest) => Some (if negative then (- e)%Z else e, rest)
        end
      else Some (0%Z, s)
  | [] => Some (0%Z, s)
  end.

Definition parseFraction (s : jsstring) : option (Q * jsstring) :=
  match s with
  | c :: s' =>
      if N.eqb c 46 then
        match takeDigits s' 0 0 with
        | (_, 0, _) => None
        | (f, S k, rest) => Some ((inject_Z f / inject_Z (10 ^ Z.of_nat (S k)))%Q, rest)
        end
      else Some (0%Q, s)
  | [] => Some (0%Q, s)
  end.

(** [JSON.parse] gives the binary64 value nearest to a literal. The
    normaliser tests a number for zero and clamps it to [[0.5, 40]],
    bounds that binary64 holds exactly, so the rounding shows only where
    it turns a literal into 0: at a magnitude of at most [2 ^ -1075],
    half the smallest positive Number (the tie goes to the even
    neighbour, 0). A magnitude too large for binary64 becomes
    [Infinity], which is clamped to 40 like the literal itself. *)
Definition underflows (magnitude : Q) : bool :=
  Qle_bool magnitude (1 / inject_Z (2 ^ 1075)).

(** A JSON number: an optional minus sign; an integer part that is a
    single 0 or starts with a non-zero digit; an optional fraction (a dot
    and one or more digits); an optional exponent (e or E, an optional
    sign, one or more digits). *)
Definition parseNumber (s : jsstring) : option (Q * jsstring) :=
  let '(negative, s1) :=
    match s with
    | c :: r => if N.eqb c 45 then (true, r) else (false, s)
    | [] => (false, s)
    end in
  match s1 with
  | c :: r =>
      if isDigit c then
        let '(int, _, s2) :=
          if N.eqb c 48 then (0%Z, 1, r) else takeDigits s1 0 0 in
        match parseFraction s2 with
        | None => None
        | Some (frac, s3) =>
            match parseExponent s3 with
            | None => None
            | Some (e, s4) =>
                let exact := ((inject_Z int + frac) * pow10 e)%Q in
                let magnitude := if underflows exact then 0%Q else exact in
                Some (if negative then (- magnitude)%Q else magnitude, s4)
            end
        end
      else None
  | [] => None
  end.

Definition expectWord {A} (word : jsstring) (v : A) (s : jsstring) : parsed A :=
  if startsWith word s then POk v (drop (length word) s) else PSyntaxError.

Fixpoint parseValue (fuel : nat) (s : jsstring) : parsed json :=
  match fuel with
  | 0 => POutOfFuel
  | S fuel' =>
      match skipWs s with
      | [] => PSyntaxError
      | c :: r =>
          if N.eqb c 91 then                       (* [ *)
            match skipWs r with
            | d :: r' =>
                if N.eqb d 93 then POk (JArray []) r'
                else match parseElements fuel' r with
                     | POk items rest => POk (JArray items) rest
                     | PSyntaxError => PSyntaxError
                     | POutOfFuel => POutOfFuel
                     end
            | [] => PSyntaxError
            end
          else if N.eqb c 123 then                 (* { *)
            match skipWs r with
            | d :: r' =>
                if N.eqb d 125 then POk (JObject []) r'
                else match parseMembers fuel' r with
                     | POk members rest => POk (JObject members) rest
                     | PSyntaxError => PSyntaxError
                     | POutOfFuel => POutOfFuel
                     end
            | [] => PSyntaxError
            end
          else if N.eqb c 34 then                  (* string *)
            match parseStringBody r with
            | Some (str, rest) => POk (JString str) rest
            | None => PSyntaxError
            end
          else if N.eqb c 116 then expectWord (js "true") (JBool true) (c :: r)
          else if N.eqb c 102 then expectWord (js "false") (JBool false) (c :: r)
          else if N.eqb c 110 then expectWord (js "null") JNull (c :: r)
          else
            match parseNumber (c :: r) with
            | Some (q, rest) => POk (JNumber q) rest
            | None => PSyntaxError
            end
      end
  end

with parseElements (fuel : nat) (s : jsstring) : parsed (list json) :=
  match fuel with
  | 0 => POutOfFuel
  | S fuel' =>
      match parseValue fuel' s with
      | POk v rest =>
          match skipWs rest with
          | c :: r =>
              if N.eqb c 44 then
                match parseElements fuel' r with
                | POk vs rest' => POk (v :: vs) rest'
                | PSyntaxError => PSyntaxError
                | POutOfFuel => POutOfFuel
                end
              else if N.eqb c 93 then POk [v] r
              else PSyntaxError
          | [] => PSyntaxError
          end
      | PSyntaxError => PSyntaxError
      | POutOfFuel => POutOfFuel
      end
  end

with parseMembers (fuel : nat) (s : jsstring) : parsed (list (jsstring * json)) :=
  match fuel with
  | 0 => POutOfFuel
  | S fuel' =>
      match skipWs s with
      | q :: r =>
          if N.eqb q 34 then
            match parseStringBody r with
            | Some (key, rest) =>
                match skipWs rest with
                | colon :: r1 =>
                    if N.eqb colon 58 then
                      match parseValue fuel' r1 with
                      | POk v rest1 =>
                          match skipWs rest1 with
                          | c :: r2 =>
                              if N.eqb c 44 then
                                match parseMembers fuel' r2 with
                                | POk ms rest2 => POk ((key, v) :: ms) rest2
                                | PSyntaxError => PSyntaxError
                                | POutOfFuel => POutOfFuel
                                end
                              else if N.eqb c 125 then POk [(key, v)] r2
                              else PSyntaxError
                          | [] => PSyntaxError
                          end
                      | PSyntaxError => PSyntaxError
                      | POutOfFuel => POutOfFuel
                      end
                    else PSyntaxError
                | [] => PSyntaxError
                end
            | None => PSyntaxError
            end
          else PSyntaxError
      | [] => PSyntaxError
      end
  end.

Definition parseFuel (text : jsstring) : nat := 2 * length text + 2.

(** [JSON.parse(text)]: one value, white space around it, nothing else;
    anything else throws [SyntaxError]. *)
Definition JSON_parse (text : jsstring) : outcome json :=
  match parseValue (parseFuel text) text with
  | POk v rest =>
      match skipWs rest with
      | [] => Return v
      | _ :: _ => Throw (js "SyntaxError")
      end
  | PSyntaxError | POutOfFuel => Throw (js "SyntaxError")
  end.

(** ** The [PRPParser] class *)

Record TaskGenerationConfig := {
  maxTasks : Z;
  includeMilestones : bool;
  defaultPriority : TaskPriority;
  estimateHours : bool;
  generateDependencies : bool
}.

(** An [AITask] as the code builds it. The interface types [description]
    as a string, but [task.description || task.title || ...] stores
    whatever truthy value the model sent. *)
Record AITask := {
  ai_title : jsstring;
  ai_description : json;
  ai_priority : TaskPriority;
  ai_estimatedHours : option Q;
  ai_dependencies : option (list jsstring)
}.

Definition typeError : jsstring := js "TypeError".

(** [value.name] for the property names the normaliser reads ([title],
    [description], [priority], [estimatedHours], [dependencies]): an own
    property of an object (the last duplicate wins in [JSON.parse]),
    [undefined] on any other non-null value, a [TypeError] on [null]. *)
Definition getProp (value : json) (name : jsstring) : outcome (option json) :=
  match value with
  | JNull => Throw typeError
  | JObject members =>
      Return (snd <$> List.find (fun m => jseqb (fst m) name) (rev members))
  | _ => Return None
  end.

Definition truthy (value : option json) : bool :=
  match value with
  | None | Some JNull => false
  | Some (JBool b) => b
  | Some (JNumber q) => negb (Qeq_bool q 0)
  | Some (JString s) => negb (bool_decide (s = []))
  | Some (JArray _) | Some (JObject _) => true
  end.

(** [task.title?.substring(0, 100)]: [undefined] for a missing or [null]
    title, a [TypeError] for a title that is not a string. *)
Definition titlePrefix (title : option json) : outcome (option jsstring) :=
  match title with
  | None | Some JNull => Return None
  | Some (JString s) => Return (Some (substring0 100 s))
  | Some _ => Throw typeError
  end.

(** [Object.values(TaskPriority).includes(p) ? p : fallback] *)
Definition priorityOf (p : option json) (fallback : TaskPriority) : TaskPriority :=
  match p with
  | Some (JString s) =>
      if jseqb s (priorityValue CRITICAL) then CRITICAL
      else if jseqb s (priorityValue HIGH) then HIGH
      else if jseqb s (priorityValue MEDIUM) then MEDIUM
      else if jseqb s (priorityValue LOW) then LOW
      else fallback
  | _ => fallback
  end.

(** The regular expression of line 126: the string is [task-index-]
    followed by one or more decimal digits and nothing else. *)
Definition isTaskIndex (dep : jsstring) : bool :=
  let prefix := js "task-index-" in
  let digits := drop (length prefix) dep in
  startsWith prefix dep && negb (bool_decide (digits = [])) && forallb isDigit digits.

Definition keepDependency (dep : json) : option jsstring :=
  match dep with
  | JString s => if isTaskIndex s then Some s else None
  | _ => None
  end.

(** The callback of [map] in [validateAndNormalizeTasks]. *)
Definition normalizeTask (config : TaskGenerationConfig) (index : nat) (task : json)
  : outcome AITask :=
  title ← getProp task (js "title");
  prefix ← titlePrefix title;
  description ← getProp task (js "description");
  priority ← getProp task (js "priority");
  hours ← getProp task (js "estimatedHours");
  deps ← getProp task (js "dependencies");
  let number := natToString (index + 1) in
  mret {|
    ai_title :=
      match prefix with
      | Some ((_ :: _) as t) => t
      | _ => js "Generated Implementation Task " ++ number
      end;
    ai_description :=
      if truthy description then default JNull description
      else if truthy title then default JNull title
      else JString (js "Implementation task " ++ number);
    ai_priority := priorityOf priority (defaultPriority config);
    ai_estimatedHours :=
      match hours with
      | Some (JNumber q) =>
          if estimateHours config && negb (Qeq_bool q 0)
          then Some (Qmax (1 # 2) (Qmin 40 q)) else None
      | _ => None
      end;
    ai_dependencies :=
      match deps with
      | Some (JArray items) =>
          if generateDependencies config then Some (omap keepDependency items)
          else None
      | _ => None
      end
  |}.

(** [array.slice(0, n)] for an integer [n]: a negative [n] counts from
    the end. *)
Definition slice0 {A} (n : Z) (l : list A) : list A :=
  if (n <? 0)%Z then take (Z.to_nat (Z.max (Z.of_nat (length l) + n) 0)) l
  else take (Z.to_nat n) l.

(** [aiTasks.slice(0, config.maxTasks).map(...)]: anything but an array
    has no callable [slice(...).map], a [TypeError]. *)
Definition validateAndNormalizeTasks (aiTasks : json) (config : TaskGenerationConfig)
  : outcome (list AITask) :=
  match aiTasks with
  | JArray items => mapiO (normalizeTask config) 0 (slice0 (maxTasks config) items)
  | _ => Throw typeError
  end.

Definition fallbackKeywords : list jsstring :=
  [js "implement"; js "create"; js "build"; js "code"; js "function";
   js "class"; js "component"; js "api"; js "test"].

Definition hasKeyword (line : jsstring) : bool :=
  existsb (includes line) fallbackKeywords.

Definition validationReminder : jsstring :=
  [10; 10]%N ++ js "Validation gates: Run tests and type checking after implementation.".

(** The object pushed for a kept line. [random] is what [Math.random()]
    returns for it, a number in [[0, 1)]. *)
Definition previewTask (config : TaskGenerationConfig) (random : Q) (line : jsstring)
  : AITask :=
  {| ai_title := trim (substring0 100 line);
     ai_description := JString (trim line ++ validationReminder);
     ai_priority :=
       if includes line (js "critical") || includes line (js "must")
       then HIGH else MEDIUM;
     ai_estimatedHours :=
       if estimateHours config then Some (inject_Z (Qfloor (random * 8) + 1))
       else None;
     ai_dependencies := None |}.

(** The [for (const line of lines)] loop: push, then leave once
    [tasks.length >= config.maxTasks]. [Math.random] is called once per
    pushed task when estimates are on, so the task at position [k] gets
    the draw [rand k]. *)
Fixpoint previewLoop (config : TaskGenerationConfig) (rand : nat -> Q)
    (lines : list jsstring) (tasks : list AITask) : list AITask :=
  match lines with
  | [] => tasks
  | line :: rest =>
      if hasKeyword line then
        let tasks' := tasks ++ [previewTask config (rand (length tasks)) line] in
        if (maxTasks config <=? Z.of_nat (length tasks'))%Z then tasks'
        else previewLoop config rand rest tasks'
      else previewLoop config rand rest tasks
  end.

Definition parsePreviewPRP (rand : nat -> Q) (prpContent : jsstring)
    (projectContext : json) (config : TaskGenerationConfig) : list AITask :=
  let lines :=
    List.filter (fun line => negb (bool_decide (trim line = [])))
                (split 10 prpContent) in
  previewLoop config rand lines [].

(** What the [try] block has in hand when it reaches [JSON.parse]
    (line 53): either something threw on the way (building the prompt,
    [fetch] rejecting, a non-2xx status, a body that is not JSON, no
    [content[0].text]), or there is a payload, here already converted to
    the string [JSON.parse] sees. *)
Inductive Completion :=
| ServiceFailed (error : jsstring)
| ServiceText (content : jsstring).

(** The body of the [try] block. *)
Definition requestTasks (service : Completion) (config : TaskGenerationConfig)
  : outcome (list AITask) :=
  match service with
  | ServiceFailed error => Throw error
  | ServiceText content =>
      aiTasks ← JSON_parse content;
      validateAndNormalizeTasks aiTasks config
  end.

Definition generateTasksFromPRP (service : Completion) (rand : nat -> Q)
    (prpContent : jsstring) (projectContext : json) (config : TaskGenerationConfig)
  : outcome (list AITask) :=
  try_catch (requestTasks service config)
            (fun _ => mret (parsePreviewPRP rand prpContent projectContext config)).

(** [sanitizePRPContent]: drop every [<] (60) and [>] (62), turn every
    single quote (39) and double quote (34) into a double quote, [trim()]. *)
Definition sanitizePRPContent (content : jsstring) : jsstring :=
  trim
    (List.map (fun c => if N.eqb c 39 || N.eqb c 34 then 34%N else c)
       (List.filter (fun c => negb (N.eqb c 60 || N.eqb c 62)) content)).

(** * Vocabulary of the statements *)

(** No angle bracket and no single quote: what one pass of the two
    replacements leaves. *)
Definition sanitizedUnit (c : N) : Prop := c <> 60%N /\ c <> 62%N /\ c <> 39%N.

(** Two tasks that agree on everything but the hour estimate. *)
Definition sameButHours (a b : AITask) : Prop :=
  ai_title a = ai_title b /\ ai_description a = ai_description b /\
  ai_priority a = ai_priority b /\ ai_dependencies a = ai_dependencies b.

(** [rest] is what is left of [s] after a prefix that ends with [c]. *)
Definition closedBy (c : N) (rest s : jsstring) : Prop :=
  exists pre, s = pre ++ c :: rest.

(** Inputs for the examples. *)
Definition configOf (limit : Z) (estimates : bool) : TaskGenerationConfig :=
  {| maxTasks := limit;
     includeMilestones := false;
     defaultPriority := MEDIUM;
     estimateHours := estimates;
     generateDependencies := false |}.

(** A payload in which prose surrounds a well-formed JSON array. *)
Definition proseWrappedArray : jsstring :=
  js "Here are the tasks: [{}, {}] Let me know if you need more.".

(** Eligibility for recommendation, in the specification's words: not
    done, not in progress, not blocked when blocked tasks are excluded,
    and every dependency id resolves (as [find] resolves it) to a task
    that is done. *)
Definition eligible (excludeBlocked : bool) (tasks : list Task) (task : Task) : Prop :=
  task_status task <> DONE /\
  task_status task <> IN_PROGRESS /\
  (excludeBlocked = true -> task_status task <> BLOCKED) /\
  forall depId, In depId (depsOrEmpty (task_dependencies task)) ->
    exists depTask, findTask depId tasks = Some depTask /\ task_status depTask = DONE.

(** [a] is recommended no later than [b]: lower priority rank first,
    then earlier creation. *)
Definition noLaterThan (a b : Task) : Prop :=
  (priorityOrder (task_priority a) < priorityOrder (task_priority b))%Z \/
  (priorityOrder (task_priority a) = priorityOrder (task_priority b) /\
   (task_createdAt a <= task_createdAt b)%Z).

(** The rank of a priority as the specification gives it: critical 0,
    high 1, medium 2, low 3. *)
Definition specifiedRank (p : TaskPriority) : Z :=
  match p with
  | CRITICAL => 0
  | HIGH => 1
  | MEDIUM => 2
  | LOW => 3
  end.

(** The specified order of recommendation: lowest rank first, ties
    broken by the earliest [createdAt]. *)
Definition rankedNoLater (a b : Task) : Prop :=
  (specifiedRank (task_priority a) < specifiedRank (task_priority b))%Z \/
  (specifiedRank (task_priority a) = specifiedRank (task_priority b) /\
   (task_createdAt a <= task_createdAt b)%Z).

Definition exampleTask (name : string) (status : TaskStatus) (priority : TaskPriority)
    (deps : list jsstring) (created : Z) : Task :=
  {| task_id := js name;
     task_projectId := js "project";
     task_title := js name;
     task_status := status;
     task_priority := priority;
     task_dependencies := Some deps;
     task_estimatedHours := HUndefined;
     task_actualHours := HUndefined;
     task_createdAt := created;
     task_completedAt := None |}.

(** Scenario A of the specification. *)
Definition scenarioA : list Task :=
  [ exampleTask "t1" DONE HIGH [] 1;
    exampleTask "t2" BLOCKED CRITICAL [] 2;
    exampleTask "t3" IN_PROGRESS MEDIUM [] 3;
    exampleTask "t4" TODO HIGH [] 4;
    exampleTask "t5" TODO MEDIUM [] 5;
    exampleTask "t6" TODO HIGH [js "t1"] 6;
    exampleTask "t7" TODO CRITICAL [js "t3"] 7 ].

(** Four open tasks, the more urgent the younger. *)
Definition agedTasks : list Task :=
  [ exampleTask "low" TODO LOW [] 1;
    exampleTask "medium" TODO MEDIUM [] 2;
    exampleTask "high" TODO HIGH [] 3;
    exampleTask "critical" TODO CRITICAL [] 4 ].

Definition timedTask (name : string) (status : TaskStatus)
    (estimated actual : hoursField) (completed : option Z) : Task :=
  {| task_id := js name;
     task_projectId := js "project";
     task_title := js name;
     task_status := status;
     task_priority := MEDIUM;
     task_dependencies := None;
     task_estimatedHours := estimated;
     task_actualHours := actual;
     task_createdAt := 0;
     task_completedAt := completed |}.

(** The Number a decimal literal denotes: [digits / 10 ^ places], both
    exact in binary64 for the literals used here, so that the division
    rounds once, as reading the literal does. *)
Definition decimal (digits places : Z) : number :=
  Number_div (Number_ofZ digits) (Number_ofZ (10 ^ places)).

(** [NaN], or a Number whose sign bit is clear: [-0] and everything
    below zero are excluded. *)
Definition notNegative (x : number) : Prop :=
  match x with
  | S754_nan => True
  | S754_zero s | S754_infinity s | S754_finite s _ _ => s = false
  end.

(** The rational a finite Number stands for. *)
Definition Number_value (x : number) : option Q :=
  match x with
  | S754_zero _ => Some 0%Q
  | S754_finite s m e =>
      Some ((if s then -1 else 1) * inject_Z (Z.pos m) * Qpower 2 e)%Q
  | _ => None
  end.

(** Scenario D of the specification: estimates 4, 2, 8, 3, 6 and actual
    hours 5 and 1.5 on the two done tasks. *)
Definition scenarioD : list Task :=
  [ timedTask "d1" DONE (HNumber (Number_ofZ 4)) (HNumber (Number_ofZ 5)) (Some 10%Z);
    timedTask "d2" DONE (HNumber (Number_ofZ 2)) (HNumber (decimal 15 1)) (Some 20%Z);
    timedTask "d3" IN_PROGRESS (HNumber (Number_ofZ 8)) HUndefined None;
    timedTask "d4" TODO (HNumber (Number_ofZ 3)) HUndefined None;
    timedTask "d5" BLOCKED (HNumber (Number_ofZ 6)) HUndefined None ].

(** Seven done tasks out of twenty-five. *)
Definition sevenOfTwentyFive : list Task :=
  repeat (timedTask "done" DONE HUndefined HUndefined (Some 10%Z)) 7
  ++ repeat (timedTask "open" TODO HUndefined HUndefined None) 18.

(** An estimate of 5e-324, the smallest positive Number, against 1000
    actual hours. *)
Definition tinyEstimate : list Task :=
  [ timedTask "tiny" TODO (HNumber (S754_finite false 1 (-1074)))
      (HNumber (Number_ofZ 1000)) None ].

(** Hours 0.1, then 0.2 and 0.3. *)
Definition tenthHours : list Task :=
  [ timedTask "h1" TODO (HNumber (decimal 1 1)) (HNumber (decimal 1 1)) None ].
Definition fifthHours : list Task :=
  [ timedTask "h2" TODO (HNumber (decimal 2 1)) (HNumber (decimal 2 1)) None;
    timedTask "h3" TODO (HNumber (decimal 3 1)) (HNumber (decimal 3 1)) None ].

(** The dependency graph [validateTaskDependencies] walks: the proposed
    dependencies are the edges of [taskId], the stored [dependencies]
    field gives the edges of every other task. *)
Definition depEdge (taskId : jsstring) (dependencies : list jsstring)
    (allTasks : list Task) (from to : jsstring) : Prop :=
  In to (currentDeps taskId dependencies allTasks from).

(** Some node that can be reached from [taskId] lies on a cycle: what a
    depth-first traversal from [taskId] detects when it meets a node
    that is still on its recursion stack. *)
Definition reachesCycle (taskId : jsstring) (dependencies : list jsstring)
    (allTasks : list Task) : Prop :=
  exists node,
    rtc (depEdge taskId dependencies allTasks) taskId node /\
    tc (depEdge taskId dependencies allTasks) node node.

(** A node the traversal has left: visited and no longer on the stack. *)
Definition finished (st : CycleState) (node : jsstring) : Prop :=
  node ∈ visited st /\ node ∉ recursionStack st.

(** What a call of [hasCycle] that returns [false] does to the sets. *)
Definition returnsFalse (node : jsstring) (before after : CycleState) : Prop :=
  recursionStack after = recursionStack before /\
  visited before ⊆ visited after /\
  node ∈ visited after /\
  node ∉ recursionStack before.

(** How often an error message occurs in a result. *)
Definition occurrences (message : jsstring) (l : list jsstring) : nat :=
  length (List.filter (jseqb message) l).

(** The invariant of the traversal: finished nodes only point to
    finished nodes, and none of them is on a cycle. *)
Definition settledState (taskId : jsstring) (dependencies : list jsstring)
    (allTasks : list Task) (st : CycleState) : Prop :=
  forall b, finished st b ->
    (forall w, depEdge taskId dependencies allTasks b w -> finished st w) /\
    ~ tc (depEdge taskId dependencies allTasks) b b.

(** *** The loops of [buildTaskDependencyGraph] without inheritance

    The three functions below are the second loop, [calculateLevel] and
    the third loop as they run when no lookup ever reaches an inherited
    property: a key is then a node or absent. The properties of the real
    functions are proved through them. *)

Definition invertEdges (tasks : list Task) (graph : TaskDependencyGraph)
  : TaskDependencyGraph :=
  fold_left (fun graph task =>
    fold_left (fun graph depId => alter (pushDependent (task_id task)) depId graph)
              (depsOrEmpty (task_dependencies task)) graph)
    tasks graph.

Fixpoint ownLevelLoop (rec : jsstring -> gset jsstring -> option nat)
    (graph : TaskDependencyGraph) (visited : gset jsstring)
    (deps : list jsstring) (maxLevel : nat) : option nat :=
  match deps with
  | [] => Some maxLevel
  | depId :: rest =>
      match graph !! depId with
      | Some _ =>
          match rec depId visited with
          | None => None
          | Some depLevel =>
              ownLevelLoop rec graph visited rest (Nat.max maxLevel (depLevel + 1))
          end
      | None => ownLevelLoop rec graph visited rest maxLevel
      end
  end.

Fixpoint ownLevel (fuel : nat) (graph : TaskDependencyGraph)
    (taskId : jsstring) (visited : gset jsstring) : option nat :=
  match fuel with
  | 0 => None
  | S fuel' =>
      if decide (taskId ∈ visited) then Some 0
      else
        let visited' := {[taskId]} ∪ visited in
        match graph !! taskId with
        | None => Some 0
        | Some node =>
            match node_dependencies node with
            | [] => Some 0
            | deps => ownLevelLoop (ownLevel fuel' graph) graph visited' deps 0
            end
        end
  end.

Fixpoint assignOwnLevels (fuel : nat) (keys : list jsstring)
    (graph : TaskDependencyGraph) : option TaskDependencyGraph :=
  match keys with
  | [] => Some graph
  | taskId :: rest =>
      match ownLevel fuel graph taskId ∅ with
      | None => None
      | Some l => assignOwnLevels fuel rest (alter (setLevel l) taskId graph)
      end
  end.

Definition buildOwnGraph (tasks : list Task) : option TaskDependencyGraph :=
  let graph := invertEdges tasks (initGraph tasks) in
  assignOwnLevels (levelFuel graph) (ownKeys graph) graph.

(** [graph[key]] is an inherited value, no node and not [undefined]. *)
Definition inherits (graph : TaskDependencyGraph) (key : jsstring) : bool :=
  match getProperty graph key with
  | PTask _ | PObject => true
  | PNode _ | PUndefined => false
  end.

(** No dependency list of the graph names an inherited property. *)
Definition plainGraph (graph : TaskDependencyGraph) : Prop :=
  forall k node depId,
    graph !! k = Some node -> In depId (node_dependencies node) ->
    inherits graph depId = false.

(** The same, told from the tasks: [name] is the id of no task, and it
    is a property of [Object.prototype], or a field of the node that a
    task called [__proto__] makes the prototype of the graph. *)
Definition inheritedName (tasks : list Task) (name : jsstring) : Prop :=
  ~ In name (List.map task_id tasks) /\
  (In name objectPrototypeNames \/
   (In protoKey (List.map task_id tasks) /\
    In name [js "task"; js "dependencies"; js "dependents"])).

(** No dependency of any task names an inherited property. *)
Definition plainDependencies (tasks : list Task) : Prop :=
  forall task depId,
    In task tasks -> In depId (depsOrEmpty (task_dependencies task)) ->
    ~ inheritedName tasks depId.

(** The task the graph keeps for an id: the last one of the collection
    with that id. *)
Definition keptTask (tasks : list Task) (k : jsstring) : option Task :=
  findTask k (rev tasks).

(** An edge of the collection: the task kept for [from] lists [to] among
    its dependencies, and [to] is the id of a task (a dependency on an id
    that no task has is skipped). *)
Definition taskEdge (tasks : list Task) (from to : jsstring) : Prop :=
  exists task,
    keptTask tasks from = Some task /\
    In to (depsOrEmpty (task_dependencies task)) /\
    is_Some (keptTask tasks to).

(** The level stored under a key; 0 when the key is absent. *)
Definition levelAt (graph : TaskDependencyGraph) (k : jsstring) : nat :=
  default 0 (node_level <$> graph !! k).

(** A task called [__proto__], and a task that depends on the id
    [dependents], which no task has. *)
Definition protoTasks : list Task :=
  [ exampleTask "__proto__" TODO MEDIUM [] 0;
    exampleTask "x" TODO MEDIUM [js "dependents"] 0 ].

(** Two tasks that depend on each other. *)
Definition cyclicPair : list Task :=
  [ exampleTask "p" TODO MEDIUM [js "q"] 0;
    exampleTask "q" TODO MEDIUM [js "p"] 0 ].

(** A task that depends on an id no task has, [constructor]. *)
Definition constructorTasks : list Task :=
  [ exampleTask "a" TODO MEDIUM [js "constructor"] 0;
    exampleTask "b" TODO MEDIUM [] 0 ].

(** An edge of the analysed graph: [from] is a key whose dependency list
    contains [to], and [to] is a key as well (a dependency on an id that
    is no key is skipped by [calculateLevel]). *)
Definition graphEdge (graph : TaskDependencyGraph) (from to : jsstring) : Prop :=
  exists node,
    graph !! from = Some node /\ In to (node_dependencies node) /\
    is_Some (graph !! to).

Definition acyclicGraph (graph : TaskDependencyGraph) : Prop :=
  forall node, ~ tc (graphEdge graph) node node.

(** An acyclic task collection: the graph of its tasks has no cycle. *)
Definition acyclicTasks (tasks : list Task) : Prop :=
  acyclicGraph (initGraph tasks).

(** The dependency lists of a graph, without tasks, dependents, levels. *)
Definition shape (graph : TaskDependencyGraph) : gmap jsstring (list jsstring) :=
  node_dependencies <$> graph.

(** The level [ownLevel] computes from an empty visited set. *)
Definition levelOf (graph : TaskDependencyGraph) (taskId : jsstring) : nat :=
  default 0 (ownLevel (levelFuel graph) graph taskId ∅).

Definition chainTask (name : string) (deps : list jsstring) : Task :=
  exampleTask name TODO MEDIUM deps 0.

(** A diamond over a base task: [c] depends on [a] and [b], [b] on [a]. *)
Definition diamond : list Task :=
  [ chainTask "a" []; chainTask "b" [js "a"]; chainTask "c" [js "a"; js "b"] ].

(** A JSON string literal: the text between double quotes. *)
Definition quoted (s : string) : jsstring := [34%N] ++ js s ++ [34%N].

(** A payload shaped like the repository's mock of a successful
    response: an array of two objects, the first with a title, the
    priority high and 2 estimated hours, the second with a title and 60
    estimated hours. *)
Definition mockPayload : jsstring :=
  js "[{" ++ quoted "title" ++ js ":" ++ quoted "Setup Project Structure" ++ js ","
  ++ quoted "priority" ++ js ":" ++ quoted "high" ++ js ","
  ++ quoted "estimatedHours" ++ js ":2},{"
  ++ quoted "title" ++ js ":" ++ quoted "Add Unit Tests" ++ js ","
  ++ quoted "estimatedHours" ++ js ":60}]".

(** * More of the code *)

(** ** [sanitizeInput] (task-utils.ts, lines 321-326) *)

(** Drop every [<] (60) and [>] (62), drop every single quote (39) and
    double quote (34), [trim()]. *)
Definition sanitizeInput (input : jsstring) : jsstring :=
  trim
    (List.filter (fun c => negb (N.eqb c 39 || N.eqb c 34))
       (List.filter (fun c => negb (N.eqb c 60 || N.eqb c 62)) input)).

(** ** [validatePRPContent] (PRPParser, lines 174-209) *)

Definition contentKeywords : list jsstring :=
  [js "implement"; js "create"; js "build"; js "code"; js "function";
   js "class"; js "component"; js "api"; js "test"; js "validate"].

Definition emptyContentError : jsstring := js "PRP content cannot be empty".
Definition tooShortError : jsstring := js "PRP content is too short to be meaningful".
Definition tooLongError : jsstring :=
  js "PRP content exceeds maximum length of 50,000 characters".
Definition noContextError : jsstring :=
  js "PRP content should contain implementation instructions, code patterns, or technical specifications".

Section ValidateContent.
(** The platform's [String.prototype.toLowerCase]. *)
Variable toLowerCase : jsstring -> jsstring.

Definition hasImplementationContext (content : jsstring) : bool :=
  existsb (includes (toLowerCase content)) contentKeywords.

Definition validatePRPContent (content : jsstring) : ValidationResult :=
  let errs :=
    (if bool_decide (trim content = []) then [emptyContentError] else []) ++
    (if length content <? 50 then [tooShortError] else []) ++
    (if 50000 <? length content then [tooLongError] else []) ++
    (if hasImplementationContext content then [] else [noContextError]) in
  {| isValid := bool_decide (errs = []); errors := errs |}.
End ValidateContent.

(** ** [dbTaskToTask] (database/schema.ts, lines 205-232) *)

(** A row of the [tasks] table, with the columns the utilities read.
    [null] and [undefined] are both [None]. *)
Record DbTask := {
  db_id : jsstring;
  db_project_id : jsstring;
  db_title : jsstring;
  db_status : TaskStatus;
  db_priority : TaskPriority;
  db_dependencies : option (list jsstring);
  db_estimated_hours : hoursField;
  db_actual_hours : hoursField;
  db_created_at : Z;
  db_completed_at : option Z
}.

Section Conversion.
Variable parseFloat : jsstring -> number.

Definition convertToNumber (value : hoursField) : hoursField :=
  match value with
  | HUndefined | HNull => HUndefined
  | HString s => let num := parseFloat s in
                 if Number_isNaN num then HUndefined else HNumber num
  | HNumber x => HNumber x
  end.

Definition dbTaskToTask (dbTask : DbTask) : Task :=
  {| task_id := db_id dbTask;
     task_projectId := db_project_id dbTask;
     task_title := db_title dbTask;
     task_status := db_status dbTask;
     task_priority := db_priority dbTask;
     task_dependencies := db_dependencies dbTask;
     task_estimatedHours := convertToNumber (db_estimated_hours dbTask);
     task_actualHours := convertToNumber (db_actual_hours dbTask);
     task_createdAt := db_created_at dbTask;
     task_completedAt := db_completed_at dbTask |}.
End Conversion.

(** ** The configuration of the [parse-prp] tool (lines 86-92 of the
    tool's handler) *)

(** [maxTasks || 10] and [generateMilestones || false]; the other fields
    are fixed. *)
Definition toolConfig (requestedMax : Z) (generateMilestones : bool)
  : TaskGenerationConfig :=
  {| maxTasks := if (requestedMax =? 0)%Z then 10%Z else requestedMax;
     includeMilestones := generateMilestones || false;
     defaultPriority := MEDIUM;
     estimateHours := true;
     generateDependencies := false |}.

(** The lines the fallback turns into tasks, in order. *)
Definition keywordLines (prpContent : jsstring) : list jsstring :=
  List.filter hasKeyword (split 10 prpContent).

(** A draw of [Math.random]: a number in [[0, 1)]. *)
Definition unitDraws (rand : nat -> Q) : Prop :=
  forall k, (0 <= rand k)%Q /\ (rand k < 1)%Q.

(** When the callback of [map] throws on an element: the element is
    [null], or its [title] is present, not [null] and not a string. *)
Definition unusableElement (task : json) : Prop :=
  task = JNull \/
  exists members v,
    task = JObject members /\
    snd <$> List.find (fun m => jseqb (fst m) (js "title")) (rev members) = Some v /\
    v <> JNull /\ forall s, v <> JString s.

(** The dependency graph as stored: every task's edges are its own
    [dependencies] field. *)
Definition storedEdge (allTasks : list Task) (from to : jsstring) : Prop :=
  In to (match findTask from allTasks with
         | Some task => depsOrEmpty (task_dependencies task)
         | None => []
         end).

(** A node with more ids pushed on its [dependents]. *)
Definition appendDependents (more : list jsstring) (n : GraphNode) : GraphNode :=
  {| node_task := node_task n;
     node_dependencies := node_dependencies n;
     node_dependents := node_dependents n ++ more;
     node_level := node_level n |}.

(** The ids the second loop pushes on the node of [depId]: the id of
    each task, once for every occurrence of [depId] in its dependencies,
    in the order of the tasks. *)
Definition pushedOn (depId : jsstring) (tasks : list Task) : list jsstring :=
  flat_map (fun task =>
    List.map (fun _ => task_id task)
      (List.filter (fun x => jseqb x depId) (depsOrEmpty (task_dependencies task))))
    tasks.

(** An array as the service may send it: a task with every optional
    field, and an element without any field. *)
Definition sampleItems : list json :=
  [ JObject [ (js "title", JString (js "Set up the database"));
              (js "priority", JString (js "critical"));
              (js "estimatedHours", JNumber 100);
              (js "dependencies",
               JArray [JString (js "task-index-1"); JString (js "later"); JNumber 3]) ];
    JObject [] ].

Definition sampleArray : json := JArray sampleItems.

Definition fullConfig : TaskGenerationConfig :=
  {| maxTasks := 5;
     includeMilestones := false;
     defaultPriority := LOW;
     estimateHours := true;
     generateDependencies := true |}.

(** * Properties *)

(** ** Strings *)

Section TrimFacts.
Implicit Types (s t : jsstring) (c : N).

Lemma trimStart_head s :
  match trimStart s with
  | [] => True
  | c :: _ => isTrimSpace c = false
  end.
Proof.
  induction s as [|c s IH]; simpl; [done|].
  destruct (isTrimSpace c) eqn:E; [exact IH | exact E].
Qed.

Lemma trimStart_fixed c s : isTrimSpace c = false -> trimStart (c :: s) = c :: s.
Proof. intros E. simpl. by rewrite E. Qed.

Lemma trimStart_idem s : trimStart (trimStart s) = trimStart s.
Proof.
  pose proof (trimStart_head s) as H.
  destruct (trimStart s) as [|c t]; [done|]. by apply trimStart_fixed.
Qed.

Lemma trimStart_app_solid s c t :
  isTrimSpace c = false -> trimStart (s ++ c :: t) = trimStart s ++ c :: t.
Proof.
  intros E. induction s as [|d s IH]; simpl.
  - by rewrite E.
  - destruct (isTrimSpace d); [exact IH | done].
Qed.

Lemma trimEnd_cons_solid c s :
  isTrimSpace c = false -> trimEnd (c :: s) = c :: trimEnd s.
Proof.
  intros E. unfold trimEnd. simpl.
  rewrite (trimStart_app_solid (rev s) c [] E).
  by rewrite rev_app_distr.
Qed.

Lemma trimEnd_idem s : trimEnd (trimEnd s) = trimEnd s.
Proof. unfold trimEnd. by rewrite rev_involutive, trimStart_idem. Qed.

Lemma trim_idem s : trim (trim s) = trim s.
Proof.
  unfold trim. pose proof (trimStart_head s) as H.
  destruct (trimStart s) as [|c t].
  - reflexivity.
  - rewrite (trimEnd_cons_solid c t H), (trimStart_fixed c _ H).
    rewrite <- (trimEnd_cons_solid c t H). apply trimEnd_idem.
Qed.

Lemma trimStart_incl s c : In c (trimStart s) -> In c s.
Proof.
  induction s as [|d s IH]; simpl; [done|].
  destruct (isTrimSpace d); [auto | done].
Qed.

Lemma trim_incl s c : In c (trim s) -> In c s.
Proof.
  unfold trim, trimEnd. intros H.
  apply trimStart_incl. apply in_rev in H. apply trimStart_incl in H.
  by apply in_rev in H.
Qed.

Lemma trimStart_nil s : trimStart s = [] -> forallb isTrimSpace s = true.
Proof.
  induction s as [|d s IH]; simpl; [done|].
  destruct (isTrimSpace d); [exact IH | done].
Qed.

Lemma trim_nil s : trim s = [] -> forallb isTrimSpace s = true.
Proof.
  unfold trim, trimEnd. intros H.
  assert (trimStart (rev (trimStart s)) = []) as H1.
  { rewrite <- (rev_involutive (trimStart _)). by rewrite H. }
  pose proof (trimStart_head s) as Hh.
  destruct (trimStart s) as [|c t] eqn:E; [by apply trimStart_nil|].
  simpl in H1. rewrite (trimStart_app_solid (rev t) c [] Hh) in H1.
  by destruct (trimStart (rev t)).
Qed.

Lemma startsWith_head c needle s : startsWith (c :: needle) s = true -> In c s.
Proof.
  destruct s as [|d s]; simpl; [done|].
  intros [H _]%andb_prop. apply N.eqb_eq in H. by left.
Qed.

Lemma includes_head c needle s : includes s (c :: needle) = true -> In c s.
Proof.
  induction s as [|d s IH].
  - done.
  - intros H. cbn [includes] in H. apply orb_prop in H as [H|H].
    + by apply startsWith_head in H.
    + right. by apply IH.
Qed.
End TrimFacts.

(** ** [sanitizePRPContent] *)

Lemma sanitize_units content c :
  In c (sanitizePRPContent content) -> sanitizedUnit c.
Proof.
  unfold sanitizePRPContent. intros H%trim_incl.
  apply in_map_iff in H as (d & <- & Hd).
  apply filter_In in Hd as [_ Hd]. apply negb_true_iff, orb_false_iff in Hd as [H1 H2].
  apply N.eqb_neq in H1, H2. unfold sanitizedUnit.
  destruct (N.eqb d 39 || N.eqb d 34) eqn:E; [repeat split; discriminate|].
  apply orb_false_iff in E as [E _]. apply N.eqb_neq in E. done.
Qed.

Lemma replacements_fixed s :
  (forall c, In c s -> sanitizedUnit c) ->
  List.map (fun c => if N.eqb c 39 || N.eqb c 34 then 34%N else c)
    (List.filter (fun c => negb (N.eqb c 60 || N.eqb c 62)) s) = s.
Proof.
  induction s as [|c s IH]; intros H; [done|].
  destruct (H c) as (H1 & H2 & H3); [by left|].
  apply N.eqb_neq in H1, H2, H3.
  cbn [List.filter]. rewrite H1, H2. cbn [orb negb List.map]. rewrite H3.
  rewrite IH by (intros d Hd; apply H; by right).
  destruct (N.eqb c 34) eqn:E; [|done]. apply N.eqb_eq in E. by subst.
Qed.

(** The unit tests of [sanitizePRPContent]: trimming, and quotes. *)
Example sanitize_trims :
  sanitizePRPContent (js "   Implement authentication   ")
  = js "Implement authentication".
Proof. reflexivity. Qed.

Example sanitize_normalizes_quotes :
  sanitizePRPContent (js "Use 'single quotes' and " ++ quoted "smart quotes")
  = js "Use " ++ quoted "single quotes" ++ js " and " ++ quoted "smart quotes".
Proof. reflexivity. Qed.

Example sanitize_keeps_tag_names :
  sanitizePRPContent (js "<div>with validation</div>") = js "divwith validation/div".
Proof. reflexivity. Qed.

(** C9. Sanitising twice is the same as sanitising once: after one pass
    no [<], [>] or single quote is left, every quote is a double quote,
    and the text is trimmed. *)
Theorem sanitize_idempotent (x : jsstring) :
  sanitizePRPContent (sanitizePRPContent x) = sanitizePRPContent x /\
  (forall c, In c (sanitizePRPContent x) -> sanitizedUnit c) /\
  trim (sanitizePRPContent x) = sanitizePRPContent x.
Proof.
  split; [|split].
  - unfold sanitizePRPContent at 1.
    rewrite replacements_fixed by apply sanitize_units.
    unfold sanitizePRPContent. apply trim_idem.
  - apply sanitize_units.
  - unfold sanitizePRPContent. apply trim_idem.
Qed.

(** ** The keyword fallback, [parsePreviewPRP] *)

Section Preview.
Variable config : TaskGenerationConfig.

Lemma previewLoop_bound rand lines tasks :
  (Z.of_nat (length tasks) < maxTasks config)%Z \/ tasks = [] ->
  (Z.of_nat (length (previewLoop config rand lines tasks))
     <= Z.max 1 (maxTasks config))%Z.
Proof.
  revert tasks. induction lines as [|line rest IH]; intros tasks H; simpl.
  - destruct H as [H| ->]; simpl; lia.
  - destruct (hasKeyword line); [|by apply IH].
    rewrite length_app. simpl.
    destruct (Z.leb_spec (maxTasks config) (Z.of_nat (length tasks + 1))) as [Hle|Hlt].
    + rewrite length_app. simpl. destruct H as [H| ->]; simpl; lia.
    + apply IH. left. rewrite length_app. simpl. lia.
Qed.

Lemma previewLoop_grows rand lines tasks :
  length tasks <= length (previewLoop config rand lines tasks).
Proof.
  revert tasks. induction lines as [|line rest IH]; intros tasks; simpl; [lia|].
  destruct (hasKeyword line); [|by apply IH].
  destruct (Z.leb_spec (maxTasks config)
              (Z.of_nat (length (tasks ++ [previewTask config (rand (length tasks)) line])))).
  - rewrite length_app. simpl. lia.
  - etrans; [|apply IH]. rewrite length_app. simpl. lia.
Qed.

Lemma previewLoop_nonempty rand lines tasks :
  existsb hasKeyword lines = true ->
  previewLoop config rand lines tasks <> [].
Proof.
  revert tasks. induction lines as [|line rest IH]; intros tasks H; [done|].
  simpl in *. destruct (hasKeyword line) eqn:E; [|by apply IH].
  intros Hnil.
  match type of Hnil with
  | (if ?c then _ else _) = _ => destruct c
  end.
  - by destruct tasks.
  - pose proof (previewLoop_grows rand rest
                  (tasks ++ [previewTask config (rand (length tasks)) line])) as Hg.
    rewrite Hnil, length_app in Hg. simpl in Hg. lia.
Qed.

Lemma previewTask_sameButHours r1 r2 line :
  sameButHours (previewTask config r1 line) (previewTask config r2 line).
Proof. by repeat split. Qed.

Lemma previewLoop_sameButHours rand1 rand2 lines tasks1 tasks2 :
  Forall2 sameButHours tasks1 tasks2 ->
  Forall2 sameButHours (previewLoop config rand1 lines tasks1)
                       (previewLoop config rand2 lines tasks2).
Proof.
  revert tasks1 tasks2.
  induction lines as [|line rest IH]; intros tasks1 tasks2 H; simpl; [done|].
  destruct (hasKeyword line); [|by apply IH].
  rewrite !length_app, (Forall2_length _ _ _ H). simpl.
  assert (Forall2 sameButHours
            (tasks1 ++ [previewTask config (rand1 (length tasks2)) line])
            (tasks2 ++ [previewTask config (rand2 (length tasks2)) line])) as H'.
  { apply Forall2_app; [done|]. constructor; [|constructor].
    apply previewTask_sameButHours. }
  destruct (maxTasks config <=? Z.of_nat (length tasks2 + 1))%Z; [done|by apply IH].
Qed.

Lemma previewLoop_no_estimate rand1 rand2 lines tasks :
  estimateHours config = false ->
  previewLoop config rand1 lines tasks = previewLoop config rand2 lines tasks.
Proof.
  intros Hoff. revert tasks.
  induction lines as [|line rest IH]; intros tasks; simpl; [done|].
  destruct (hasKeyword line); [|by apply IH].
  assert (previewTask config (rand1 (length tasks)) line
          = previewTask config (rand2 (length tasks)) line) as ->.
  { unfold previewTask. by rewrite Hoff. }
  destruct (_ <=? _)%Z; [done|by apply IH].
Qed.

(** With draws in [[0, 1)], every estimate is one of 1, 2, ..., 8. *)
Lemma previewTask_hours random line q :
  (0 <= random)%Q -> (random < 1)%Q ->
  ai_estimatedHours (previewTask config random line) = Some q ->
  exists h : Z, q = inject_Z h /\ (1 <= h <= 8)%Z.
Proof.
  intros H0 H1. unfold previewTask. cbn [ai_estimatedHours].
  destruct (estimateHours config); [|done]. intros Heq.
  exists (Qfloor (random * 8) + 1)%Z. split; [congruence|].
  assert (0 <= Qfloor (random * 8))%Z.
  { change 0%Z with (Qfloor 0). apply Qfloor_resp_le.
    apply Qmult_le_0_compat; [done|]. done. }
  assert (Qfloor (random * 8) < 8)%Z.
  { apply Z.lt_nge. intros Hge.
    assert (inject_Z 8 <= random * 8)%Q as Hq.
    { apply Qle_trans with (inject_Z (Qfloor (random * 8))); [|apply Qfloor_le].
      by rewrite <- Zle_Qle. }
    assert (random * 8 < 1 * 8)%Q as Hlt by (apply Qmult_lt_compat_r; done).
    apply (Qlt_not_le _ _ Hlt). exact Hq. }
  lia.
Qed.
End Preview.

Lemma keyword_line_survives line :
  hasKeyword line = true -> negb (bool_decide (trim line = [])) = true.
Proof.
  intros H. apply negb_true_iff, bool_decide_eq_false. intros Hnil%trim_nil.
  unfold hasKeyword in H. apply existsb_exists in H as (kw & Hkw & Hin).
  rewrite forallb_forall in Hnil.
  unfold fallbackKeywords in Hkw. simpl in Hkw.
  repeat (destruct Hkw as [<-|Hkw];
          [apply includes_head, Hnil in Hin; vm_compute in Hin; discriminate|]).
  done.
Qed.

Lemma fallback_nonempty rand prpContent projectContext config :
  existsb hasKeyword (split 10 prpContent) = true ->
  parsePreviewPRP rand prpContent projectContext config <> [].
Proof.
  intros H. unfold parsePreviewPRP. apply previewLoop_nonempty.
  apply existsb_exists in H as (line & Hin & Hkw).
  apply existsb_exists. exists line. split; [|done].
  apply filter_In. split; [done|]. by apply keyword_line_survives.
Qed.

(** ** [JSON.parse] *)

Ltac suffix_step :=
  first [ assumption | reflexivity | apply suffix_cons_r; suffix_step ].

Section ParserFacts.
Implicit Types (s rest : jsstring).

Lemma skipWs_suffix s : skipWs s `suffix_of` s.
Proof.
  induction s as [|c s IH]; simpl; [done|].
  destruct (isJsonSpace c); [by apply suffix_cons_r | done].
Qed.

Lemma skipWs_cons_suffix s c r : skipWs s = c :: r -> r `suffix_of` s.
Proof.
  intros H. apply suffix_cons_l with c. rewrite <- H. apply skipWs_suffix.
Qed.

Lemma skipWs_cons_length s c r : skipWs s = c :: r -> length r < length s.
Proof.
  intros H. pose proof (suffix_length _ _ (skipWs_suffix s)) as Hl.
  rewrite H in Hl. simpl in Hl. lia.
Qed.

Lemma skipWs_head s c r : skipWs s = c :: r -> isJsonSpace c = false.
Proof.
  induction s as [|d s IH]; simpl; [done|].
  destruct (isJsonSpace d) eqn:E; [done|]. by intros [= <- _].
Qed.

Lemma skipWs_spaces_app s t : skipWs s = [] -> skipWs (s ++ t) = skipWs t.
Proof.
  induction s as [|d s IH]; simpl; [done|].
  destruct (isJsonSpace d); [exact IH | done].
Qed.

Lemma skipWs_nil_rev s : skipWs s = [] -> skipWs (rev s) = [].
Proof.
  induction s as [|d s IH]; simpl; [done|].
  destruct (isJsonSpace d) eqn:E; [|done].
  intros H. rewrite skipWs_spaces_app by auto. simpl. by rewrite E.
Qed.

Lemma parseStringBody_suffix s str rest :
  parseStringBody s = Some (str, rest) -> rest `suffix_of` s.
Proof.
  revert str rest.
  induction s as [s IH] using (induction_ltof1 _ (@length N)).
  unfold ltof in IH. intros str rest.
  destruct s as [|c s]; [done|]. cbn [parseStringBody].
  repeat case_match; try done; intros [= <- <-]; subst;
    repeat apply suffix_cons_r; try done;
    match goal with
    | H : parseStringBody ?t = Some (_, ?r) |- ?r `suffix_of` ?t =>
        apply (IH t) in H; [exact H | simpl; lia]
    end.
Qed.

Lemma takeDigits_suffix s value count v n rest :
  takeDigits s value count = (v, n, rest) -> rest `suffix_of` s.
Proof.
  revert value count. induction s as [|c s IH]; intros value count; simpl.
  - by intros [= _ _ <-].
  - destruct (isDigit c).
    + intros H. apply suffix_cons_r. by eapply IH.
    + by intros [= _ _ <-].
Qed.

Lemma parseFraction_suffix s q rest :
  parseFraction s = Some (q, rest) -> rest `suffix_of` s.
Proof.
  unfold parseFraction. destruct s as [|c s]; [by intros [= _ <-]|].
  destruct (N.eqb c 46); [|by intros [= _ <-]].
  destruct (takeDigits s 0 0) as [[f n] r] eqn:E.
  destruct n; [done|]. intros [= _ <-].
  apply suffix_cons_r. by eapply takeDigits_suffix.
Qed.

Lemma parseExponent_suffix s e rest :
  parseExponent s = Some (e, rest) -> rest `suffix_of` s.
Proof.
  unfold parseExponent. intros H.
  repeat (case_match; simplify_eq); try done;
    repeat match goal with
    | H : takeDigits _ _ _ = _ |- _ => apply takeDigits_suffix in H
    end;
    suffix_step.
Qed.

Lemma parseNumber_suffix s q rest :
  parseNumber s = Some (q, rest) -> rest `suffix_of` s.
Proof.
  unfold parseNumber. intros H.
  repeat (case_match; simplify_eq);
    repeat match goal with
    | H : takeDigits _ _ _ = _ |- _ => apply takeDigits_suffix in H
    | H : parseFraction _ = _ |- _ => apply parseFraction_suffix in H
    | H : parseExponent _ = _ |- _ => apply parseExponent_suffix in H
    end;
    (etrans; [eassumption|]); (etrans; [eassumption|]); suffix_step.
Qed.

Lemma expectWord_suffix {A} word (v a : A) s rest :
  expectWord word v s = POk a rest -> rest `suffix_of` s /\ a = v.
Proof.
  unfold expectWord. destruct (startsWith word s); [|done].
  intros [= <- <-]. split; [apply suffix_drop | done].
Qed.
End ParserFacts.

Lemma closedBy_suffix c rest t s :
  closedBy c rest t -> t `suffix_of` s -> closedBy c rest s.
Proof.
  intros [pre ->] [k ->]. exists (k ++ pre). by rewrite <- app_assoc.
Qed.

Lemma closedBy_is_suffix c rest s : closedBy c rest s -> rest `suffix_of` s.
Proof. intros [pre ->]. apply suffix_app_r. by apply suffix_cons_r. Qed.

Lemma closedBy_skipWs c r t : skipWs t = c :: r -> closedBy c r t.
Proof.
  intros H. destruct (skipWs_suffix t) as [k Hk]. exists k. by rewrite <- H.
Qed.

Lemma suffix_chain (a b c : jsstring) :
  a `suffix_of` b -> b `suffix_of` c -> a `suffix_of` c.
Proof. intros. by etrans. Qed.

Ltac parser_facts :=
  repeat match goal with
  | H : skipWs _ = _ :: _ |- _ =>
      pose proof (skipWs_cons_suffix _ _ _ H);
      pose proof (closedBy_skipWs _ _ _ H);
      pose proof (skipWs_cons_length _ _ _ H); revert H
  | H : parseStringBody _ = Some _ |- _ => apply parseStringBody_suffix in H
  | H : parseNumber _ = Some _ |- _ => apply parseNumber_suffix in H
  | H : expectWord _ _ _ = POk _ _ |- _ => apply expectWord_suffix in H as [H ->]
  end; intros.

Lemma parse_shape fuel :
  (forall s v rest, parseValue fuel s = POk v rest -> rest `suffix_of` s) /\
  (forall s items rest, parseElements fuel s = POk items rest -> closedBy 93 rest s) /\
  (forall s members rest, parseMembers fuel s = POk members rest -> rest `suffix_of` s).
Proof.
  induction fuel as [|fuel (IHv & IHe & IHm)]; [by repeat split|].
  repeat split.
  - intros s v rest. cbn [parseValue]. intros H.
    repeat (case_match; simplify_eq); parser_facts;
      repeat match goal with
      | H : parseElements fuel _ = POk _ _ |- _ => apply IHe, closedBy_is_suffix in H
      | H : parseMembers fuel _ = POk _ _ |- _ => apply IHm in H
      end;
      eauto 6 using suffix_chain, suffix_cons_r.
  - intros s items rest. cbn [parseElements]. intros H.
    repeat (case_match; simplify_eq); parser_facts;
      repeat match goal with
      | H : parseValue fuel _ = POk _ _ |- _ => apply IHv in H
      | H : parseElements fuel _ = POk _ _ |- _ => apply IHe in H
      end.
    + eapply closedBy_suffix; [eassumption|]. eauto using suffix_chain.
    + match goal with
      | H : (?c =? 93)%N = true |- _ => apply N.eqb_eq in H; subst c
      end.
      eapply closedBy_suffix; eassumption.
  - intros s members rest. cbn [parseMembers]. intros H.
    repeat (case_match; simplify_eq); parser_facts;
      repeat match goal with
      | H : parseValue fuel _ = POk _ _ |- _ => apply IHv in H
      | H : parseMembers fuel _ = POk _ _ |- _ => apply IHm in H
      end;
      eauto 10 using suffix_chain, suffix_cons_r.
Qed.

Lemma parseValue_suffix fuel s v rest :
  parseValue fuel s = POk v rest -> rest `suffix_of` s.
Proof. apply parse_shape. Qed.

(** An array is read from a text that, white space apart, opens with a
    left bracket, and what is consumed ends with the right bracket. *)
Lemma parseValue_array fuel s items rest :
  parseValue fuel s = POk (JArray items) rest ->
  (exists r, skipWs s = 91%N :: r) /\ closedBy 93 rest s.
Proof.
  destruct fuel as [|fuel]; [done|]. cbn [parseValue]. unfold expectWord. intros H.
  repeat (case_match; simplify_eq); parser_facts;
    repeat match goal with
    | H : (?c =? ?k)%N = true |- _ => apply N.eqb_eq in H; subst c
    | H : parseElements fuel _ = POk _ _ |- _ => apply parse_shape in H
    end;
    (split; [by eexists | eapply closedBy_suffix; eassumption]).
Qed.

(** The fuel [JSON_parse] supplies is never used up: the parser stops
    for a syntactic reason only. *)
Lemma parse_fuel fuel :
  (forall s, 2 * length s < fuel -> parseValue fuel s <> POutOfFuel) /\
  (forall s, 2 * length s + 1 < fuel -> parseElements fuel s <> POutOfFuel) /\
  (forall s, 2 * length s + 1 < fuel -> parseMembers fuel s <> POutOfFuel).
Proof.
  induction fuel as [|fuel (IHv & IHe & IHm)]; [repeat split; intros; lia|].
  repeat split.
  - intros s Hs. cbn [parseValue]. unfold expectWord.
    repeat (case_match; simplify_eq); parser_facts; try done;
      match goal with
      | H : parseElements fuel ?r = POutOfFuel |- _ => intros _; apply (IHe r); [|done]
      | H : parseMembers fuel ?r = POutOfFuel |- _ => intros _; apply (IHm r); [|done]
      end; simpl in *; lia.
  - intros s Hs. cbn [parseElements].
    repeat (case_match; simplify_eq); parser_facts; try done;
      repeat match goal with
      | H : parseValue fuel _ = POk _ _ |- _ =>
          apply parseValue_suffix, suffix_length in H
      end;
      match goal with
      | H : parseElements fuel ?r = POutOfFuel |- _ => intros _; apply (IHe r); [|done]
      | H : parseValue fuel ?r = POutOfFuel |- _ => intros _; apply (IHv r); [|done]
      end; simpl in *; lia.
  - intros s Hs. cbn [parseMembers].
    repeat (case_match; simplify_eq); parser_facts; try done;
      repeat match goal with
      | H : parseValue fuel _ = POk _ _ |- _ =>
          apply parseValue_suffix, suffix_length in H
      | H : _ `suffix_of` _ |- _ => apply suffix_length in H
      end;
      match goal with
      | H : parseMembers fuel ?r = POutOfFuel |- _ => intros _; apply (IHm r); [|done]
      | H : parseValue fuel ?r = POutOfFuel |- _ => intros _; apply (IHv r); [|done]
      end; simpl in *; lia.
Qed.

Lemma JSON_parse_fuel_enough text : parseValue (parseFuel text) text <> POutOfFuel.
Proof. apply parse_fuel. unfold parseFuel. lia. Qed.

(** [JSON.parse] yields an array only for a text whose first character
    after white space is the left bracket and whose last character
    before white space is the right bracket. *)
Lemma JSON_parse_array_brackets text items :
  JSON_parse text = Return (JArray items) ->
  (exists r, skipWs text = 91%N :: r) /\ (exists r, skipWs (rev text) = 93%N :: r).
Proof.
  unfold JSON_parse. destruct (parseValue _ text) as [v rest| |] eqn:E; [|done..].
  destruct (skipWs rest) eqn:Er; [|done]. intros [= ->].
  apply parseValue_array in E as [Hopen [pre ->]]. split; [done|].
  rewrite rev_app_distr. simpl. rewrite <- app_assoc. simpl.
  rewrite skipWs_spaces_app by by apply skipWs_nil_rev.
  simpl. eauto.
Qed.

(** ** [validateAndNormalizeTasks] and [generateTasksFromPRP] *)

Lemma mapiO_length {A B} (f : nat -> A -> outcome B) i l bs :
  mapiO f i l = Return bs -> length bs = length l.
Proof.
  revert i bs. induction l as [|a l IH]; intros i bs; simpl.
  - by intros [= <-].
  - destruct (f i a) as [b|e]; simpl; [|done].
    destruct (mapiO f (S i) l) as [bs'|e] eqn:E; simpl; [|done].
    intros [= <-]. simpl. f_equal. by eapply IH.
Qed.

Lemma slice0_length {A} (n : Z) (l : list A) :
  (0 <= n)%Z -> (Z.of_nat (length (slice0 n l)) <= n)%Z.
Proof.
  intros Hn. unfold slice0. destruct (Z.ltb_spec n 0); [lia|].
  rewrite length_take. lia.
Qed.

Lemma normalized_length aiTasks config tasks :
  validateAndNormalizeTasks aiTasks config = Return tasks ->
  (0 <= maxTasks config)%Z ->
  (Z.of_nat (length tasks) <= maxTasks config)%Z.
Proof.
  unfold validateAndNormalizeTasks. destruct aiTasks; try done.
  intros H%mapiO_length Hn. rewrite H. by apply slice0_length.
Qed.

Lemma requestTasks_length service config tasks :
  requestTasks service config = Return tasks ->
  (0 <= maxTasks config)%Z ->
  (Z.of_nat (length tasks) <= maxTasks config)%Z.
Proof.
  unfold requestTasks. destruct service as [e|content]; [done|].
  destruct (JSON_parse content) as [v|e]; simpl; [|done].
  apply normalized_length.
Qed.

(** The two ways out of [generateTasksFromPRP]. *)
Lemma generate_cases service rand prpContent projectContext config :
  (exists tasks,
      requestTasks service config = Return tasks /\
      generateTasksFromPRP service rand prpContent projectContext config
        = Return tasks) \/
  (exists e,
      requestTasks service config = Throw e /\
      generateTasksFromPRP service rand prpContent projectContext config
        = Return (parsePreviewPRP rand prpContent projectContext config)).
Proof.
  unfold generateTasksFromPRP.
  destruct (requestTasks service config) as [tasks|e]; simpl; eauto.
Qed.

Lemma fallback_length rand prpContent projectContext config :
  (Z.of_nat (length (parsePreviewPRP rand prpContent projectContext config))
     <= Z.max 1 (maxTasks config))%Z.
Proof. unfold parsePreviewPRP. apply previewLoop_bound. by right. Qed.

(** The payload must be a JSON text by itself for the array to be used. *)
Lemma requestTasks_needs_bare_array content config tasks :
  requestTasks (ServiceText content) config = Return tasks ->
  exists items,
    JSON_parse content = Return (JArray items) /\
    validateAndNormalizeTasks (JArray items) config = Return tasks.
Proof.
  unfold requestTasks. destruct (JSON_parse content) as [v|e]; simpl; [|done].
  destruct v; try done. eauto.
Qed.

(** A payload that is the array and nothing else is normalised: the title
    is kept, a missing description becomes the title, a missing priority
    the default, and the estimate is clamped to [[0.5, 40]]. *)
Example generate_uses_service_array :
  generateTasksFromPRP (ServiceText mockPayload) (fun _ => 0%Q)
    (js "implement login") JNull (configOf 5 true)
  = Return
      [ {| ai_title := js "Setup Project Structure";
           ai_description := JString (js "Setup Project Structure");
           ai_priority := HIGH;
           ai_estimatedHours := Some 2%Q;
           ai_dependencies := None |};
        {| ai_title := js "Add Unit Tests";
           ai_description := JString (js "Add Unit Tests");
           ai_priority := MEDIUM;
           ai_estimatedHours := Some 40%Q;
           ai_dependencies := None |} ].
Proof. vm_compute. reflexivity. Qed.

(** C1. With [maxTasks = 0] and a failing service the list has one
    element: the fallback pushes the task of the first keyword line
    before it looks at the limit. The service path keeps the limit,
    [slice(0, 0)] being empty. *)
Theorem generate_exceeds_zero_limit :
  (exists tasks,
     generateTasksFromPRP (ServiceFailed (js "fetch failed")) (fun _ => 0%Q)
       (js "implement login") JNull (configOf 0 false) = Return tasks /\
     length tasks = 1 /\
     (maxTasks (configOf 0 false) < Z.of_nat (length tasks))%Z) /\
  generateTasksFromPRP (ServiceText mockPayload) (fun _ => 0%Q)
    (js "implement login") JNull (configOf 0 false) = Return [].
Proof.
  split; [|vm_compute; reflexivity].
  eexists. split; [vm_compute; reflexivity|]. split; vm_compute; reflexivity.
Qed.

(** X23. [generateTasksFromPRP] always returns a list and never
    throws: whatever goes wrong in the [try] block ends in the keyword
    fallback. The list has at most [maxTasks] elements when [maxTasks] is
    at least 1; a list built from the service's array has at most
    [maxTasks] elements for every [maxTasks >= 0]; the fallback list has
    at most [max 1 maxTasks]. When the fallback runs and some line of the
    content contains a fallback keyword, the list is not empty. *)
Theorem generate_returns_bounded service rand prpContent projectContext config :
  exists tasks,
    generateTasksFromPRP service rand prpContent projectContext config
      = Return tasks /\
    ((1 <= maxTasks config)%Z ->
       (Z.of_nat (length tasks) <= maxTasks config)%Z) /\
    (forall fromService, requestTasks service config = Return fromService ->
       tasks = fromService /\
       ((0 <= maxTasks config)%Z ->
          (Z.of_nat (length tasks) <= maxTasks config)%Z)) /\
    (forall e, requestTasks service config = Throw e ->
       tasks = parsePreviewPRP rand prpContent projectContext config /\
       (Z.of_nat (length tasks) <= Z.max 1 (maxTasks config))%Z /\
       (existsb hasKeyword (split 10 prpContent) = true -> tasks <> [])).
Proof.
  destruct (generate_cases service rand prpContent projectContext config)
    as [(tasks & Hreq & Hgen) | (e & Hreq & Hgen)].
  - exists tasks. split; [done|]. split; [|split].
    + intros Hmax. apply (requestTasks_length _ _ _ Hreq). lia.
    + intros ts Hts. rewrite Hreq in Hts. injection Hts as <-.
      split; [done|]. by apply requestTasks_length with service.
    + intros e He. congruence.
  - eexists. split; [exact Hgen|]. split; [|split].
    + intros Hmax.
      pose proof (fallback_length rand prpContent projectContext config). lia.
    + intros ts Hts. congruence.
    + intros _ _. split; [done|]. split; [apply fallback_length|].
      apply fallback_nonempty.
Qed.

Lemma generate_returns_bounded_witness :
  exists tasks,
    generateTasksFromPRP (ServiceFailed (js "fetch failed")) (fun _ => 0%Q)
      (js "implement login") JNull (configOf 2 true) = Return tasks /\
    (Z.of_nat (length tasks) <= 2)%Z /\ tasks <> [].
Proof.
  destruct (generate_returns_bounded (ServiceFailed (js "fetch failed"))
              (fun _ => 0%Q) (js "implement login") JNull (configOf 2 true))
    as (tasks & Hgen & Hmax & _ & Hfall).
  exists tasks. split; [exact Hgen|]. split.
  - apply Hmax. vm_compute. discriminate.
  - destruct (Hfall (js "fetch failed")) as (_ & _ & Hne); [reflexivity|].
    apply Hne. vm_compute. reflexivity.
Defined.

(** C6, as the specification states it, fails when estimates are on: the
    hours come from [Math.random], and two runs that draw differently
    return different lists. *)
Lemma fallback_differs_with_estimates :
  generateTasksFromPRP (ServiceFailed (js "fetch failed")) (fun _ => 0%Q)
    (js "implement login") JNull (configOf 5 true)
  <> generateTasksFromPRP (ServiceFailed (js "fetch failed")) (fun _ => (1 # 2)%Q)
       (js "implement login") JNull (configOf 5 true).
Proof. vm_compute. discriminate. Qed.

(** C6 (amended). Two runs that both take the fallback path return lists
    of the same length whose tasks agree, position by position, on
    title, description and priority; with [estimateHours = false] the
    two lists are identical. With [estimateHours = true] the estimate of
    each task is whatever [Math.random] gave that run. *)
Theorem fallback_deterministic_but_hours
    service1 service2 rand1 rand2 prpContent projectContext config e1 e2 :
  requestTasks service1 config = Throw e1 ->
  requestTasks service2 config = Throw e2 ->
  exists tasks1 tasks2,
    generateTasksFromPRP service1 rand1 prpContent projectContext config
      = Return tasks1 /\
    generateTasksFromPRP service2 rand2 prpContent projectContext config
      = Return tasks2 /\
    Forall2 sameButHours tasks1 tasks2 /\
    (estimateHours config = false -> tasks1 = tasks2).
Proof.
  intros H1 H2. unfold generateTasksFromPRP. rewrite H1, H2. simpl.
  do 2 eexists. split; [reflexivity|]. split; [reflexivity|]. split.
  - unfold parsePreviewPRP. by apply previewLoop_sameButHours.
  - intros Hoff. unfold parsePreviewPRP. by apply previewLoop_no_estimate.
Qed.

Lemma fallback_deterministic_but_hours_witness :
  exists tasks1 tasks2,
    generateTasksFromPRP (ServiceFailed (js "fetch failed")) (fun _ => 0%Q)
      (js "implement login") JNull (configOf 5 false) = Return tasks1 /\
    generateTasksFromPRP (ServiceText (js "not json")) (fun _ => (1 # 2)%Q)
      (js "implement login") JNull (configOf 5 false) = Return tasks2 /\
    Forall2 sameButHours tasks1 tasks2 /\ tasks1 = tasks2.
Proof.
  destruct (fallback_deterministic_but_hours
              (ServiceFailed (js "fetch failed")) (ServiceText (js "not json"))
              (fun _ => 0%Q) (fun _ => (1 # 2)%Q) (js "implement login") JNull
              (configOf 5 false) (js "fetch failed") (js "SyntaxError"))
    as (tasks1 & tasks2 & H1 & H2 & Hsame & Heq);
    [vm_compute; reflexivity | vm_compute; reflexivity |].
  exists tasks1, tasks2. repeat split; try assumption.
  apply Heq. reflexivity.
Defined.

(** C7, as the specification states it, fails: the payload goes to
    [JSON.parse] whole. Prose around a well-formed array is a syntax
    error, and the result is the fallback list, not the normalised
    array. *)
Lemma prose_wrapped_array_falls_back :
  JSON_parse (js "[{}, {}]") = Return (JArray [JObject []; JObject []]) /\
  includes proseWrappedArray (js "[{}, {}]") = true /\
  generateTasksFromPRP (ServiceText proseWrappedArray) (fun _ => 0%Q)
    (js "implement login") JNull (configOf 5 false)
  = Return (parsePreviewPRP (fun _ => 0%Q) (js "implement login") JNull
              (configOf 5 false)) /\
  generateTasksFromPRP (ServiceText proseWrappedArray) (fun _ => 0%Q)
    (js "implement login") JNull (configOf 5 false)
  <> validateAndNormalizeTasks (JArray [JObject []; JObject []]) (configOf 5 false).
Proof.
  split; [vm_compute; reflexivity|]. split; [vm_compute; reflexivity|].
  split; [vm_compute; reflexivity|]. vm_compute. discriminate.
Qed.

(** C7 (amended). Step 4 hands the whole payload to [JSON.parse]. When
    the payload is a JSON array by itself (white space around it is
    allowed) and normalising its elements does not throw, the result is
    the normalised list. A payload whose first character after white
    space is not a left bracket, or whose last character before white
    space is not a right bracket, is never extracted from: the result is
    the fallback list. *)
Theorem payload_parsed_whole content rand prpContent projectContext config :
  (forall items tasks,
     JSON_parse content = Return (JArray items) ->
     validateAndNormalizeTasks (JArray items) config = Return tasks ->
     generateTasksFromPRP (ServiceText content) rand prpContent projectContext config
       = Return tasks) /\
  ((forall r, skipWs content <> 91%N :: r) \/
   (forall r, skipWs (rev content) <> 93%N :: r) ->
   generateTasksFromPRP (ServiceText content) rand prpContent projectContext config
     = Return (parsePreviewPRP rand prpContent projectContext config)).
Proof.
  split.
  - intros items tasks Hparse Hnorm.
    unfold generateTasksFromPRP, requestTasks. rewrite Hparse.
    unfold mbind, outcome_bind. by rewrite Hnorm.
  - intros Hprose.
    destruct (generate_cases (ServiceText content) rand prpContent projectContext config)
      as [(tasks & Hreq & _) | (e & _ & Hgen)]; [|exact Hgen].
    apply requestTasks_needs_bare_array in Hreq as (items & Hparse & _).
    apply JSON_parse_array_brackets in Hparse as [[r Hopen] [r' Hclose]].
    destruct Hprose as [H|H]; [by destruct (H r) | by destruct (H r')].
Qed.

Lemma payload_parsed_whole_witness :
  generateTasksFromPRP (ServiceText (js " [{}, {}] ")) (fun _ => 0%Q)
    (js "implement login") JNull (configOf 1 false)
  = Return [ {| ai_title := js "Generated Implementation Task 1";
                ai_description := JString (js "Implementation task 1");
                ai_priority := MEDIUM;
                ai_estimatedHours := None;
                ai_dependencies := None |} ] /\
  generateTasksFromPRP (ServiceText proseWrappedArray) (fun _ => 0%Q)
    (js "implement login") JNull (configOf 1 false)
  = Return (parsePreviewPRP (fun _ => 0%Q) (js "implement login") JNull
              (configOf 1 false)).
Proof.
  destruct (payload_parsed_whole (js " [{}, {}] ") (fun _ => 0%Q)
              (js "implement login") JNull (configOf 1 false)) as [Hok _].
  destruct (payload_parsed_whole proseWrappedArray (fun _ => 0%Q)
              (js "implement login") JNull (configOf 1 false)) as [_ Hfall].
  split.
  - apply (Hok [JObject []; JObject []]); vm_compute; reflexivity.
  - apply Hfall. left. intros r. vm_compute. discriminate.
Defined.

(** ** [findNextTask] *)

Section StableSort.
Context {A : Type} (cmp : A -> A -> Z).
Hypothesis cmp_trans :
  forall a b c, (cmp a b <= 0)%Z -> (cmp b c <= 0)%Z -> (cmp a c <= 0)%Z.
Hypothesis cmp_flip : forall a b, (0 < cmp a b)%Z -> (cmp b a <= 0)%Z.

Lemma insertSorted_length x l :
  length (insertSorted cmp x l) = S (length l).
Proof.
  induction l as [|y l IH]; simpl; [done|].
  destruct (cmp x y <=? 0)%Z; simpl; congruence.
Qed.

Lemma stableSort_length l : length (stableSort cmp l) = length l.
Proof.
  induction l as [|x l IH]; simpl; [done|].
  by rewrite insertSorted_length, IH.
Qed.

(** The first element of the sorted array is the first element of the
    input that no other element strictly precedes. *)
Lemma stableSort_head l first rest :
  stableSort cmp l = first :: rest ->
  exists before after,
    l = before ++ first :: after /\
    (forall x, In x before -> (0 < cmp x first)%Z) /\
    (forall x, In x after -> (cmp first x <= 0)%Z).
Proof.
  revert first rest. induction l as [|x l IH]; intros first rest; [done|].
  simpl. destruct (stableSort cmp l) as [|y ys] eqn:E.
  - pose proof (stableSort_length l) as Hl. rewrite E in Hl.
    destruct l; [|done]. simpl. intros [= <- <-].
    exists [], []. by repeat split.
  - destruct (IH y ys eq_refl) as (before & after & -> & Hb & Ha).
    simpl. destruct (Z.leb_spec (cmp x y) 0) as [Hle|Hgt].
    + intros [= <- <-]. exists [], (before ++ y :: after).
      repeat split; [done|]. intros z Hz.
      apply in_app_or in Hz as [Hz|[<-|Hz]]; [|done|].
      * apply cmp_trans with y; [done|]. by apply cmp_flip, Hb.
      * apply cmp_trans with y; [done|]. by apply Ha.
    + intros [= <- <-]. exists (x :: before), after.
      repeat split; [|done]. intros z [<-|Hz]; [done|by apply Hb].
Qed.
End StableSort.

Lemma compareTasks_le a b : (compareTasks a b <= 0)%Z <-> noLaterThan a b.
Proof.
  unfold compareTasks, noLaterThan.
  destruct (Z.eqb_spec (priorityOrder (task_priority a) - priorityOrder (task_priority b)) 0);
    simpl; lia.
Qed.

Lemma compareTasks_trans a b c :
  (compareTasks a b <= 0)%Z -> (compareTasks b c <= 0)%Z -> (compareTasks a c <= 0)%Z.
Proof. rewrite !compareTasks_le. unfold noLaterThan. lia. Qed.

Lemma compareTasks_flip a b : (0 < compareTasks a b)%Z -> (compareTasks b a <= 0)%Z.
Proof.
  unfold compareTasks.
  destruct (Z.eqb_spec (priorityOrder (task_priority a) - priorityOrder (task_priority b)) 0),
           (Z.eqb_spec (priorityOrder (task_priority b) - priorityOrder (task_priority a)) 0);
    simpl; lia.
Qed.

Lemma dependenciesMet_spec tasks task :
  dependenciesMet tasks task = true <->
  forall depId, In depId (depsOrEmpty (task_dependencies task)) ->
    exists depTask, findTask depId tasks = Some depTask /\ task_status depTask = DONE.
Proof.
  unfold dependenciesMet. rewrite forallb_forall. split; intros H depId Hin.
  - specialize (H depId Hin). destruct (findTask depId tasks) as [depTask|]; [|done].
    apply bool_decide_eq_true in H. eauto.
  - destruct (H depId Hin) as (depTask & -> & Hdone). by apply bool_decide_eq_true.
Qed.

Lemma isAvailable_spec excludeBlocked tasks task :
  isAvailable excludeBlocked tasks task = true <-> eligible excludeBlocked tasks task.
Proof.
  unfold isAvailable, eligible. rewrite <- dependenciesMet_spec.
  destruct (task_status task), excludeBlocked; simpl; intuition congruence.
Qed.

(** Every way of breaking a full tie goes to the task that comes first
    in the input, as a stable sort does. *)
Lemma findNextTask_first_of_ties tasks excludeBlocked best :
  findNextTask tasks excludeBlocked = Some best ->
  exists before after,
    List.filter (isAvailable excludeBlocked tasks) tasks = before ++ best :: after /\
    (forall task, In task before -> ~ noLaterThan task best) /\
    (forall task, In task after -> noLaterThan best task).
Proof.
  unfold findNextTask.
  destruct (stableSort compareTasks _) as [|first rest] eqn:E; [done|].
  intros [= <-].
  destruct (stableSort_head compareTasks compareTasks_trans compareTasks_flip _ _ _ E)
    as (before & after & Hsplit & Hb & Ha).
  exists before, after. split; [done|]. split.
  - intros task Hin Hle%compareTasks_le. specialize (Hb task Hin). lia.
  - intros task Hin. by apply compareTasks_le, Ha.
Qed.

Lemma priorityOrder_specified p : priorityOrder p = specifiedRank p.
Proof. by destruct p. Qed.

(** C2. [findNextTask] returns [null] exactly when no task of the list
    is eligible; otherwise it returns an eligible task of the list such
    that every eligible task has a higher rank, or the same rank and a
    [createdAt] that is not earlier. The ranks are critical 0, high 1,
    medium 2, low 3. Eligible means: not done, not in progress, not
    blocked when [excludeBlocked], every dependency resolving to a done
    task. *)
Theorem findNextTask_spec tasks excludeBlocked :
  (priorityOrder CRITICAL = 0 /\ priorityOrder HIGH = 1 /\
   priorityOrder MEDIUM = 2 /\ priorityOrder LOW = 3)%Z /\
  (forall task, isAvailable excludeBlocked tasks task = true
                <-> eligible excludeBlocked tasks task) /\
  match findNextTask tasks excludeBlocked with
  | None => forall task, In task tasks -> ~ eligible excludeBlocked tasks task
  | Some best =>
      In best tasks /\ eligible excludeBlocked tasks best /\
      forall task, In task tasks -> eligible excludeBlocked tasks task ->
        (specifiedRank (task_priority best) < specifiedRank (task_priority task))%Z \/
        (specifiedRank (task_priority best) = specifiedRank (task_priority task) /\
         (task_createdAt best <= task_createdAt task)%Z)
  end.
Proof.
  split; [done|]. split; [intros; apply isAvailable_spec|].
  destruct (findNextTask tasks excludeBlocked) as [best|] eqn:E.
  - destruct (findNextTask_first_of_ties _ _ _ E) as (before & after & Hsplit & Hb & Ha).
    assert (In best (List.filter (isAvailable excludeBlocked tasks) tasks)) as Hin.
    { rewrite Hsplit. apply in_or_app. right. by left. }
    apply filter_In in Hin as [Hin Hav]. split; [done|].
    split; [by apply isAvailable_spec|].
    intros task Htask Hel%isAvailable_spec.
    assert (In task (before ++ best :: after)) as Hpos.
    { rewrite <- Hsplit. by apply filter_In. }
    rewrite <- (priorityOrder_specified (task_priority best)),
      <- (priorityOrder_specified (task_priority task)).
    apply in_app_or in Hpos as [Hpos|[<-|Hpos]].
    + specialize (Hb task Hpos). unfold noLaterThan in *. lia.
    + lia.
    + by apply Ha.
  - intros task Hin Hel%isAvailable_spec.
    unfold findNextTask in E.
    destruct (stableSort compareTasks _) as [|first rest] eqn:Es; [|done].
    pose proof (stableSort_length compareTasks
                  (List.filter (isAvailable excludeBlocked tasks) tasks)) as Hl.
    rewrite Es in Hl.
    assert (In task (List.filter (isAvailable excludeBlocked tasks) tasks)) as Hf
      by by apply filter_In.
    destruct (List.filter _ tasks); [done | discriminate].
Qed.

(** Scenario A: the blocked critical task when blocked tasks are allowed,
    the oldest unblocked high-priority task otherwise. Among open tasks
    that are the more urgent the younger, rank decides against age: the
    medium task beats the older low one, the high task the two older
    ones, the critical task all three. *)
Lemma findNextTask_spec_witness :
  (task_id <$> findNextTask scenarioA false) = Some (js "t2") /\
  (task_id <$> findNextTask scenarioA true) = Some (js "t4") /\
  (task_id <$> findNextTask (take 2 agedTasks) false) = Some (js "medium") /\
  (task_id <$> findNextTask (take 3 agedTasks) false) = Some (js "high") /\
  (task_id <$> findNextTask agedTasks false) = Some (js "critical") /\
  exists best,
    findNextTask agedTasks false = Some best /\
    eligible false agedTasks best /\
    (specifiedRank (task_priority best)
     < specifiedRank (task_priority (exampleTask "low" TODO LOW [] 1)))%Z.
Proof.
  split; [vm_compute; reflexivity|]. split; [vm_compute; reflexivity|].
  split; [vm_compute; reflexivity|]. split; [vm_compute; reflexivity|].
  split; [vm_compute; reflexivity|].
  pose proof (findNextTask_spec agedTasks false) as (_ & Hel & Hspec).
  destruct (findNextTask agedTasks false) as [best|] eqn:E;
    [|vm_compute in E; discriminate].
  exists best. split; [reflexivity|].
  destruct Hspec as (_ & Hbest & Hmin). split; [exact Hbest|].
  destruct (Hmin (exampleTask "low" TODO LOW [] 1)) as [Hlt|[Heq Hage]].
  - left. reflexivity.
  - apply Hel. vm_compute. reflexivity.
  - exact Hlt.
  - exfalso. assert (best = exampleTask "critical" TODO CRITICAL [] 4) as ->
      by (vm_compute in E; by injection E).
    vm_compute in Heq. discriminate.
Defined.

(** ** [calculateProjectAnalytics] *)

(** Rounding keeps the sign it is given. *)
Lemma binary_round_aux_sign sx mx ex lx :
  binary_round_aux 53 1024 sx mx ex lx = S754_nan \/
  binary_round_aux 53 1024 sx mx ex lx = S754_zero sx \/
  binary_round_aux 53 1024 sx mx ex lx = S754_infinity sx \/
  exists m e, binary_round_aux 53 1024 sx mx ex lx = S754_finite sx m e.
Proof.
  unfold binary_round_aux.
  destruct (shr_fexp 53 1024 mx ex lx) as [mrs' e'].
  destruct (shr_fexp 53 1024 _ e' loc_Exact) as [mrs'' e''].
  destruct (shr_m mrs'') as [|m|m]; [by right; left | | by left].
  destruct (e'' <=? 1024 - 53)%Z; [|by right; right; left].
  right; right; right. by exists m, e''.
Qed.

(** C8. The completion rate is [completedTasks / totalTasks * 100] in
    binary64 arithmetic, and [0] for an empty collection; the efficiency
    ratio is [totalEstimatedHours / totalActualHours * 100], estimated
    over actual, when both totals are greater than [0], and [0]
    otherwise; the empty collection gives zero counts, rates and
    totals. The operations on the right are the IEEE 754 ones. *)
Theorem analytics_rates (parseFloat : jsstring -> number) (tasks : list Task) :
  let a := calculateProjectAnalytics parseFloat tasks in
  let double (z : Z) := binary_normalize 53 1024 z 0 false in
  totalTasks a = length tasks /\
  completedTasks a
  = length (List.filter (fun t => bool_decide (task_status t = DONE)) tasks) /\
  (totalTasks a = 0 -> completionRate a = S754_zero false) /\
  (0 < totalTasks a ->
     completionRate a
     = SFmul 53 1024
         (SFdiv 53 1024 (double (Z.of_nat (completedTasks a)))
                        (double (Z.of_nat (totalTasks a))))
         (double 100%Z)) /\
  (SFltb (S754_zero false) (totalEstimatedHours a) = true ->
   SFltb (S754_zero false) (totalActualHours a) = true ->
     efficiencyRatio a
     = SFmul 53 1024
         (SFdiv 53 1024 (totalEstimatedHours a) (totalActualHours a))
         (double 100%Z)) /\
  (SFltb (S754_zero false) (totalEstimatedHours a) = false \/
   SFltb (S754_zero false) (totalActualHours a) = false ->
     efficiencyRatio a = S754_zero false) /\
  (tasks = [] ->
     totalTasks a = 0 /\ completionRate a = S754_zero false /\
     totalEstimatedHours a = S754_zero false /\
     efficiencyRatio a = S754_zero false).
Proof.
  cbn zeta. unfold calculateProjectAnalytics. cbn [totalTasks completedTasks
    totalEstimatedHours totalActualHours completionRate efficiencyRatio].
  split; [done|]. split; [done|]. split; [by intros ->|]. split.
  { intros Hpos. apply Nat.ltb_lt in Hpos. by rewrite Hpos. }
  split.
  { unfold Number_lt, zero. by intros -> ->. }
  split.
  { unfold Number_lt, zero. intros [-> | ->]; [done|]. by rewrite andb_false_r. }
  by intros ->.
Qed.

(** Scenario D: 23 estimated hours, 6.5 actual hours, a completion rate
    of 40 and a ratio of 353.84615384615387, the binary64 value of
    [23 / 6.5 * 100]. Seven done tasks out of twenty-five give
    28.000000000000004, the binary64 value of [7 / 25 * 100], not 28. *)
Lemma analytics_scenarioD :
  let a := calculateProjectAnalytics (fun _ => S754_nan) scenarioD in
  let b := calculateProjectAnalytics (fun _ => S754_nan) sevenOfTwentyFive in
  totalEstimatedHours a = Number_ofZ 23 /\
  totalActualHours a = decimal 65 1 /\
  completionRate a = Number_ofZ 40 /\
  (exists rate, Number_value (completionRate a) = Some rate /\ (rate == 40)%Q) /\
  efficiencyRatio a = S754_finite false 6224927369562584 (-44) /\
  (exists ratio, Number_value (efficiencyRatio a) = Some ratio /\
                 (3538 # 10 < ratio)%Q /\ (ratio < 3539 # 10)%Q) /\
  completionRate b = S754_finite false 7881299347898369 (-48) /\
  completionRate b <> Number_ofZ 28.
Proof.
  cbn zeta.
  pose proof (analytics_rates (fun _ => S754_nan) scenarioD)
    as (_ & _ & _ & Hrate & Heff & _).
  pose proof (analytics_rates (fun _ => S754_nan) sevenOfTwentyFive)
    as (_ & _ & _ & Hrate' & _).
  cbn zeta in Hrate, Heff, Hrate'.
  split; [vm_compute; reflexivity|]. split; [vm_compute; reflexivity|].
  split; [rewrite Hrate by (vm_compute; lia); vm_compute; reflexivity|].
  split.
  { rewrite Hrate by (vm_compute; lia). eexists.
    split; [vm_compute; reflexivity | vm_compute; reflexivity]. }
  split; [rewrite Heff by (vm_compute; reflexivity); vm_compute; reflexivity|].
  split.
  { rewrite Heff by (vm_compute; reflexivity). eexists.
    split; [vm_compute; reflexivity|]. split; vm_compute; reflexivity. }
  rewrite Hrate' by (vm_compute; lia).
  split; [vm_compute; reflexivity | vm_compute; discriminate].
Defined.

(** ** [validateTaskDependencies]: the traversal *)

Section CycleDetection.
Variables (taskId : jsstring) (dependencies : list jsstring)
          (allTasks : list Task).

Local Abbreviation E := (depEdge taskId dependencies allTasks).
Local Abbreviation dfs := (hasCycle taskId dependencies allTasks).
Local Abbreviation nodes := (cycleNodes taskId dependencies allTasks).
Local Abbreviation settled := (settledState taskId dependencies allTasks).

(** *** Stack discipline *)

Lemma cycleLoop_false rec deps st st' :
  (forall d s s', rec d s = Some (false, s') -> returnsFalse d s s') ->
  cycleLoop rec deps st = Some (false, st') ->
  recursionStack st' = recursionStack st /\
  visited st ⊆ visited st' /\
  forall d, In d deps -> d ∈ visited st' /\ d ∉ recursionStack st.
Proof.
  intros Hrec. revert st. induction deps as [|d rest IH]; intros st; simpl.
  - intros [= <-]. by repeat split.
  - destruct (rec d st) as [[[] s1]|] eqn:Ed; [done| |done].
    intros Hloop. apply Hrec in Ed as (Hs & Hv & Hd & Hn).
    apply IH in Hloop as (Hs' & Hv' & Hrest).
    split; [congruence|]. split; [set_solver|].
    intros x [<-|Hx].
    + split; [set_solver | done].
    + destruct (Hrest x Hx) as [? ?]. split; [done | congruence].
Qed.

Lemma hasCycle_false fuel node st st' :
  dfs fuel node st = Some (false, st') -> returnsFalse node st st'.
Proof.
  revert node st st'. induction fuel as [|fuel IH]; intros node st st'; [done|].
  simpl. destruct (decide (node ∈ recursionStack st)) as [|Hstack]; [done|].
  destruct (decide (node ∈ visited st)) as [Hseen|Hnew].
  - intros [= <-]. by repeat split.
  - destruct (cycleLoop _ _ _) as [[[] st2]|] eqn:Eloop; [done| |done].
    intros [= <-]. apply (cycleLoop_false _ _ _ _ IH) in Eloop as (Hs & Hv & _).
    simpl in *. unfold returnsFalse. simpl. rewrite Hs.
    repeat split; [set_solver | set_solver | set_solver | done].
Qed.

(** *** A [false] answer: no cycle is reachable *)

Lemma settled_closed st b c :
  settled st -> finished st b -> rtc E b c -> finished st c.
Proof.
  intros Hinv Hb Hreach. induction Hreach as [|x y z Hxy _ IH]; [done|].
  apply IH. by apply (Hinv x).
Qed.

Lemma tc_first_step x z : tc E x z -> exists y, E x y /\ rtc E y z.
Proof.
  intros [x' z' H | x' y z' H Hrest]; [exists z' | exists y]; split; try done.
  by apply tc_rtc.
Qed.

Lemma cycleLoop_settled rec deps st st' :
  (forall d s s', rec d s = Some (false, s') -> returnsFalse d s s') ->
  (forall d s s', rec d s = Some (false, s') -> settled s -> settled s') ->
  cycleLoop rec deps st = Some (false, st') ->
  settled st ->
  settled st' /\ forall d, In d deps -> finished st' d.
Proof.
  intros Hrec Hset. revert st. induction deps as [|d rest IH]; intros st; simpl.
  - intros [= <-]. by split.
  - destruct (rec d st) as [[[] s1]|] eqn:Ed; [done| |done].
    intros Hloop Hinv.
    pose proof (Hrec _ _ _ Ed) as (Hs & Hv & Hd & Hn).
    pose proof (cycleLoop_false _ _ _ _ Hrec Hloop) as (Hs' & Hv' & _).
    apply Hset in Ed; [|done].
    destruct (IH _ Hloop Ed) as [Hinv' Hrest]. split; [done|].
    intros x [<-|Hx]; [|by apply Hrest].
    split; [set_solver | congruence].
Qed.

Lemma hasCycle_settled fuel node st st' :
  dfs fuel node st = Some (false, st') -> settled st -> settled st'.
Proof.
  revert node st st'. induction fuel as [|fuel IH]; intros node st st'; [done|].
  simpl. destruct (decide (node ∈ recursionStack st)) as [|Hstack]; [done|].
  destruct (decide (node ∈ visited st)) as [Hseen|Hnew]; [by intros [= <-]|].
  destruct (cycleLoop _ _ _) as [[[] st2]|] eqn:Eloop; [done| |done].
  intros [= <-] Hinv.
  pose proof (cycleLoop_false _ _ _ _ (hasCycle_false fuel) Eloop) as (Hs & Hv & _).
  apply (cycleLoop_settled _ _ _ _ (hasCycle_false fuel) IH) in Eloop
    as [Hinv2 Hdeps].
  - simpl in Hs, Hv. intros b [Hb1 Hb2]. simpl in Hb1, Hb2.
    assert (forall w, finished st2 w ->
              finished {| visited := visited st2;
                          recursionStack := recursionStack st2 ∖ {[node]} |} w)
      as Hweaken.
    { intros w [? ?]. split; simpl; [done | set_solver]. }
    destruct (decide (b = node)) as [->|Hne].
    + split.
      * intros w Hw. by apply Hweaken, Hdeps.
      * intros (w & Hw & Hback)%tc_first_step.
        assert (finished st2 node) as [_ Hout]
          by (eapply settled_closed; [done | by apply Hdeps | done]).
        apply Hout. rewrite Hs. set_solver.
    + assert (finished st2 b) as Hb by (split; [done | set_solver]).
      destruct (Hinv2 b Hb) as [Hsucc Hacyc]. split; [|done].
      intros w Hw. by apply Hweaken, Hsucc.
  - intros b [Hb1 Hb2]. simpl in Hb1, Hb2.
    assert (finished st b) as Hb by (split; set_solver).
    destruct (Hinv b Hb) as [Hsucc Hacyc]. split; [|done].
    intros w Hw. destruct (Hsucc w Hw) as [Hw1 Hw2].
    split; simpl; set_solver.
Qed.

(** *** A [true] answer: a cycle is reachable *)

Lemma cycleLoop_true rec deps st st' :
  (forall d s s', rec d s = Some (false, s') -> returnsFalse d s s') ->
  (forall d s s', rec d s = Some (true, s') ->
     (forall x, x ∈ recursionStack s -> tc E x d) -> rtc E taskId d ->
     reachesCycle taskId dependencies allTasks) ->
  cycleLoop rec deps st = Some (true, st') ->
  (forall x d, x ∈ recursionStack st -> In d deps -> tc E x d) ->
  (forall d, In d deps -> rtc E taskId d) ->
  reachesCycle taskId dependencies allTasks.
Proof.
  intros Hrec Htrue. revert st.
  induction deps as [|d rest IH]; intros st; simpl; [done|].
  destruct (rec d st) as [[[] s1]|] eqn:Ed; [| |done].
  - intros _ Hpath Hreach. eapply Htrue; [exact Ed | |].
    + intros x Hx. apply Hpath; [done | by left].
    + apply Hreach. by left.
  - intros Hloop Hpath Hreach.
    apply Hrec in Ed as (Hs & _). eapply IH; [exact Hloop | |].
    + intros x y Hx Hy. apply Hpath; [congruence | by right].
    + intros y Hy. apply Hreach. by right.
Qed.

Lemma hasCycle_true fuel node st st' :
  dfs fuel node st = Some (true, st') ->
  (forall x, x ∈ recursionStack st -> tc E x node) ->
  rtc E taskId node ->
  reachesCycle taskId dependencies allTasks.
Proof.
  revert node st st'. induction fuel as [|fuel IH]; intros node st st'; [done|].
  simpl. destruct (decide (node ∈ recursionStack st)) as [Hstack|Hstack].
  - intros _ Hpath Hreach. exists node. split; [done | by apply Hpath].
  - destruct (decide (node ∈ visited st)) as [Hseen|Hnew]; [done|].
    destruct (cycleLoop _ _ _) as [[[] st2]|] eqn:Eloop; [|done|done].
    intros _ Hpath Hreach.
    eapply (cycleLoop_true _ _ _ _ (hasCycle_false fuel) IH); [exact Eloop | |].
    + simpl. intros x d Hx Hd.
      apply elem_of_union in Hx as [->%elem_of_singleton|Hx].
      * by apply tc_once.
      * eapply tc_r; [by apply Hpath | done].
    + intros d Hd. eapply rtc_r; [exact Hreach | done].
Qed.

(** *** The traversal ends within its fuel *)

Lemma findTask_In k tasks t : findTask k tasks = Some t -> In t tasks /\ task_id t = k.
Proof.
  unfold findTask. intros H. apply find_some in H as [Hin Heq].
  split; [done|]. by apply bool_decide_eq_true in Heq.
Qed.

Lemma findTask_None k tasks :
  findTask k tasks = None <-> ~ In k (List.map task_id tasks).
Proof.
  unfold findTask. split.
  - intros H (t & Hid & Hin)%in_map_iff.
    apply (find_none _ _ H) in Hin. unfold jseqb in Hin.
    by apply bool_decide_eq_false in Hin.
  - intros H. destruct (List.find _ tasks) as [t|] eqn:Ef; [|done].
    apply find_some in Ef as [Hin Heq]. apply bool_decide_eq_true in Heq.
    destruct H. apply in_map_iff. eauto.
Qed.

Lemma edge_in_nodes from to : E from to -> to ∈ nodes.
Proof.
  unfold depEdge, currentDeps, cycleNodes. intros H.
  apply elem_of_list_to_set, list_elem_of_In. right. apply in_or_app.
  destruct (jseqb from taskId); [by left|]. right.
  destruct (findTask from allTasks) as [t|] eqn:Et; [|done].
  apply findTask_In in Et as [Hin _].
  apply in_flat_map. exists t. split; [done | by right].
Qed.

Lemma root_in_nodes : taskId ∈ nodes.
Proof. unfold cycleNodes. apply elem_of_list_to_set. by left. Qed.

Lemma cycleLoop_fuel rec n deps st :
  (forall d s s', rec d s = Some (false, s') -> returnsFalse d s s') ->
  (forall d s, d ∈ nodes -> size (nodes ∖ visited s) < n -> rec d s <> None) ->
  (forall d, In d deps -> d ∈ nodes) ->
  size (nodes ∖ visited st) < n ->
  cycleLoop rec deps st <> None.
Proof.
  intros Hrec Hfuel. revert st.
  induction deps as [|d rest IH]; intros st Hin Hsize; simpl; [done|].
  destruct (rec d st) as [[[] s1]|] eqn:Ed; [done| |].
  - apply Hrec in Ed as (_ & Hv & _). apply IH.
    + intros x Hx. apply Hin. by right.
    + eapply Nat.le_lt_trans; [|exact Hsize]. apply subseteq_size. set_solver.
  - exfalso. eapply Hfuel; [| |exact Ed]; [apply Hin; by left | done].
Qed.

Lemma hasCycle_fuel fuel node st :
  node ∈ nodes -> size (nodes ∖ visited st) < fuel -> dfs fuel node st <> None.
Proof.
  revert node st. induction fuel as [|fuel IH]; intros node st Hin Hsize; [lia|].
  simpl. destruct (decide (node ∈ recursionStack st)); [done|].
  destruct (decide (node ∈ visited st)) as [|Hnew]; [done|].
  destruct (cycleLoop _ _ _) as [[[] st2]|] eqn:Eloop; [done|done|].
  exfalso. revert Eloop.
  apply (cycleLoop_fuel _ fuel _ _ (hasCycle_false fuel) IH).
  - intros d Hd. by apply (edge_in_nodes node).
  - simpl.
    assert (nodes ∖ ({[node]} ∪ visited st) ⊂ nodes ∖ visited st) as Hsub.
    { split; [set_solver|]. intros Hback. specialize (Hback node). set_solver. }
    apply subset_size in Hsub. lia.
Qed.

(** *** The answer of [hasCycle(taskId)] *)

Lemma hasCycle_decides :
  exists cyclic st,
    dfs (cycleFuel taskId dependencies allTasks) taskId emptyCycleState
      = Some (cyclic, st) /\
    (cyclic = true <-> reachesCycle taskId dependencies allTasks).
Proof.
  destruct (dfs _ taskId emptyCycleState) as [[cyclic st]|] eqn:Erun.
  - exists cyclic, st. split; [done|]. destruct cyclic.
    + split; [intros _|done]. eapply hasCycle_true; [exact Erun | |done].
      intros x Hx. simpl in Hx. set_solver.
    + split; [done|]. intros (c & Hreach & Hcyc). exfalso.
      pose proof (hasCycle_false _ _ _ _ Erun) as (Hs & _ & Hv & _).
      assert (settled st) as Hinv.
      { eapply hasCycle_settled; [exact Erun|].
        intros b [Hb _]. simpl in Hb. set_solver. }
      assert (finished st taskId) as Hroot.
      { split; [done|]. rewrite Hs. simpl. set_solver. }
      by apply (Hinv c (settled_closed _ _ _ Hinv Hroot Hreach)).
  - exfalso. revert Erun. apply hasCycle_fuel; [apply root_in_nodes|].
    unfold cycleFuel. simpl.
    assert (size (nodes ∖ ∅) <= size nodes) by (apply subseteq_size; set_solver).
    lia.
Qed.
End CycleDetection.

(** ** [validateTaskDependencies]: the result *)

Lemma validate_unfold taskId dependencies allTasks :
  dependencies <> [] ->
  exists cyclic st,
    hasCycle taskId dependencies allTasks
      (cycleFuel taskId dependencies allTasks) taskId emptyCycleState
      = Some (cyclic, st) /\
    (cyclic = true <-> reachesCycle taskId dependencies allTasks) /\
    validateTaskDependencies taskId dependencies allTasks
    = Some {| isValid :=
                bool_decide
                  ((if bool_decide (taskId ∈ dependencies)
                    then [selfDependencyError] else []) ++
                   (if cyclic then [circularError] else []) ++
                   projectErrors taskId dependencies allTasks = []);
              errors :=
                (if bool_decide (taskId ∈ dependencies)
                 then [selfDependencyError] else []) ++
                (if cyclic then [circularError] else []) ++
                projectErrors taskId dependencies allTasks |}.
Proof.
  intros Hne.
  destruct (hasCycle_decides taskId dependencies allTasks) as (cyclic & st & Hrun & Hiff).
  exists cyclic, st. split; [done|]. split; [done|].
  unfold validateTaskDependencies. destruct dependencies; [done|]. by rewrite Hrun.
Qed.

(** The traversal never runs out of fuel: a result is always returned. *)
Lemma validateTaskDependencies_total taskId dependencies allTasks :
  is_Some (validateTaskDependencies taskId dependencies allTasks).
Proof.
  destruct dependencies as [|d rest] eqn:E; [by eexists|].
  destruct (validate_unfold taskId (d :: rest) allTasks) as (? & ? & _ & _ & ->);
    [done | by eexists].
Qed.

Lemma occurrences_app message l1 l2 :
  occurrences message (l1 ++ l2) = occurrences message l1 + occurrences message l2.
Proof. unfold occurrences. by rewrite List.filter_app, length_app. Qed.

Lemma occurrences_none message l :
  (forall e, In e l -> e <> message) -> occurrences message l = 0.
Proof.
  unfold occurrences. induction l as [|e l IH]; intros H; [done|].
  simpl. unfold jseqb at 1. rewrite bool_decide_eq_false_2.
  - apply IH. intros x Hx. apply H. by right.
  - intros ->. by apply (H e); [left|].
Qed.

Lemma projectErrors_shape taskId dependencies allTasks e :
  In e (projectErrors taskId dependencies allTasks) ->
  exists depId, In depId dependencies /\
    (e = notFoundError depId \/ e = otherProjectError depId).
Proof.
  unfold projectErrors.
  destruct (task_projectId <$> findTask taskId allTasks) as [[|c p]|]; [done| |done].
  intros (depId & Hin & He)%in_flat_map. exists depId. split; [done|].
  destruct (findTask depId allTasks) as [depTask|].
  - destruct (jseqb _ _); [done|]. destruct He as [<-|[]]. by right.
  - destruct He as [<-|[]]. by left.
Qed.

Lemma projectErrors_not_circular taskId dependencies allTasks :
  occurrences circularError (projectErrors taskId dependencies allTasks) = 0.
Proof.
  apply occurrences_none. intros e (depId & _ & [-> | ->])%projectErrors_shape;
    unfold notFoundError, otherProjectError, circularError; discriminate.
Qed.

(** C3. With a non-empty dependency list, [validateTaskDependencies]
    returns a result; the error "Circular dependency detected" occurs in
    it exactly once when a cycle can be reached from [taskId] in the
    graph whose edges are the proposed dependencies for [taskId] and the
    stored dependencies for every other task (which is when the
    depth-first traversal meets a node on its recursion stack), and does
    not occur otherwise. *)
Theorem circular_error_iff_cycle taskId dependencies allTasks :
  dependencies <> [] ->
  exists result,
    validateTaskDependencies taskId dependencies allTasks = Some result /\
    (reachesCycle taskId dependencies allTasks ->
       occurrences circularError (errors result) = 1) /\
    (~ reachesCycle taskId dependencies allTasks ->
       occurrences circularError (errors result) = 0 /\
       ~ In circularError (errors result)).
Proof.
  intros Hne.
  destruct (validate_unfold taskId dependencies allTasks Hne)
    as (cyclic & st & _ & Hiff & ->).
  eexists. split; [reflexivity|]. cbn [errors].
  assert (occurrences circularError
            (if bool_decide (taskId ∈ dependencies) then [selfDependencyError] else [])
          = 0) as Hself by (by destruct (bool_decide _)).
  assert (forall l, occurrences circularError l = 0 -> ~ In circularError l) as Habsent.
  { intros l Hz Hin. unfold occurrences in Hz.
    assert (In circularError (List.filter (jseqb circularError) l)) as Hf.
    { apply filter_In. split; [done|]. by apply bool_decide_eq_true. }
    by destruct (List.filter _ l). }
  split.
  - intros Hcyc. apply Hiff in Hcyc as ->.
    by rewrite !occurrences_app, Hself, projectErrors_not_circular.
  - intros Hnot. destruct cyclic; [by destruct Hnot; apply Hiff|].
    assert (occurrences circularError
              ((if bool_decide (taskId ∈ dependencies)
                then [selfDependencyError] else []) ++
               [] ++ projectErrors taskId dependencies allTasks) = 0) as Hz
      by (by rewrite !occurrences_app, Hself, projectErrors_not_circular).
    split; [done | by apply Habsent].
Qed.

Lemma circular_error_iff_cycle_witness :
  exists result,
    validateTaskDependencies (js "t3") [js "t7"] scenarioA = Some result /\
    occurrences circularError (errors result) = 1.
Proof.
  destruct (circular_error_iff_cycle (js "t3") [js "t7"] scenarioA)
    as (result & Hres & Hone & _); [discriminate|].
  exists result. split; [exact Hres|]. apply Hone.
  exists (js "t3"). split; [apply rtc_refl|].
  apply tc_l with (js "t7"); [|apply tc_once]; vm_compute; by left.
Defined.

(** C10. A task that lists itself gets both the self-dependency error
    and the circular-dependency error, and the result is invalid. *)
Theorem self_dependency_reported_twice taskId dependencies allTasks :
  In taskId dependencies ->
  exists result,
    validateTaskDependencies taskId dependencies allTasks = Some result /\
    In selfDependencyError (errors result) /\
    In circularError (errors result) /\
    isValid result = false.
Proof.
  intros Hself.
  assert (dependencies <> []) as Hne by (by destruct dependencies).
  destruct (validate_unfold taskId dependencies allTasks Hne)
    as (cyclic & st & _ & Hiff & ->).
  assert (cyclic = true) as ->.
  { apply Hiff. exists taskId. split; [apply rtc_refl|]. apply tc_once.
    unfold depEdge, currentDeps, jseqb. by rewrite bool_decide_eq_true_2. }
  rewrite (bool_decide_eq_true_2 (taskId ∈ dependencies)) by by apply list_elem_of_In.
  eexists. split; [reflexivity|]. cbn [errors isValid].
  split; [by left|]. split; [right; by left|].
  by apply bool_decide_eq_false.
Qed.

Lemma self_dependency_reported_twice_witness :
  exists result,
    validateTaskDependencies (js "t4") [js "t1"; js "t4"] scenarioA = Some result /\
    In selfDependencyError (errors result) /\
    In circularError (errors result) /\
    isValid result = false.
Proof.
  apply (self_dependency_reported_twice (js "t4") [js "t1"; js "t4"] scenarioA).
  right. by left.
Defined.

(** C4, as the specification states it, fails when [taskId] is not among
    the tasks: the existence check sits behind [if (taskProjectId)], so a
    dependency on a task that does not exist goes unreported. *)
Lemma missing_dependency_unreported :
  ~ In (js "t9") (List.map task_id scenarioA) /\
  ~ In (js "nowhere") (List.map task_id scenarioA) /\
  validateTaskDependencies (js "t9") [js "nowhere"] scenarioA
  = Some {| isValid := true; errors := [] |}.
Proof.
  split; [|split]; [| |vm_compute; reflexivity];
    apply findTask_None; vm_compute; reflexivity.
Qed.

(** C4 (amended). When [taskId] is the id of a task of the list and that
    task has a non-empty [projectId], every proposed dependency that is
    no task id of the list gets "Dependency task ... not found", and
    every proposed dependency resolving to a task of another project
    gets "Dependency task ... is not in the same project". When [taskId]
    is no task id of the list (or its task has an empty [projectId]),
    neither message is produced: only the self-dependency and the
    circular-dependency errors can occur. *)
Theorem dependency_checks_need_known_task taskId dependencies allTasks :
  dependencies <> [] ->
  exists result,
    validateTaskDependencies taskId dependencies allTasks = Some result /\
    (forall task, findTask taskId allTasks = Some task ->
       task_projectId task <> [] ->
       forall depId, In depId dependencies ->
         (~ In depId (List.map task_id allTasks) ->
            In (notFoundError depId) (errors result)) /\
         (forall depTask, findTask depId allTasks = Some depTask ->
            task_projectId depTask <> task_projectId task ->
            In (otherProjectError depId) (errors result))) /\
    ((~ In taskId (List.map task_id allTasks) \/
      exists task, findTask taskId allTasks = Some task /\ task_projectId task = []) ->
       forall e, In e (errors result) ->
         e = selfDependencyError \/ e = circularError).
Proof.
  intros Hne.
  destruct (validate_unfold taskId dependencies allTasks Hne)
    as (cyclic & st & _ & _ & ->).
  eexists. split; [reflexivity|]. cbn [errors]. split.
  - intros task Htask Hproj depId Hdep.
    assert (forall e,
              In e (match findTask depId allTasks with
                    | None => [notFoundError depId]
                    | Some depTask =>
                        if jseqb (task_projectId depTask) (task_projectId task)
                        then [] else [otherProjectError depId]
                    end) ->
              In e (projectErrors taskId dependencies allTasks)) as Hin.
    { intros e He. unfold projectErrors. rewrite Htask. simpl.
      destruct (task_projectId task) as [|c p] eqn:Ep; [done|].
      apply in_flat_map. exists depId. split; [done|]. exact He. }
    split.
    + intros Hmissing%findTask_None. rewrite Hmissing in Hin.
      apply in_or_app. right. apply in_or_app. right. apply Hin. by left.
    + intros depTask Hfound Hother. rewrite Hfound in Hin.
      unfold jseqb in Hin. rewrite bool_decide_eq_false_2 in Hin by done.
      apply in_or_app. right. apply in_or_app. right. apply Hin. by left.
  - intros Hunknown e He.
    assert (projectErrors taskId dependencies allTasks = []) as Hnone.
    { unfold projectErrors. destruct Hunknown as [Hno%findTask_None | (task & Ht & Hp)].
      - by rewrite Hno.
      - rewrite Ht. simpl. by rewrite Hp. }
    rewrite Hnone, app_nil_r in He.
    apply in_app_or in He as [He|He].
    + destruct (bool_decide _); [|done]. destruct He as [<-|[]]. by left.
    + destruct cyclic; [|done]. destruct He as [<-|[]]. by right.
Qed.

Lemma dependency_checks_need_known_task_witness :
  exists result,
    validateTaskDependencies (js "t4") [js "nowhere"] scenarioA = Some result /\
    In (notFoundError (js "nowhere")) (errors result).
Proof.
  destruct (dependency_checks_need_known_task (js "t4") [js "nowhere"] scenarioA)
    as (result & Hres & Hknown & _); [discriminate|].
  exists result. split; [exact Hres|].
  refine (proj1 (Hknown (exampleTask "t4" TODO HIGH [] 4) _ _ (js "nowhere") _) _).
  - vm_compute. reflexivity.
  - vm_compute. discriminate.
  - by left.
  - apply findTask_None. vm_compute. reflexivity.
Defined.

(** ** [buildTaskDependencyGraph] without inheritance: levels *)

Section Levels.
Implicit Types (graph g : TaskDependencyGraph) (seen : gset jsstring).

(** *** Only the dependency lists matter *)

Lemma shape_lookup g k : shape g !! k = node_dependencies <$> g !! k.
Proof. apply lookup_fmap. Qed.

Lemma shape_alter (f : GraphNode -> GraphNode) k g :
  (forall n, node_dependencies (f n) = node_dependencies n) ->
  shape (alter f k g) = shape g.
Proof.
  intros Hf. apply map_eq. intros i. rewrite !shape_lookup.
  destruct (decide (k = i)) as [->|Hne].
  - rewrite lookup_alter_eq. destruct (g !! i); simpl; [by rewrite Hf | done].
  - by rewrite lookup_alter_ne.
Qed.

Lemma shape_some g1 g2 k :
  shape g1 = shape g2 -> is_Some (g1 !! k) <-> is_Some (g2 !! k).
Proof.
  intros H. rewrite <- !(fmap_is_Some node_dependencies), <- !shape_lookup.
  by rewrite H.
Qed.

Lemma shape_deps g1 g2 k n1 :
  shape g1 = shape g2 -> g1 !! k = Some n1 ->
  exists n2, g2 !! k = Some n2 /\ node_dependencies n2 = node_dependencies n1.
Proof.
  intros H Hk. pose proof (shape_lookup g1 k) as H1.
  rewrite H, shape_lookup, Hk in H1. simpl in H1.
  destruct (g2 !! k) as [n2|]; [|done]. exists n2. split; [done|].
  by injection H1.
Qed.

Lemma shape_dom g1 g2 : shape g1 = shape g2 -> dom g1 = dom g2.
Proof.
  intros H. unfold shape in H.
  rewrite <- (dom_fmap_L node_dependencies g1), <- (dom_fmap_L node_dependencies g2).
  by rewrite H.
Qed.

Lemma shape_edge g1 g2 u w :
  shape g1 = shape g2 -> graphEdge g1 u w -> graphEdge g2 u w.
Proof.
  intros H (n1 & Hu & Hin & Hw).
  destruct (shape_deps _ _ _ _ H Hu) as (n2 & Hu2 & Hd).
  exists n2. split; [done|]. split; [by rewrite Hd|]. by apply (shape_some g1 g2).
Qed.

Lemma ownLevelLoop_shape rec1 rec2 g1 g2 seen deps acc :
  shape g1 = shape g2 ->
  (forall d, rec1 d seen = rec2 d seen) ->
  ownLevelLoop rec1 g1 seen deps acc = ownLevelLoop rec2 g2 seen deps acc.
Proof.
  intros H Hrec. revert acc. induction deps as [|d rest IH]; intros acc; [done|].
  simpl. pose proof (shape_some g1 g2 d H) as Hd.
  destruct (g1 !! d) as [n1|], (g2 !! d) as [n2|].
  - rewrite Hrec. destruct (rec2 d seen); [apply IH | done].
  - destruct Hd as [Hd _]. by destruct Hd.
  - destruct Hd as [_ Hd]. by destruct Hd.
  - apply IH.
Qed.

Lemma ownLevel_shape fuel g1 g2 k seen :
  shape g1 = shape g2 ->
  ownLevel fuel g1 k seen = ownLevel fuel g2 k seen.
Proof.
  intros H. revert k seen. induction fuel as [|fuel IH]; intros k seen; [done|].
  cbn [ownLevel]. destruct (decide (k ∈ seen)); [done|].
  destruct (g1 !! k) as [n1|] eqn:E1.
  - destruct (shape_deps _ _ _ _ H E1) as (n2 & -> & ->).
    destruct (node_dependencies n1) as [|d rest]; [done|].
    by apply ownLevelLoop_shape.
  - pose proof (shape_some g1 g2 k H) as Hk. rewrite E1 in Hk.
    destruct (g2 !! k); [|done]. destruct Hk as [_ Hk]. by destruct Hk.
Qed.

Lemma invertEdges_shape tasks g : shape (invertEdges tasks g) = shape g.
Proof.
  unfold invertEdges. revert g.
  induction tasks as [|task tasks IH]; intros g; [done|].
  simpl. rewrite IH. generalize (depsOrEmpty (task_dependencies task)).
  intros deps. revert g. induction deps as [|d deps IHd]; intros g; [done|].
  simpl. rewrite IHd. by apply shape_alter.
Qed.

(** *** The recursion ends within its fuel *)

Lemma ownLevelLoop_fuel rec g seen deps acc :
  (forall d, is_Some (g !! d) -> rec d seen <> None) ->
  ownLevelLoop rec g seen deps acc <> None.
Proof.
  intros Hrec. revert acc. induction deps as [|d rest IH]; intros acc; [done|].
  simpl. destruct (g !! d) as [n|] eqn:Ed; [|apply IH].
  destruct (rec d seen) eqn:Er; [apply IH|].
  exfalso. by apply (Hrec d); [rewrite Ed|].
Qed.

Lemma ownLevel_fuel fuel g k seen :
  size (dom g ∖ seen) < fuel -> ownLevel fuel g k seen <> None.
Proof.
  revert k seen. induction fuel as [|fuel IH]; intros k seen Hsize; [lia|].
  cbn [ownLevel]. destruct (decide (k ∈ seen)) as [|Hnew]; [done|].
  destruct (g !! k) as [n|] eqn:Ek; [|done].
  destruct (node_dependencies n) as [|d rest]; [done|].
  apply ownLevelLoop_fuel. intros x _. apply IH.
  assert (dom g ∖ ({[k]} ∪ seen) ⊂ dom g ∖ seen) as Hsub.
  { split; [set_solver|]. intros Hback. specialize (Hback k).
    assert (k ∈ dom g) by (apply elem_of_dom; by rewrite Ek). set_solver. }
  apply subset_size in Hsub. lia.
Qed.

Lemma levelOf_computed g k :
  ownLevel (levelFuel g) g k ∅ = Some (levelOf g k).
Proof.
  unfold levelOf. destruct (ownLevel _ g k ∅) eqn:E; [done|].
  exfalso. revert E. apply ownLevel_fuel. unfold levelFuel.
  rewrite <- size_dom.
  assert (size (dom g ∖ ∅) <= size (dom g)) by (apply subseteq_size; set_solver).
  lia.
Qed.

(** *** Without cycles the visited set never cuts a branch *)

Lemma ownLevelLoop_ext rec1 rec2 g seen1 seen2 deps acc :
  (forall d, In d deps -> is_Some (g !! d) -> rec1 d seen1 = rec2 d seen2) ->
  ownLevelLoop rec1 g seen1 deps acc = ownLevelLoop rec2 g seen2 deps acc.
Proof.
  revert acc. induction deps as [|d rest IH]; intros acc Hrec; [done|].
  simpl. destruct (g !! d) as [n|] eqn:Ed.
  - rewrite (Hrec d); [|by left|by rewrite Ed].
    destruct (rec2 d seen2); [|done]. apply IH. intros x Hx. apply Hrec. by right.
  - apply IH. intros x Hx. apply Hrec. by right.
Qed.

Lemma ownLevel_seen_irrelevant g :
  acyclicGraph g ->
  forall fuel1 fuel2 k seen1 seen2,
    (forall v, rtc (graphEdge g) k v -> v ∉ seen1) ->
    (forall v, rtc (graphEdge g) k v -> v ∉ seen2) ->
    size (dom g ∖ seen1) < fuel1 ->
    size (dom g ∖ seen2) < fuel2 ->
    ownLevel fuel1 g k seen1 = ownLevel fuel2 g k seen2.
Proof.
  intros Hacyclic. induction fuel1 as [|fuel1 IH];
    intros fuel2 k seen1 seen2 Hfree1 Hfree2 Hsize1 Hsize2; [lia|].
  destruct fuel2 as [|fuel2]; [lia|]. cbn [ownLevel].
  rewrite !decide_False by (first [by apply Hfree1 | by apply Hfree2]).
  destruct (g !! k) as [n|] eqn:Ek; [|done].
  destruct (node_dependencies n) as [|d0 rest0] eqn:Edeps; [done|].
  assert (k ∈ dom g) as Hdom by (apply elem_of_dom; by rewrite Ek).
  assert (forall seen, k ∉ seen -> dom g ∖ ({[k]} ∪ seen) ⊂ dom g ∖ seen) as Hsub.
  { intros seen Hk. split; [set_solver|]. intros Hback. specialize (Hback k).
    set_solver. }
  apply ownLevelLoop_ext. intros d Hd Hsome.
  assert (graphEdge g k d) as Hedge.
  { exists n. split; [done|]. split; [by rewrite Edeps | done]. }
  assert (forall v, rtc (graphEdge g) d v -> v <> k) as Hnoback.
  { intros v Hv ->. apply (Hacyclic k). by eapply tc_rtc_r; [apply tc_once|]. }
  apply IH.
  - intros v Hv [->%elem_of_singleton|Hin]%elem_of_union.
    + by apply (Hnoback k).
    + apply (Hfree1 v); [|done]. by eapply rtc_l.
  - intros v Hv [->%elem_of_singleton|Hin]%elem_of_union.
    + by apply (Hnoback k).
    + apply (Hfree2 v); [|done]. by eapply rtc_l.
  - pose proof (subset_size _ _ (Hsub seen1 (Hfree1 k (rtc_refl _ _)))). lia.
  - pose proof (subset_size _ _ (Hsub seen2 (Hfree2 k (rtc_refl _ _)))). lia.
Qed.

(** *** What the loop computes *)

Lemma ownLevelLoop_result rec g seen deps acc r :
  ownLevelLoop rec g seen deps acc = Some r ->
  acc <= r /\
  (forall d l, In d deps -> is_Some (g !! d) -> rec d seen = Some l -> l + 1 <= r) /\
  (r = acc \/
   exists d l, In d deps /\ is_Some (g !! d) /\ rec d seen = Some l /\ r = l + 1).
Proof.
  revert acc. induction deps as [|d rest IH]; intros acc; simpl.
  - intros [= <-]. split; [done|]. split; [by intros ? ? []|by left].
  - destruct (g !! d) as [n|] eqn:Ed.
    + destruct (rec d seen) as [l|] eqn:Er; [|done].
      intros (Hacc & Hall & Hsome)%IH. split; [lia|]. split.
      * intros x lx [<-|Hx] Hx1 Hx2.
        -- rewrite Er in Hx2. injection Hx2 as ->. lia.
        -- by eapply Hall.
      * destruct Hsome as [->|(x & lx & Hx & Hx1 & Hx2 & ->)].
        -- destruct (Nat.max_spec acc (l + 1)) as [[_ ->]|[_ ->]].
           ++ right. exists d, l. repeat split; [by left | by rewrite Ed | done].
           ++ by left.
        -- right. exists x, lx. repeat split; [by right | done | done].
    + intros (Hacc & Hall & Hsome)%IH. split; [done|]. split.
      * intros x lx [<-|Hx] Hx1 Hx2; [rewrite Ed in Hx1; by destruct Hx1|].
        by eapply Hall.
      * destruct Hsome as [->|(x & lx & Hx & Hx1 & Hx2 & ->)]; [by left|].
        right. exists x, lx. repeat split; [by right | done | done].
Qed.

(** The level of a key, from the levels of the keys it depends on. *)
Lemma levelOf_recurrence g k n :
  acyclicGraph g -> g !! k = Some n ->
  (forall d, graphEdge g k d -> levelOf g d + 1 <= levelOf g k) /\
  (levelOf g k = 0 \/ exists d, graphEdge g k d /\ levelOf g k = levelOf g d + 1).
Proof.
  intros Hacyclic Hk.
  pose proof (levelOf_computed g k) as Hrun. unfold levelFuel in Hrun.
  cbn [ownLevel] in Hrun. rewrite decide_False, Hk in Hrun by set_solver.
  assert (forall d, graphEdge g k d ->
            ownLevel (size g) g d ({[k]} ∪ ∅) = Some (levelOf g d)) as Hdep.
  { intros d Hedge. rewrite <- levelOf_computed.
    assert (k ∈ dom g) by (apply elem_of_dom; by rewrite Hk).
    apply ownLevel_seen_irrelevant; [done| | | |].
    - intros v Hv [->%elem_of_singleton|Hin]%elem_of_union; [|set_solver].
      apply (Hacyclic k). by eapply tc_rtc_r; [apply tc_once|].
    - intros v _. set_solver.
    - rewrite <- size_dom.
      assert (dom g ∖ ({[k]} ∪ ∅) ⊂ dom g) as Hsub.
      { split; [set_solver|]. intros Hback. specialize (Hback k). set_solver. }
      apply subset_size in Hsub. lia.
    - unfold levelFuel. rewrite <- size_dom.
      assert (size (dom g ∖ ∅) <= size (dom g)) by (apply subseteq_size; set_solver).
      lia. }
  destruct (node_dependencies n) as [|d0 rest0] eqn:Edeps.
  - injection Hrun as Hzero. split; [|by left].
    intros d (n' & Hn' & Hin & _). rewrite Hk in Hn'. injection Hn' as <-.
    by rewrite Edeps in Hin.
  - apply ownLevelLoop_result in Hrun as (_ & Hall & Hsome). split.
    + intros d Hedge. pose proof Hedge as (n' & Hn' & Hin & Hd).
      rewrite Hk in Hn'. injection Hn' as <-. rewrite Edeps in Hin.
      eapply Hall; [exact Hin | done | by apply Hdep].
    + destruct Hsome as [Hz|(d & l & Hin & Hd & Hl & Hr)]; [by left|].
      right. exists d.
      assert (graphEdge g k d) as Hedge.
      { exists n. split; [done|]. split; [by rewrite Edeps | done]. }
      split; [done|]. rewrite (Hdep d Hedge) in Hl. injection Hl as <-. done.
Qed.

(** *** The third loop *)

Lemma assignOwnLevels_spec fuel keys g g' :
  NoDup keys ->
  assignOwnLevels fuel keys g = Some g' ->
  shape g' = shape g /\
  forall k,
    (In k keys ->
       exists l, ownLevel fuel g k ∅ = Some l /\
                 g' !! k = setLevel l <$> g !! k) /\
    (~ In k keys -> g' !! k = g !! k).
Proof.
  intros Hnodup. revert g. induction Hnodup as [|key rest Hfresh Hnodup IH];
    intros g; simpl.
  - intros [= <-]. split; [done|]. intros k. split; [done|done].
  - destruct (ownLevel fuel g key ∅) as [l|] eqn:El; [|done].
    intros (Hshape & Hkeys)%IH.
    assert (shape (alter (setLevel l) key g) = shape g) as Halter
      by by apply shape_alter.
    assert (~ In key rest) as Hfresh'
      by (first [exact Hfresh | intros ?; apply Hfresh; by apply list_elem_of_In]).
    split; [congruence|]. intros k. split.
    + intros [<-|Hin].
      * exists l. split; [done|].
        destruct (Hkeys key) as [_ Hout]. rewrite Hout by done.
        by rewrite lookup_alter_eq.
      * destruct (Hkeys k) as [(l' & Hl' & ->) _]; [done|].
        exists l'. split; [by rewrite <- (ownLevel_shape _ _ _ _ _ Halter)|].
        rewrite lookup_alter_ne; [done|]. by intros ->.
    + intros Hnot. destruct (Hkeys k) as [_ Hout].
      rewrite Hout by (intros Hin; apply Hnot; by right).
      rewrite lookup_alter_ne; [done|]. intros ->. apply Hnot. by left.
Qed.

Lemma assignOwnLevels_total fuel keys g :
  (forall g0 k, shape g0 = shape g -> ownLevel fuel g0 k ∅ <> None) ->
  assignOwnLevels fuel keys g <> None.
Proof.
  revert g. induction keys as [|key rest IH]; intros g Hfuel; [done|].
  simpl. destruct (ownLevel fuel g key ∅) as [l|] eqn:El.
  - apply IH. intros g0 k Hs. apply Hfuel. rewrite Hs. by apply shape_alter.
  - by apply Hfuel in El.
Qed.
End Levels.

(** *** The levels that are assigned *)

Lemma acyclicGraph_shape g1 g2 :
  shape g1 = shape g2 -> acyclicGraph g1 -> acyclicGraph g2.
Proof.
  intros H Hacyclic node Hcycle. apply (Hacyclic node).
  eapply (tc_congruence id); [|exact Hcycle].
  intros u w. by apply shape_edge.
Qed.

Lemma nsteps_shape g1 g2 n u w :
  shape g1 = shape g2 ->
  nsteps (graphEdge g1) n u w -> nsteps (graphEdge g2) n u w.
Proof.
  intros H Hsteps. induction Hsteps as [|n x y z Hxy _ IH]; [constructor|].
  econstructor; [by eapply shape_edge | done].
Qed.

Lemma initGraph_lookup tasks k node :
  initGraph tasks !! k = Some node ->
  exists task, In task tasks /\ task_id task = k /\ node = initNode task.
Proof.
  unfold initGraph.
  assert (forall acc : TaskDependencyGraph,
            fold_left (fun graph task => <[task_id task := initNode task]> graph)
                      tasks acc !! k = Some node ->
            acc !! k = Some node \/
            exists task, In task tasks /\ task_id task = k /\ node = initNode task)
    as Hgen.
  { induction tasks as [|t tasks IH]; intros acc; simpl; [by left|].
    intros [Hacc|(task & Hin & Hid & Hnode)]%IH.
    - destruct (decide (task_id t = k)) as [Heq|Hne].
      + rewrite Heq, lookup_insert_eq in Hacc. injection Hacc as <-.
        right. exists t. split; [by left | done].
      + rewrite lookup_insert_ne in Hacc by done. by left.
    - right. exists task. split; [by right | done]. }
  intros [Hempty|Hfound]%Hgen; [by rewrite lookup_empty in Hempty | done].
Qed.

(** A graph whose edges all go down along some rank has no cycle. *)
Lemma acyclic_by_rank (rank : jsstring -> nat) graph :
  (forall from to, graphEdge graph from to -> rank to < rank from) ->
  acyclicGraph graph.
Proof.
  intros Hrank node Hcycle.
  assert (forall u w, tc (graphEdge graph) u w -> rank w < rank u) as Hdown.
  { intros u w H. induction H as [u w H|u v w H _ IH].
    - by apply Hrank.
    - apply Hrank in H. lia. }
  apply Hdown in Hcycle. lia.
Qed.

Lemma levelOf_longest_chain g :
  acyclicGraph g ->
  forall k, is_Some (g !! k) ->
    (exists last, nsteps (graphEdge g) (levelOf g k) k last) /\
    (forall n last, nsteps (graphEdge g) n k last -> n <= levelOf g k).
Proof.
  intros Hacyclic k Hk. split.
  - remember (levelOf g k) as m eqn:Hm. revert k Hk Hm.
    induction m as [|m IH]; intros k [node Hk] Hm.
    + exists k. constructor.
    + destruct (levelOf_recurrence g k node Hacyclic Hk) as [_ [Hz|(d & Hedge & Hd)]];
        [congruence|].
      destruct (IH d) as [last Hlast].
      * by destruct Hedge as (_ & _ & _ & ?).
      * lia.
      * exists last. by econstructor.
  - intros n last Hsteps. induction Hsteps as [|n x y z Hxy _ IH]; [lia|].
    pose proof Hxy as (node & Hx & _ & Hy).
    destruct (levelOf_recurrence g x node Hacyclic Hx) as [Hall _].
    specialize (Hall y Hxy). specialize (IH Hy). lia.
Qed.

Lemma ownKeys_spec (g : TaskDependencyGraph) (k : jsstring) :
  In k (ownKeys g) <-> is_Some (g !! k) /\ k <> protoKey.
Proof.
  unfold ownKeys. rewrite filter_In, <- list_elem_of_In, elem_of_elements, elem_of_dom.
  unfold jseqb. destruct (bool_decide_reflect (k = protoKey)); simpl; intuition congruence.
Qed.

Lemma ownKeys_NoDup (g : TaskDependencyGraph) : NoDup (ownKeys g).
Proof.
  unfold ownKeys. generalize (NoDup_elements (dom g)).
  induction 1 as [|x l Hx _ IH]; simpl; [constructor|].
  destruct (negb (jseqb x protoKey)); [|done].
  constructor; [|done]. intros Hin%list_elem_of_In%filter_In.
  apply Hx, list_elem_of_In, Hin.
Qed.

Lemma buildOwnGraph_levels tasks :
  exists graph,
    buildOwnGraph tasks = Some graph /\
    shape graph = shape (initGraph tasks) /\
    forall k node, graph !! k = Some node ->
      (k <> protoKey ->
         node_level node = levelOf (invertEdges tasks (initGraph tasks)) k) /\
      (k = protoKey -> invertEdges tasks (initGraph tasks) !! k = Some node).
Proof.
  unfold buildOwnGraph.
  set (g0 := invertEdges tasks (initGraph tasks)).
  assert (shape g0 = shape (initGraph tasks)) as Hshape0
    by apply invertEdges_shape.
  destruct (assignOwnLevels (levelFuel g0) (ownKeys g0) g0) as [graph|] eqn:Erun.
  - exists graph. split; [done|].
    apply assignOwnLevels_spec in Erun as [Hshape Hkeys]; [|apply ownKeys_NoDup].
    split; [congruence|]. intros k node Hnode.
    destruct (Hkeys k) as [Hin Hout]. split.
    + intros Hne.
      assert (is_Some (g0 !! k)) as Hsome.
      { apply (shape_some graph g0); [done | by rewrite Hnode]. }
      destruct Hin as (l & Hl & Hlook); [by apply ownKeys_spec|].
      rewrite Hnode in Hlook. rewrite levelOf_computed in Hl. injection Hl as <-.
      destruct (g0 !! k) as [n0|]; [|done]. by injection Hlook as ->.
    + intros ->. rewrite <- Hout; [done|]. by intros [_ ?]%ownKeys_spec.
  - exfalso. revert Erun. apply assignOwnLevels_total.
    intros g k Hg. apply ownLevel_fuel. unfold levelFuel.
    rewrite (shape_dom _ _ Hg), <- size_dom.
    assert (size (dom g0 ∖ ∅) <= size (dom g0)) by (apply subseteq_size; set_solver).
    lia.
Qed.

(** Without inheritance the level computations never run out of fuel. *)
Lemma buildOwnGraph_total tasks : is_Some (buildOwnGraph tasks).
Proof.
  destruct (buildOwnGraph_levels tasks) as (graph & -> & _). by eexists.
Qed.

(** * Further properties *)

(** ** [validateAndNormalizeTasks]: when it throws, what it returns *)

Lemma mapiO_throws {A B} (f : nat -> A -> outcome B) i l :
  (exists e, mapiO f i l = Throw e) <->
  exists j a, l !! j = Some a /\ exists e, f (i + j) a = Throw e.
Proof.
  revert i. induction l as [|a l IH]; intros i; simpl.
  - split; [by intros [e ?] | by intros (j & a & ? & _)].
  - destruct (f i a) as [b|e] eqn:Ea; simpl.
    + destruct (mapiO f (S i) l) as [bs|e] eqn:El; simpl.
      * split; [by intros [e ?]|]. intros (j & x & Hj & e & He).
        destruct j as [|j]; simpl in Hj.
        -- injection Hj as <-. rewrite Nat.add_0_r in He. congruence.
        -- destruct (proj2 (IH (S i))) as [e' He']; [|congruence].
           exists j, x. split; [done|]. exists e.
           by replace (S i + j) with (i + S j) by lia.
      * split; [intros _|by eauto].
        destruct (proj1 (IH (S i))) as (j & x & Hj & e' & He'); [by eauto|].
        exists (S j), x. split; [done|]. exists e'.
        by replace (i + S j) with (S i + j) by lia.
    + split; [intros _|by eauto]. exists 0, a. split; [done|].
      exists e. by rewrite Nat.add_0_r.
Qed.

Lemma mapiO_returns {A B} (f : nat -> A -> outcome B) i l bs :
  mapiO f i l = Return bs ->
  Forall2 (fun a b => exists j, f j a = Return b) l bs.
Proof.
  revert i bs. induction l as [|a l IH]; intros i bs; simpl.
  - intros [= <-]. constructor.
  - destruct (f i a) as [b|e] eqn:Ea; simpl; [|done].
    destruct (mapiO f (S i) l) as [bs'|e] eqn:El; simpl; [|done].
    intros [= <-]. constructor; [by eauto | by eapply IH].
Qed.

Lemma normalizeTask_throws config index task :
  (exists e, normalizeTask config index task = Throw e) <-> unusableElement task.
Proof.
  unfold normalizeTask, unusableElement.
  destruct task as [|b|q|s|items|members]; cbn [getProp mbind outcome_bind titlePrefix];
    try (split; [by intros [e ?] | intros [?|(? & ? & ? & _)]; done]).
  - split; [by left | by eauto].
  - destruct (snd <$> List.find (fun m => jseqb (fst m) (js "title")) (rev members))
      as [v|] eqn:Ev; cbn [titlePrefix].
    + destruct v; cbn [mbind outcome_bind];
        try (split; [intros _; right; eexists _, _; repeat split; done | by eauto]).
      * split; [by intros [e ?]|]. intros [?|(ms & v & [= <-] & Hv & Hnull & _)]; [done|].
        rewrite Ev in Hv. by injection Hv as <-.
      * split; [by intros [e ?]|]. intros [?|(ms & v & [= <-] & Hv & _ & Hstr)]; [done|].
        rewrite Ev in Hv. injection Hv as <-. by destruct (Hstr s).
    + split; [by intros [e ?]|]. intros [?|(ms & v & [= <-] & Hv & _)]; [done|].
      by rewrite Ev in Hv.
Qed.

(** X1. Normalisation throws (and the fallback takes over) exactly when
    the parsed value is not an array, or one of the elements kept by
    [slice(0, maxTasks)] is [null] or has a title that is neither a
    string nor [null]. Elements beyond the limit never matter. *)
Theorem normalization_throws_iff aiTasks config :
  (exists e, validateAndNormalizeTasks aiTasks config = Throw e) <->
  (forall items, aiTasks <> JArray items) \/
  exists items task,
    aiTasks = JArray items /\
    In task (slice0 (maxTasks config) items) /\ unusableElement task.
Proof.
  unfold validateAndNormalizeTasks.
  destruct aiTasks as [|b|q|s|items|members];
    try (split; [intros _; by left | by eauto]).
  rewrite mapiO_throws. split.
  - intros (j & task & Hj & He). right. exists items, task. split; [done|].
    split; [by eapply list_elem_of_In, list_elem_of_lookup_2|].
    by eapply normalizeTask_throws.
  - intros [Hno|(items' & task & [= <-] & Hin & Hbad)]; [by destruct (Hno items)|].
    apply list_elem_of_In, list_elem_of_lookup in Hin as [j Hj].
    exists j, task. split; [done|]. by apply normalizeTask_throws.
Qed.

Lemma normalizeTask_returns config index task t :
  normalizeTask config index task = Return t ->
  ai_title t <> [] /\
  (length (ai_title t) <= 100 \/
   ai_title t = js "Generated Implementation Task " ++ natToString (index + 1)) /\
  truthy (Some (ai_description t)) = true /\
  (forall q, ai_estimatedHours t = Some q ->
     estimateHours config = true /\ (1 # 2 <= q)%Q /\ (q <= 40)%Q) /\
  (forall deps, ai_dependencies t = Some deps ->
     generateDependencies config = true /\
     forall dep, In dep deps -> isTaskIndex dep = true).
Proof.
  unfold normalizeTask.
  destruct (getProp task (js "title")) as [title|] eqn:Etitle; [|done].
  cbn [mbind outcome_bind].
  destruct (titlePrefix title) as [prefix|] eqn:Eprefix; [|done].
  destruct (getProp task (js "description")) as [description|] eqn:Edesc; [|done].
  destruct (getProp task (js "priority")) as [priority|]; [|done].
  destruct (getProp task (js "estimatedHours")) as [hours|]; [|done].
  destruct (getProp task (js "dependencies")) as [deps|]; [|done].
  cbn [mbind outcome_bind mret outcome_ret]. intros [= <-].
  cbn [ai_title ai_description ai_estimatedHours ai_dependencies].
  split; [|split; [|split; [|split]]].
  - destruct prefix as [[|c p]|]; done.
  - destruct prefix as [[|c p]|] eqn:Ep; [by right| |by right]. left.
    destruct title as [[]|]; try done. cbn [titlePrefix] in Eprefix.
    assert (c :: p = substring0 100 s) as -> by congruence.
    unfold substring0. rewrite length_take. lia.
  - destruct (truthy description) eqn:Ed.
    + by destruct description.
    + destruct (truthy title) eqn:Et; [by destruct title | done].
  - intros q. destruct hours as [[|b|h|s|items|members]|]; try done.
    destruct (estimateHours config); [|done]. simpl.
    destruct (negb (Qeq_bool h 0)); [|done]. intros [= <-].
    split; [done|]. split.
    + apply Q.le_max_l.
    + apply Q.max_lub; [done|]. apply Q.le_min_l.
  - intros ds. destruct deps as [[|b|h|s|items|members]|]; try done.
    destruct (generateDependencies config); [|done]. intros [= <-].
    split; [done|]. intros dep Hin.
    apply list_elem_of_In, list_elem_of_omap in Hin as (x & _ & Hx).
    unfold keepDependency in Hx. destruct x; try done.
    destruct (isTaskIndex s) eqn:Es; [|done]. by injection Hx as <-.
Qed.

(** X2. Every task the normaliser returns has a non-empty title of at
    most 100 code units (or the generated placeholder) and a truthy
    description. *)
Theorem normalized_titles aiTasks config tasks :
  validateAndNormalizeTasks aiTasks config = Return tasks ->
  forall t, In t tasks ->
    ai_title t <> [] /\
    (length (ai_title t) <= 100 \/
     exists n, ai_title t = js "Generated Implementation Task " ++ natToString n) /\
    truthy (Some (ai_description t)) = true.
Proof.
  unfold validateAndNormalizeTasks. destruct aiTasks; try done.
  intros Hmap%mapiO_returns t Hin.
  apply list_elem_of_In, list_elem_of_lookup in Hin as [i Hi].
  destruct (Forall2_lookup_r _ _ _ _ _ Hmap Hi) as (task & _ & j & Hj).
  apply normalizeTask_returns in Hj as (H1 & H2 & H3 & _).
  split; [done|]. split; [|done]. destruct H2; eauto.
Qed.

(** X3. An hour estimate appears only when estimates are requested, and
    then lies between 0.5 and 40; dependency hints appear only when
    requested, and then each one is [task-index-] followed by digits. *)
Theorem normalized_optional_fields aiTasks config tasks :
  validateAndNormalizeTasks aiTasks config = Return tasks ->
  forall t, In t tasks ->
    (forall q, ai_estimatedHours t = Some q ->
       estimateHours config = true /\ (1 # 2 <= q)%Q /\ (q <= 40)%Q) /\
    (forall deps, ai_dependencies t = Some deps ->
       generateDependencies config = true /\
       forall dep, In dep deps -> isTaskIndex dep = true).
Proof.
  unfold validateAndNormalizeTasks. destruct aiTasks; try done.
  intros Hmap%mapiO_returns t Hin.
  apply list_elem_of_In, list_elem_of_lookup in Hin as [i Hi].
  destruct (Forall2_lookup_r _ _ _ _ _ Hmap Hi) as (task & _ & j & Hj).
  by apply normalizeTask_returns in Hj as (_ & _ & _ & H4 & H5).
Qed.

(** X4. The normaliser returns one task per kept element: the first
    [maxTasks] elements of the array for [maxTasks >= 0], all but the
    last [-maxTasks] for a negative [maxTasks]. *)
Theorem normalized_count items config tasks :
  validateAndNormalizeTasks (JArray items) config = Return tasks ->
  ((0 <= maxTasks config)%Z ->
     length tasks = Nat.min (Z.to_nat (maxTasks config)) (length items)) /\
  ((maxTasks config < 0)%Z ->
     length tasks = length items - Z.to_nat (- maxTasks config)).
Proof.
  unfold validateAndNormalizeTasks. intros H%mapiO_length. rewrite H.
  unfold slice0. split; intros Hm.
  - destruct (Z.ltb_spec (maxTasks config) 0); [lia|]. by rewrite length_take.
  - destruct (Z.ltb_spec (maxTasks config) 0); [|lia]. rewrite length_take. lia.
Qed.

(** ** [parsePreviewPRP]: a closed form *)

Lemma trimStart_length s : length (trimStart s) <= length s.
Proof.
  induction s as [|c s IH]; simpl; [done|].
  destruct (isTrimSpace c); simpl; lia.
Qed.

Lemma trim_length s : length (trim s) <= length s.
Proof.
  unfold trim, trimEnd. rewrite length_rev.
  etrans; [apply trimStart_length|]. rewrite length_rev. apply trimStart_length.
Qed.

Lemma keyword_filter_blank lines :
  List.filter hasKeyword
    (List.filter (fun line => negb (bool_decide (trim line = []))) lines)
  = List.filter hasKeyword lines.
Proof.
  induction lines as [|line lines IH]; [done|]. simpl.
  destruct (hasKeyword line) eqn:Ek.
  - rewrite (keyword_line_survives line Ek). simpl. by rewrite Ek, IH.
  - destruct (negb _); simpl; by rewrite ?Ek, IH.
Qed.

Lemma previewLoop_closed_form config rand lines tasks :
  (Z.of_nat (length tasks) < maxTasks config)%Z \/ tasks = [] ->
  previewLoop config rand lines tasks
  = tasks ++
    imap (fun j line => previewTask config (rand (length tasks + j)) line)
      (take (Z.to_nat (Z.max 1 (maxTasks config)) - length tasks)
            (List.filter hasKeyword lines)).
Proof.
  revert tasks. induction lines as [|line rest IH]; intros tasks Hroom.
  - simpl. rewrite take_nil. simpl. by rewrite app_nil_r.
  - cbn [previewLoop List.filter]. destruct (hasKeyword line); [|by apply IH].
    assert (exists k, Z.to_nat (Z.max 1 (maxTasks config)) - length tasks = S k) as [k Hk].
    { exists (Z.to_nat (Z.max 1 (maxTasks config)) - length tasks - 1).
      destruct Hroom as [H| ->]; simpl; lia. }
    rewrite Hk. cbn [take imap]. rewrite Nat.add_0_r.
    rewrite length_app. cbn [length].
    destruct (Z.leb_spec (maxTasks config) (Z.of_nat (length tasks + 1))) as [Hfull|Hmore].
    + assert (k = 0) as -> by (destruct Hroom as [H| ->]; simpl in *; lia).
      by rewrite take_0.
    + rewrite IH by (left; rewrite length_app; simpl; lia).
      rewrite <- app_assoc. cbn [app]. rewrite length_app. cbn [length].
      replace (Z.to_nat (Z.max 1 (maxTasks config)) - (length tasks + 1)) with k by lia.
      do 2 f_equal. apply imap_ext. intros j x _. simpl. do 2 f_equal. lia.
Qed.

Lemma fallback_closed_form_aux rand prpContent projectContext config :
  parsePreviewPRP rand prpContent projectContext config
  = imap (fun j line => previewTask config (rand j) line)
      (take (Z.to_nat (Z.max 1 (maxTasks config))) (keywordLines prpContent)).
Proof.
  unfold parsePreviewPRP, keywordLines.
  rewrite previewLoop_closed_form by by right.
  cbn [app length]. rewrite Nat.sub_0_r, keyword_filter_blank. done.
Qed.

(** X5. The fallback list is obtained from the lines that contain a
    keyword, in their order: it takes the first [max(1, maxTasks)] of
    them and turns the line at position [j] into its task, with the
    [j]-th draw of [Math.random]. Blank lines and lines without keyword
    contribute nothing. *)
Theorem fallback_closed_form rand prpContent projectContext config :
  parsePreviewPRP rand prpContent projectContext config
  = imap (fun j line => previewTask config (rand j) line)
      (take (Z.to_nat (Z.max 1 (maxTasks config))) (keywordLines prpContent)).
Proof. apply fallback_closed_form_aux. Qed.

(** X6. The fallback returns [min(max(1, maxTasks), n)] tasks, [n] being
    the number of lines with a keyword; it returns the empty list
    exactly when no line contains a keyword. *)
Theorem fallback_count rand prpContent projectContext config :
  length (parsePreviewPRP rand prpContent projectContext config)
  = Nat.min (Z.to_nat (Z.max 1 (maxTasks config)))
            (length (keywordLines prpContent)) /\
  (parsePreviewPRP rand prpContent projectContext config = []
   <-> keywordLines prpContent = []).
Proof.
  unfold parsePreviewPRP.
  rewrite previewLoop_closed_form by by right.
  cbn [app length]. rewrite Nat.sub_0_r, keyword_filter_blank.
  fold (keywordLines prpContent). rewrite length_imap, length_take. split; [done|].
  split.
  - intros H%(f_equal length). rewrite length_imap, length_take in H.
    destruct (keywordLines prpContent); [done|]. simpl in H. lia.
  - intros ->. by rewrite take_nil.
Qed.

Lemma previewTask_shape config random line :
  let t := previewTask config random line in
  length (ai_title t) <= 100 /\
  (ai_priority t = HIGH \/ ai_priority t = MEDIUM) /\
  ai_dependencies t = None /\
  ai_description t = JString (trim line ++ validationReminder) /\
  (is_Some (ai_estimatedHours t) <-> estimateHours config = true).
Proof.
  cbn zeta. unfold previewTask. cbn [ai_title ai_priority ai_dependencies
    ai_description ai_estimatedHours].
  split; [|split; [|split; [|split]]]; try done.
  - etrans; [apply trim_length|]. unfold substring0. rewrite length_take. lia.
  - destruct (_ || _); [by left | by right].
  - destruct (estimateHours config); split; try done; first [by eexists | by intros []].
Qed.

(** X7. Every fallback task has a title of at most 100 code units, the
    priority high or medium, no dependencies, a description that ends
    with the validation reminder, and an hour estimate exactly when
    estimates are requested. *)
Theorem fallback_task_shape rand prpContent projectContext config t :
  In t (parsePreviewPRP rand prpContent projectContext config) ->
  length (ai_title t) <= 100 /\
  (ai_priority t = HIGH \/ ai_priority t = MEDIUM) /\
  ai_dependencies t = None /\
  (exists text, ai_description t = JString (text ++ validationReminder)) /\
  (is_Some (ai_estimatedHours t) <-> estimateHours config = true).
Proof.
  rewrite fallback_closed_form_aux. intros Hin.
  apply list_elem_of_In, list_elem_of_lookup in Hin as [j Hj].
  rewrite list_lookup_imap in Hj.
  destruct (take _ _ !! j) as [line|]; [|done]. simpl in Hj. injection Hj as <-.
  destruct (previewTask_shape config (rand j) line) as (H1 & H2 & H3 & H4 & H5).
  repeat split; try done; first [by eexists | apply H5].
Qed.

(** X8. When [Math.random] returns numbers in [[0, 1)], every estimate of
    a fallback task is one of the integers 1, ..., 8. *)
Theorem fallback_hours_range rand prpContent projectContext config t q :
  unitDraws rand ->
  In t (parsePreviewPRP rand prpContent projectContext config) ->
  ai_estimatedHours t = Some q ->
  exists h : Z, q = inject_Z h /\ (1 <= h <= 8)%Z.
Proof.
  intros Hrand. rewrite fallback_closed_form_aux. intros Hin.
  apply list_elem_of_In, list_elem_of_lookup in Hin as [j Hj].
  rewrite list_lookup_imap in Hj.
  destruct (take _ _ !! j) as [line|]; [|done]. simpl in Hj. injection Hj as <-.
  destruct (Hrand j) as [H0 H1]. by apply previewTask_hours.
Qed.

(** ** [validatePRPContent] *)

Lemma content_errors_distinct :
  tooShortError <> emptyContentError /\ tooShortError <> tooLongError /\
  tooShortError <> noContextError /\ tooLongError <> emptyContentError /\
  tooLongError <> noContextError.
Proof.
  repeat split; (eapply bool_decide_eq_false_1; vm_compute; reflexivity).
Qed.

(** X9. Content is accepted exactly when it is not blank, has between 50
    and 50,000 code units and (lower-cased) contains one of the ten
    content keywords. Content shorter than 50 is rejected whatever it
    says, the too-short and too-long errors never occur together, and at
    most three errors are reported. *)
Theorem validatePRPContent_accepts (toLowerCase : jsstring -> jsstring) content :
  let result := validatePRPContent toLowerCase content in
  (isValid result = true <->
     trim content <> [] /\ 50 <= length content <= 50000 /\
     hasImplementationContext toLowerCase content = true) /\
  (length content < 50 ->
     isValid result = false /\ In tooShortError (errors result)) /\
  ~ (In tooShortError (errors result) /\ In tooLongError (errors result)) /\
  length (errors result) <= 3.
Proof.
  cbn zeta. unfold validatePRPContent. cbn [isValid errors].
  destruct content_errors_distinct as (D1 & D2 & D3 & D4 & D5).
  assert (50 < 50000) as Hbig by (apply Nat.ltb_lt; vm_compute; reflexivity).
  revert Hbig. generalize 50000. intros big Hbig.
  destruct (bool_decide_reflect (trim content = [])) as [Hblank|Hblank];
    destruct (Nat.ltb_spec (length content) 50) as [Hshort|Hshort];
    destruct (Nat.ltb_spec big (length content)) as [Hlong|Hlong];
    destruct (hasImplementationContext toLowerCase content);
    try (exfalso; lia); cbn [app length In];
    rewrite ?bool_decide_eq_true, ?bool_decide_eq_false;
    (split; [split; [try discriminate; intros _; repeat split; try done; lia
                    | intros (H1 & H2 & H3); try done; try lia; try discriminate]
            |split; [intros Hlt; first [lia | split; [discriminate | tauto]]
                    |split; [intros [H1 H2]; intuition congruence | lia]]]).
Qed.

(** ** [sanitizeInput] *)

Lemma sanitizeInput_units input c :
  In c (sanitizeInput input) ->
  c <> 60%N /\ c <> 62%N /\ c <> 39%N /\ c <> 34%N.
Proof.
  unfold sanitizeInput. intros H%trim_incl.
  apply filter_In in H as [H Hq]. apply filter_In in H as [_ Ha].
  apply negb_true_iff, orb_false_iff in Hq as [H1 H2].
  apply negb_true_iff, orb_false_iff in Ha as [H3 H4].
  apply N.eqb_neq in H1, H2, H3, H4. done.
Qed.

Lemma filter_fixed {A} (keep : A -> bool) l :
  (forall x, In x l -> keep x = true) -> List.filter keep l = l.
Proof.
  induction l as [|x l IH]; intros H; [done|]. simpl.
  rewrite (H x) by by left. f_equal. apply IH. intros y Hy. apply H. by right.
Qed.

(** X10. [sanitizeInput] leaves no angle bracket and no quote of either
    kind, returns a trimmed string, and applying it twice is the same as
    applying it once. *)
Theorem sanitizeInput_idempotent input :
  sanitizeInput (sanitizeInput input) = sanitizeInput input /\
  (forall c, In c (sanitizeInput input) ->
     c <> 60%N /\ c <> 62%N /\ c <> 39%N /\ c <> 34%N) /\
  trim (sanitizeInput input) = sanitizeInput input.
Proof.
  split; [|split].
  - unfold sanitizeInput at 1.
    rewrite (filter_fixed _ (sanitizeInput input)).
    + rewrite (filter_fixed _ (sanitizeInput input)).
      * unfold sanitizeInput. apply trim_idem.
      * intros c (H1 & H2 & H3 & H4)%sanitizeInput_units.
        apply N.eqb_neq in H3, H4. by rewrite H3, H4.
    + intros c (H1 & H2 & H3 & H4)%sanitizeInput_units.
      apply N.eqb_neq in H1, H2. by rewrite H1, H2.
  - apply sanitizeInput_units.
  - unfold sanitizeInput. apply trim_idem.
Qed.

(** ** [dbTaskToTask] and the analytics *)

(** X11. Converting a row leaves an hours field that is a number or
    [undefined], never [null] or a string; converting twice changes
    nothing more; and the analytics read the same number from the
    converted field as from the raw one, so the hour totals of converted
    rows are the totals of the raw columns. *)
Theorem conversion_preserves_hours (parseFloat : jsstring -> number) :
  (forall value,
     (convertToNumber parseFloat value = HUndefined \/
      exists x, convertToNumber parseFloat value = HNumber x) /\
     convertToNumber parseFloat (convertToNumber parseFloat value)
       = convertToNumber parseFloat value /\
     safeToNumber parseFloat (convertToNumber parseFloat value)
       = safeToNumber parseFloat value) /\
  (forall rows,
     totalEstimatedHours
       (calculateProjectAnalytics parseFloat (List.map (dbTaskToTask parseFloat) rows))
     = fold_left (fun sum row =>
                    Number_add sum (safeToNumber parseFloat (db_estimated_hours row)))
         rows zero /\
     totalActualHours
       (calculateProjectAnalytics parseFloat (List.map (dbTaskToTask parseFloat) rows))
     = fold_left (fun sum row =>
                    Number_add sum (safeToNumber parseFloat (db_actual_hours row)))
         rows zero).
Proof.
  assert (forall value,
            safeToNumber parseFloat (convertToNumber parseFloat value)
            = safeToNumber parseFloat value) as Hsafe.
  { intros [| |x|s]; simpl; try done. by destruct (Number_isNaN (parseFloat s)). }
  split.
  - intros value. split; [|split; [|apply Hsafe]].
    + destruct value as [| |x|s]; simpl; eauto.
      destruct (Number_isNaN (parseFloat s)); eauto.
    + destruct value as [| |x|s]; simpl; try done.
      by destruct (Number_isNaN (parseFloat s)).
  - intros rows. unfold calculateProjectAnalytics.
    cbn [totalEstimatedHours totalActualHours]. unfold sumHours.
    split; generalize zero; induction rows as [|row rows IH]; intros a;
      try done; simpl; rewrite Hsafe; apply IH.
Qed.

(** X12. The counts of the analytics are additive over two collections
    put together. The hour totals are accumulated from left to right:
    the total of [l1 ++ l2] continues the total of [l1] over [l2]. It is
    not in general the sum of the two totals, because binary64 addition
    is not associative: hours 0.1 followed by 0.2 and 0.3 total
    0.6000000000000001, while 0.1 + (0.2 + 0.3) is 0.6. *)
Theorem analytics_additive (parseFloat : jsstring -> number) (l1 l2 : list Task) :
  let a := calculateProjectAnalytics parseFloat (l1 ++ l2) in
  let a1 := calculateProjectAnalytics parseFloat l1 in
  let a2 := calculateProjectAnalytics parseFloat l2 in
  (totalTasks a = totalTasks a1 + totalTasks a2 /\
   completedTasks a = completedTasks a1 + completedTasks a2 /\
   inProgressTasks a = inProgressTasks a1 + inProgressTasks a2 /\
   blockedTasks a = blockedTasks a1 + blockedTasks a2) /\
  (totalEstimatedHours a
   = fold_left (fun sum task =>
                  SFadd 53 1024 sum (safeToNumber parseFloat (task_estimatedHours task)))
       l2 (totalEstimatedHours a1) /\
   totalActualHours a
   = fold_left (fun sum task =>
                  SFadd 53 1024 sum (safeToNumber parseFloat (task_actualHours task)))
       l2 (totalActualHours a1)) /\
  let t1 := calculateProjectAnalytics parseFloat tenthHours in
  let t2 := calculateProjectAnalytics parseFloat fifthHours in
  let t := calculateProjectAnalytics parseFloat (tenthHours ++ fifthHours) in
  totalEstimatedHours t <> SFadd 53 1024 (totalEstimatedHours t1) (totalEstimatedHours t2).
Proof.
  cbn zeta. unfold calculateProjectAnalytics.
  cbn [totalTasks completedTasks inProgressTasks blockedTasks
       totalEstimatedHours totalActualHours].
  unfold countStatus, sumHours.
  rewrite !List.filter_app, !length_app, !fold_left_app.
  split; [done|]. split; [done|]. vm_compute. discriminate.
Qed.

Lemma countStatus_le s tasks : countStatus s tasks <= length tasks.
Proof.
  unfold countStatus. induction tasks as [|t tasks IH]; simpl; [done|].
  destruct (bool_decide _); simpl; lia.
Qed.

Lemma counts_partition tasks :
  countStatus DONE tasks + countStatus IN_PROGRESS tasks + countStatus BLOCKED tasks
  <= length tasks.
Proof.
  unfold countStatus. induction tasks as [|t tasks IH]; simpl; [done|].
  destruct (task_status t); simpl; lia.
Qed.

(** Integers that are not negative, their products and their quotients
    have a clear sign bit. *)
Lemma binary_round_aux_notNegative mx ex lx :
  notNegative (binary_round_aux 53 1024 false mx ex lx).
Proof.
  by destruct (binary_round_aux_sign false mx ex lx)
    as [-> | [-> | [-> | (m' & e' & ->)]]].
Qed.

Lemma Number_ofZ_notNegative z : (0 <= z)%Z -> notNegative (Number_ofZ z).
Proof.
  intros Hz. unfold Number_ofZ, binary_normalize.
  destruct z as [|m|m]; [done| |lia].
  unfold binary_round. destruct (shl_align _ _ _) as [mz ez].
  apply binary_round_aux_notNegative.
Qed.

Lemma Number_mul_notNegative x y :
  notNegative x -> notNegative y -> notNegative (Number_mul x y).
Proof.
  destruct x as [sx|sx| |sx mx ex], y as [sy|sy| |sy my ey]; simpl;
    try done; intros -> ->; try done.
  apply binary_round_aux_notNegative.
Qed.

Lemma Number_div_notNegative x y :
  notNegative x -> notNegative y -> notNegative (Number_div x y).
Proof.
  destruct x as [sx|sx| |sx mx ex], y as [sy|sy| |sy my ey]; simpl;
    try done; intros -> ->; try done.
  unfold Number_div, SFdiv. simpl xorb.
  destruct (SFdiv_core_binary 53 1024 (Z.pos mx) ex (Z.pos my) ey) as [[mz ez] lz].
  apply binary_round_aux_notNegative.
Qed.

Lemma positive_notNegative x : SFltb (S754_zero false) x = true -> notNegative x.
Proof. by destruct x as [s|[]| |[] m e]. Qed.

Lemma notNegative_not_below x : notNegative x -> SFltb x (S754_zero false) = false.
Proof. destruct x as [s|s| |s m e]; simpl; try done; by intros ->. Qed.

(** X13. The status counts never add up to more than the number of
    tasks; both rates are [NaN] or have a clear sign bit, so neither is
    ever below zero; the efficiency ratio is above zero only when both
    hour totals are, and it is the literal [0] as soon as one total is
    not above zero. *)
Theorem analytics_ranges (parseFloat : jsstring -> number) (tasks : list Task) :
  let a := calculateProjectAnalytics parseFloat tasks in
  completedTasks a + inProgressTasks a + blockedTasks a <= totalTasks a /\
  (notNegative (completionRate a) /\
   SFltb (completionRate a) (S754_zero false) = false) /\
  (notNegative (efficiencyRatio a) /\
   SFltb (efficiencyRatio a) (S754_zero false) = false) /\
  (SFltb (S754_zero false) (efficiencyRatio a) = true ->
   SFltb (S754_zero false) (totalEstimatedHours a) = true /\
   SFltb (S754_zero false) (totalActualHours a) = true) /\
  (SFltb (S754_zero false) (totalEstimatedHours a) = false \/
   SFltb (S754_zero false) (totalActualHours a) = false ->
   efficiencyRatio a = S754_zero false).
Proof.
  cbn zeta. unfold calculateProjectAnalytics.
  cbn [totalTasks completedTasks inProgressTasks blockedTasks completionRate
       efficiencyRatio totalEstimatedHours totalActualHours].
  split; [apply counts_partition|].
  set (e := sumHours parseFloat task_estimatedHours tasks).
  set (h := sumHours parseFloat task_actualHours tasks).
  assert (forall x, notNegative x ->
            notNegative x /\ SFltb x (S754_zero false) = false) as Hboth
    by (intros x Hx; split; [done | by apply notNegative_not_below]).
  split.
  { apply Hboth. destruct (0 <? length tasks); [|done].
    apply Number_mul_notNegative; [|by apply Number_ofZ_notNegative].
    apply Number_div_notNegative; apply Number_ofZ_notNegative; lia. }
  unfold Number_lt, zero.
  destruct (SFltb (S754_zero false) e) eqn:He,
           (SFltb (S754_zero false) h) eqn:Hh; cbn [andb].
  - split; [|split; [done|]].
    + apply Hboth, Number_mul_notNegative; [|by apply Number_ofZ_notNegative].
      by apply Number_div_notNegative; apply positive_notNegative.
    + by intros [|].
  - split; [by apply Hboth|]. split; [done|]. by intros _.
  - split; [by apply Hboth|]. split; [done|]. by intros _.
  - split; [by apply Hboth|]. split; [done|]. by intros _.
Qed.

(** ** [validateTaskDependencies]: what a valid result guarantees *)

Lemma depEdge_other taskId dependencies allTasks from to :
  from <> taskId ->
  depEdge taskId dependencies allTasks from to -> storedEdge allTasks from to.
Proof.
  unfold depEdge, storedEdge, currentDeps, jseqb. intros Hne.
  by rewrite bool_decide_eq_false_2.
Qed.

Lemma depEdge_root taskId dependencies allTasks to :
  depEdge taskId dependencies allTasks taskId to <-> In to dependencies.
Proof.
  unfold depEdge, currentDeps, jseqb. by rewrite bool_decide_eq_true_2.
Qed.

(** A path of the proposed graph either avoids the edges of [taskId]
    altogether or passes through [taskId]. *)
Lemma proposed_path_cases taskId dependencies allTasks x y :
  tc (depEdge taskId dependencies allTasks) x y ->
  tc (storedEdge allTasks) x y \/
  (rtc (depEdge taskId dependencies allTasks) x taskId /\
   tc (depEdge taskId dependencies allTasks) taskId y).
Proof.
  intros H. induction H as [x y H|x z y H Hrest IH].
  - destruct (decide (x = taskId)) as [->|Hne].
    + right. split; [done | by apply tc_once].
    + left. apply tc_once. by eapply depEdge_other.
  - destruct (decide (x = taskId)) as [->|Hne].
    + right. split; [done | by eapply tc_l].
    + destruct IH as [IH|[IH1 IH2]].
      * left. eapply tc_l; [|done]. by eapply depEdge_other.
      * right. split; [by eapply rtc_l | done].
Qed.

Lemma valid_result_facts taskId dependencies allTasks result :
  validateTaskDependencies taskId dependencies allTasks = Some result ->
  isValid result = true ->
  ~ In taskId dependencies /\
  ~ tc (depEdge taskId dependencies allTasks) taskId taskId /\
  projectErrors taskId dependencies allTasks = [].
Proof.
  intros Hres Hvalid.
  destruct dependencies as [|d rest] eqn:Edeps.
  - split; [by intros []|]. split.
    + intros (w & Hw & _)%tc_first_step. by apply depEdge_root in Hw.
    + unfold projectErrors.
      by destruct (task_projectId <$> findTask taskId allTasks) as [[|c p]|].
  - rewrite <- Edeps in *.
    destruct (validate_unfold taskId dependencies allTasks) as (cyclic & st & _ & Hiff & Heq);
      [by rewrite Edeps|].
    rewrite Heq in Hres. injection Hres as <-. cbn [isValid] in Hvalid.
    apply bool_decide_eq_true in Hvalid.
    apply app_eq_nil in Hvalid as [Hself Hrest].
    apply app_eq_nil in Hrest as [Hcyc Hproj].
    split; [|split; [|done]].
    + intros Hin. rewrite bool_decide_eq_true_2 in Hself by by apply list_elem_of_In.
      done.
    + intros Hloop. destruct cyclic; [done|].
      assert (false = true) as Habs; [|done].
      apply Hiff. by exists taskId.
Qed.

(** X14. A valid result means: the task does not list itself, no cycle
    is reachable from it through the proposed dependencies, and, when the
    task is in the list with a non-empty project id, every proposed
    dependency is a task of that same project. *)
Theorem valid_dependencies_sound taskId dependencies allTasks result :
  validateTaskDependencies taskId dependencies allTasks = Some result ->
  isValid result = true ->
  ~ In taskId dependencies /\
  ~ tc (depEdge taskId dependencies allTasks) taskId taskId /\
  forall task, findTask taskId allTasks = Some task ->
    task_projectId task <> [] ->
    forall depId, In depId dependencies ->
      exists depTask, findTask depId allTasks = Some depTask /\
                      task_projectId depTask = task_projectId task.
Proof.
  intros Hres Hvalid.
  destruct (valid_result_facts _ _ _ _ Hres Hvalid) as (Hself & Hcyc & Hproj).
  split; [done|]. split; [done|].
  intros task Htask Hp depId Hdep.
  unfold projectErrors in Hproj. rewrite Htask in Hproj. simpl in Hproj.
  destruct (task_projectId task) as [|c p] eqn:Ep; [done|].
  assert (forall e, ~ In e
            (match findTask depId allTasks with
             | Some depTask =>
                 if jseqb (task_projectId depTask) (c :: p) then []
                 else [otherProjectError depId]
             | None => [notFoundError depId]
             end)) as Hnone.
  { intros e He.
    assert (In e []) as []. rewrite <- Hproj. apply in_flat_map. eauto. }
  destruct (findTask depId allTasks) as [depTask|].
  - exists depTask. split; [done|]. unfold jseqb in Hnone.
    destruct (bool_decide_reflect (task_projectId depTask = c :: p)); [done|].
    destruct (Hnone (otherProjectError depId)). by left.
  - destruct (Hnone (notFoundError depId)). by left.
Qed.

(** X15. Validation keeps the graph acyclic: if the stored dependencies
    have no cycle and the proposed dependencies of [taskId] are found
    valid, then the graph with [taskId]'s dependencies replaced by the
    proposed ones has no cycle either. *)
Theorem validation_preserves_acyclicity taskId dependencies allTasks result :
  (forall node, ~ tc (storedEdge allTasks) node node) ->
  validateTaskDependencies taskId dependencies allTasks = Some result ->
  isValid result = true ->
  forall node, ~ tc (depEdge taskId dependencies allTasks) node node.
Proof.
  intros Hstored Hres Hvalid node Hcycle.
  destruct (valid_result_facts _ _ _ _ Hres Hvalid) as (_ & Hroot & _).
  apply proposed_path_cases in Hcycle as [Hold|[Hto Hfrom]].
  - by apply (Hstored node).
  - apply Hroot. by eapply tc_rtc_r.
Qed.

(** ** [buildTaskDependencyGraph]: keys, nodes, dependents, bounds *)

Lemma appendDependents_nil n : appendDependents [] n = n.
Proof. destruct n. unfold appendDependents. simpl. by rewrite app_nil_r. Qed.

Lemma appendDependents_push who more n :
  appendDependents more (pushDependent who n) = appendDependents (who :: more) n.
Proof. unfold appendDependents, pushDependent. simpl. by rewrite <- app_assoc. Qed.

Lemma appendDependents_append l1 l2 n :
  appendDependents l2 (appendDependents l1 n) = appendDependents (l1 ++ l2) n.
Proof. unfold appendDependents. simpl. by rewrite <- app_assoc. Qed.

Lemma push_all_lookup (who : jsstring) (deps : list jsstring)
    (g : TaskDependencyGraph) (d : jsstring) :
  fold_left (fun graph depId => alter (pushDependent who) depId graph) deps g !! d
  = appendDependents
      (List.map (fun _ => who) (List.filter (fun x => jseqb x d) deps))
    <$> g !! d.
Proof.
  revert g. induction deps as [|x deps IH]; intros g; simpl.
  - destruct (g !! d) as [n|]; simpl; [by rewrite appendDependents_nil | done].
  - rewrite IH. unfold jseqb at 2. destruct (bool_decide_reflect (x = d)) as [->|Hne].
    + rewrite lookup_alter_eq. destruct (g !! d) as [n|]; simpl; [|done].
      by rewrite appendDependents_push.
    + by rewrite lookup_alter_ne.
Qed.

Lemma invertEdges_lookup (tasks : list Task) (g : TaskDependencyGraph)
    (d : jsstring) :
  invertEdges tasks g !! d = appendDependents (pushedOn d tasks) <$> g !! d.
Proof.
  unfold invertEdges, pushedOn. revert g.
  induction tasks as [|task tasks IH]; intros g; simpl.
  - destruct (g !! d) as [n|]; simpl; [by rewrite appendDependents_nil | done].
  - rewrite IH, push_all_lookup. destruct (g !! d) as [n|]; simpl; [|done].
    by rewrite appendDependents_append.
Qed.

Lemma initGraph_keys tasks k :
  is_Some (initGraph tasks !! k) <-> In k (List.map task_id tasks).
Proof.
  split.
  - intros [node (task & Hin & <- & _)%initGraph_lookup]. by apply in_map.
  - unfold initGraph.
    assert (forall acc : TaskDependencyGraph,
              is_Some (acc !! k) \/ In k (List.map task_id tasks) ->
              is_Some (fold_left (fun graph task => <[task_id task := initNode task]> graph)
                         tasks acc !! k)) as Hgen.
    { induction tasks as [|t tasks IH]; intros acc; simpl.
      - by intros [?|[]].
      - intros [Hacc|[Heq|Hin]]; apply IH.
        + left. destruct (decide (task_id t = k)) as [->|Hne].
          * rewrite lookup_insert_eq. by eexists.
          * by rewrite lookup_insert_ne.
        + left. rewrite Heq, lookup_insert_eq. by eexists.
        + by right. }
    intros Hin. apply Hgen. by right.
Qed.

(** The graph the loops build without inheritance, key by key. The
    prototype slot gets no level. *)
Lemma buildOwnGraph_lookup tasks :
  exists graph,
    buildOwnGraph tasks = Some graph /\
    forall k,
      graph !! k
      = setLevel (if decide (k = protoKey) then 0
                  else levelOf (invertEdges tasks (initGraph tasks)) k)
        <$> (appendDependents (pushedOn k tasks) <$> initGraph tasks !! k).
Proof.
  destruct (buildOwnGraph_total tasks) as [graph Hbuild].
  exists graph. split; [done|]. unfold buildOwnGraph in Hbuild.
  set (g0 := invertEdges tasks (initGraph tasks)) in *.
  apply assignOwnLevels_spec in Hbuild as [_ Hkeys]; [|apply ownKeys_NoDup].
  intros k. destruct (Hkeys k) as [Hin Hout].
  destruct (decide (k = protoKey)) as [->|Hne].
  - rewrite Hout by (by intros [_ ?]%ownKeys_spec).
    unfold g0. rewrite invertEdges_lookup.
    destruct (initGraph tasks !! protoKey) as [n|] eqn:En; [|done].
    by apply initGraph_lookup in En as (t0 & _ & _ & ->).
  - rewrite <- invertEdges_lookup. fold g0.
    destruct (g0 !! k) as [n0|] eqn:E0.
    + destruct Hin as (l & Hl & ->); [apply ownKeys_spec; by rewrite E0|].
      rewrite levelOf_computed in Hl. by injection Hl as <-.
    + rewrite Hout; [done|]. intros [Hs _]%ownKeys_spec. rewrite E0 in Hs.
      by destruct Hs.
Qed.

(** *** Inherited properties *)

Lemma inherits_spec (g : TaskDependencyGraph) (k : jsstring) :
  inherits g k = true <->
  g !! k = None /\
  (In k objectPrototypeNames \/
   (is_Some (g !! protoKey) /\ In k [js "task"; js "dependencies"; js "dependents"])).
Proof.
  unfold inherits, getProperty. destruct (g !! k) as [n|]; [by split; [|intros []]|].
  destruct (bool_decide_reflect (k ∈ objectPrototypeNames)) as [Hin|Hout].
  { split; [|done]. intros _. split; [done|]. left. by apply list_elem_of_In. }
  assert (~ In k objectPrototypeNames) as Hout'
    by (intros ?; by apply Hout, list_elem_of_In).
  destruct (g !! protoKey) as [proto|].
  - unfold jseqb.
    destruct (bool_decide_reflect (k = js "task")) as [->|H1].
    { split; [|done]. intros _. split; [done|]. right. split; [by eexists|]. by left. }
    destruct (bool_decide_reflect (k = js "dependencies")) as [->|H2].
    { split; [|done]. intros _. split; [done|]. right. split; [by eexists|].
      right. by left. }
    destruct (bool_decide_reflect (k = js "dependents")) as [->|H3].
    { split; [|done]. intros _. split; [done|]. right. split; [by eexists|].
      right. right. by left. }
    cbn [orb]. split; [done|]. intros [_ [?|[_ [?|[?|[?|[]]]]]]]; congruence.
  - split; [done|]. intros [_ [?|[[? ?] _]]]; done.
Qed.

Lemma inherits_dom (g1 g2 : TaskDependencyGraph) (k : jsstring) :
  dom g1 = dom g2 -> inherits g1 k = inherits g2 k.
Proof.
  intros Hdom.
  assert (forall x, g1 !! x = None <-> g2 !! x = None) as Hnone.
  { intros x. by rewrite <- !not_elem_of_dom, Hdom. }
  assert (forall x, is_Some (g1 !! x) <-> is_Some (g2 !! x)) as Hsome.
  { intros x. by rewrite <- !elem_of_dom, Hdom. }
  destruct (inherits g1 k) eqn:E1, (inherits g2 k) eqn:E2; try done.
  - apply inherits_spec in E1. rewrite Hnone, Hsome in E1.
    apply inherits_spec in E1. congruence.
  - apply inherits_spec in E2. rewrite <- Hnone, <- Hsome in E2.
    apply inherits_spec in E2. congruence.
Qed.

Lemma getProperty_plain (g : TaskDependencyGraph) (k : jsstring) :
  inherits g k = false ->
  getProperty g k = match g !! k with
                    | Some n => PNode n
                    | None => PUndefined
                    end.
Proof.
  unfold inherits. destruct (getProperty g k) eqn:E; try done; intros _.
  - unfold getProperty in E. destruct (g !! k); [done|].
    destruct (bool_decide _); [done|]. destruct (g !! protoKey); [|done].
    destruct (jseqb _ _); [done|]. by destruct (_ || _).
  - unfold getProperty in E. by destruct (g !! k).
Qed.

Lemma inherits_initGraph (tasks : list Task) (k : jsstring) :
  inherits (initGraph tasks) k = true <-> inheritedName tasks k.
Proof.
  rewrite inherits_spec. unfold inheritedName.
  rewrite <- !initGraph_keys, eq_None_not_Some. done.
Qed.

(** *** The second loop *)

Lemma pushAll_plain (who : jsstring) (deps : list jsstring) (g : TaskDependencyGraph) :
  (forall d, In d deps -> inherits g d = false) ->
  pushAll who deps g
  = Return (fold_left (fun graph depId => alter (pushDependent who) depId graph)
              deps g).
Proof.
  revert g. induction deps as [|d deps IH]; intros g Hplain; [done|].
  simpl. unfold pushOn. rewrite getProperty_plain by (apply Hplain; by left).
  assert (forall g', dom g' = dom g ->
            forall x, In x deps -> inherits g' x = false) as Hnext.
  { intros g' Hdom x Hx. rewrite (inherits_dom g' g) by done. apply Hplain. by right. }
  destruct (g !! d) as [n|] eqn:Ed; simpl.
  - apply IH, Hnext. by rewrite dom_alter_L.
  - assert (alter (pushDependent who) d g = g) as ->
      by (apply map_eq; intros i; destruct (decide (d = i)) as [->|];
          [by rewrite lookup_alter_eq, Ed | by rewrite lookup_alter_ne]).
    by apply IH, Hnext.
Qed.

Lemma pushAll_throws (who : jsstring) (deps : list jsstring) (g : TaskDependencyGraph) :
  (exists d, In d deps /\ inherits g d = true) ->
  pushAll who deps g = Throw cannotReadPush.
Proof.
  revert g. induction deps as [|d deps IH]; intros g (x & Hx & Hinh); [done|].
  simpl. unfold pushOn. destruct (inherits g d) eqn:Ed.
  - unfold inherits in Ed. by destruct (getProperty g d).
  - destruct Hx as [->|Hx]; [congruence|].
    rewrite getProperty_plain by done. destruct (g !! d) as [n|]; simpl.
    + apply IH. exists x. split; [done|].
      rewrite (inherits_dom _ g); [done|]. by rewrite dom_alter_L.
    + apply IH. by exists x.
Qed.

Lemma push_all_dom (who : jsstring) (deps : list jsstring) (g : TaskDependencyGraph) :
  dom (fold_left (fun graph depId => alter (pushDependent who) depId graph) deps g)
  = dom g.
Proof.
  revert g. induction deps as [|d deps IH]; intros g; [done|].
  simpl. by rewrite IH, dom_alter_L.
Qed.

Lemma addDependents_plain (tasks : list Task) (g : TaskDependencyGraph) :
  (forall task d, In task tasks -> In d (depsOrEmpty (task_dependencies task)) ->
                  inherits g d = false) ->
  addDependents tasks g = Return (invertEdges tasks g).
Proof.
  unfold invertEdges. revert g.
  induction tasks as [|task tasks IH]; intros g Hplain; [done|].
  simpl.
  assert (match task_dependencies task with
          | Some deps => pushAll (task_id task) deps g
          | None => Return g
          end
          = Return (fold_left (fun graph depId =>
                                 alter (pushDependent (task_id task)) depId graph)
                      (depsOrEmpty (task_dependencies task)) g)) as ->.
  { pose proof (Hplain task) as Htask.
    destruct (task_dependencies task) as [deps|]; [|done].
    apply pushAll_plain. intros d Hd. apply Htask; [by left | done]. }
  simpl. apply IH. intros t d Ht Hd.
  rewrite (inherits_dom _ g) by apply push_all_dom. apply (Hplain t); [by right | done].
Qed.

Lemma addDependents_throws (tasks : list Task) (g : TaskDependencyGraph) :
  (exists task d, In task tasks /\ In d (depsOrEmpty (task_dependencies task)) /\
                  inherits g d = true) ->
  addDependents tasks g = Throw cannotReadPush.
Proof.
  revert g. induction tasks as [|task tasks IH];
    intros g (t & d & Ht & Hd & Hinh); [done|].
  simpl.
  destruct (existsb (inherits g) (depsOrEmpty (task_dependencies task))) eqn:Ehere.
  - apply existsb_exists in Ehere.
    destruct (task_dependencies task) as [deps|]; [|by destruct Ehere as (? & [] & _)].
    by rewrite pushAll_throws.
  - assert (forall x, In x (depsOrEmpty (task_dependencies task)) ->
                      inherits g x = false) as Hplain.
    { intros x Hx. destruct (inherits g x) eqn:E; [|done].
      assert (existsb (inherits g) (depsOrEmpty (task_dependencies task)) = true)
        by (apply existsb_exists; eauto).
      congruence. }
    destruct Ht as [->|Ht]; [rewrite Hplain in Hinh; done|].
    destruct (task_dependencies task) as [deps|]; simpl.
    + rewrite pushAll_plain by done. simpl. apply IH. exists t, d.
      split; [done|]. split; [done|].
      by rewrite (inherits_dom _ g) by apply push_all_dom.
    + apply IH. eauto.
Qed.

(** *** [calculateLevel] and the third loop *)

Lemma levelLoop_plain (rec : jsstring -> gset jsstring -> option (outcome nat))
    (rec' : jsstring -> gset jsstring -> option nat)
    (g : TaskDependencyGraph) (seen : gset jsstring)
    (deps : list jsstring) (acc : nat) :
  (forall d, In d deps -> inherits g d = false) ->
  (forall d, In d deps -> is_Some (g !! d) -> rec d seen = Return <$> rec' d seen) ->
  levelLoop rec g seen deps acc = Return <$> ownLevelLoop rec' g seen deps acc.
Proof.
  revert acc. induction deps as [|d deps IH]; intros acc Hplain Hrec; [done|].
  simpl. rewrite getProperty_plain by (apply Hplain; by left).
  destruct (g !! d) as [n|] eqn:Ed.
  - rewrite Hrec; [|by left|by rewrite Ed].
    destruct (rec' d seen) as [l|]; simpl; [|done].
    apply IH; intros x Hx; [apply Hplain | apply Hrec]; by right.
  - apply IH; intros x Hx; [apply Hplain | apply Hrec]; by right.
Qed.

Lemma calculateLevel_plain (fuel : nat) (g : TaskDependencyGraph) (k : jsstring)
    (seen : gset jsstring) :
  plainGraph g -> inherits g k = false ->
  calculateLevel fuel g k seen = Return <$> ownLevel fuel g k seen.
Proof.
  intros Hplain. revert k seen.
  induction fuel as [|fuel IH]; intros k seen Hk; [done|].
  cbn [calculateLevel ownLevel]. destruct (decide (k ∈ seen)) as [|Hnew]; [done|].
  rewrite getProperty_plain by done.
  destruct (g !! k) as [n|] eqn:Ek; [|done].
  destruct (node_dependencies n) as [|d rest] eqn:Edeps; [done|].
  apply levelLoop_plain.
  - intros x Hx. apply (Hplain k n); [done | by rewrite Edeps].
  - intros x Hx _. apply IH. apply (Hplain k n); [done | by rewrite Edeps].
Qed.

Lemma plainGraph_shape (g1 g2 : TaskDependencyGraph) :
  shape g1 = shape g2 -> plainGraph g1 -> plainGraph g2.
Proof.
  intros Hshape Hplain k n d Hk Hd.
  destruct (shape_deps g2 g1 k n (eq_sym Hshape) Hk) as (n1 & Hk1 & Hdeps).
  rewrite (inherits_dom g2 g1) by (symmetry; by apply shape_dom).
  apply (Hplain k n1); [done | by rewrite Hdeps].
Qed.

Lemma assignLevels_plain (fuel : nat) (keys : list jsstring) (g : TaskDependencyGraph) :
  plainGraph g -> (forall k, In k keys -> is_Some (g !! k)) ->
  assignLevels fuel keys g = Return <$> assignOwnLevels fuel keys g.
Proof.
  revert g. induction keys as [|key rest IH]; intros g Hplain Hkeys; [done|].
  simpl. rewrite calculateLevel_plain; [|done|].
  - destruct (ownLevel fuel g key ∅) as [l|]; simpl; [|done].
    apply IH.
    + eapply plainGraph_shape; [|exact Hplain]. symmetry. by apply shape_alter.
    + intros k Hk. apply elem_of_dom. rewrite dom_alter_L. apply elem_of_dom.
      apply Hkeys. by right.
  - destruct (Hkeys key) as [n Hn]; [by left|].
    destruct (inherits g key) eqn:E; [|done].
    apply inherits_spec in E as [E _]. congruence.
Qed.

(** *** The whole function *)

Lemma buildTaskDependencyGraph_plain (tasks : list Task) :
  plainDependencies tasks ->
  buildTaskDependencyGraph tasks = Return <$> buildOwnGraph tasks.
Proof.
  intros Hplain. unfold buildTaskDependencyGraph, buildOwnGraph.
  assert (forall task d, In task tasks -> In d (depsOrEmpty (task_dependencies task)) ->
            inherits (initGraph tasks) d = false) as Hinit.
  { intros task d Ht Hd. destruct (inherits (initGraph tasks) d) eqn:E; [|done].
    apply inherits_initGraph in E. by destruct (Hplain task d). }
  rewrite addDependents_plain by done.
  set (g0 := invertEdges tasks (initGraph tasks)).
  apply assignLevels_plain.
  - eapply plainGraph_shape; [symmetry; apply invertEdges_shape|].
    intros k n d Hk Hd. apply initGraph_lookup in Hk as (task & Ht & _ & ->).
    by apply (Hinit task).
  - by intros k [? _]%ownKeys_spec.
Qed.

Lemma buildTaskDependencyGraph_throws (tasks : list Task) :
  (exists task depId,
     In task tasks /\ In depId (depsOrEmpty (task_dependencies task)) /\
     inheritedName tasks depId) ->
  buildTaskDependencyGraph tasks = Some (Throw cannotReadPush).
Proof.
  intros (task & d & Ht & Hd & Hinh). unfold buildTaskDependencyGraph.
  rewrite addDependents_throws; [done|]. exists task, d.
  split; [done|]. split; [done|]. by apply inherits_initGraph.
Qed.

(** *** The tasks behind the nodes *)

Lemma initGraph_kept (tasks : list Task) (k : jsstring) :
  initGraph tasks !! k = initNode <$> keptTask tasks k.
Proof.
  unfold initGraph, keptTask, findTask.
  rewrite <- fold_left_rev_right. induction (rev tasks) as [|t l IH]; [done|].
  simpl. unfold jseqb. destruct (bool_decide_reflect (task_id t = k)) as [->|Hne].
  - by rewrite lookup_insert_eq.
  - by rewrite lookup_insert_ne.
Qed.

Lemma keptTask_In (tasks : list Task) (k : jsstring) (task : Task) :
  keptTask tasks k = Some task -> In task tasks /\ task_id task = k.
Proof.
  unfold keptTask. intros [Hin Hid]%findTask_In. split; [|done].
  by apply in_rev.
Qed.

Lemma keptTask_is_Some (tasks : list Task) (k : jsstring) :
  is_Some (keptTask tasks k) <-> In k (List.map task_id tasks).
Proof.
  rewrite <- initGraph_keys, initGraph_kept. apply symmetry, fmap_is_Some.
Qed.

(** With distinct ids every task is the one kept for its id. *)
Lemma keptTask_unique (tasks : list Task) (task : Task) :
  NoDup (List.map task_id tasks) -> In task tasks ->
  keptTask tasks (task_id task) = Some task.
Proof.
  intros Hnodup Hin.
  destruct (keptTask tasks (task_id task)) as [other|] eqn:E.
  - apply keptTask_In in E as [Hother Hid]. f_equal.
    apply list_elem_of_In, list_elem_of_lookup in Hin as [i Hi].
    apply list_elem_of_In, list_elem_of_lookup in Hother as [j Hj].
    assert (i = j) as ->.
    { eapply NoDup_lookup; [exact Hnodup| |].
      - by rewrite list_lookup_fmap, Hi.
      - by rewrite list_lookup_fmap, Hj; simpl; rewrite Hid. }
    congruence.
  - exfalso. apply eq_None_not_Some in E. apply E, keptTask_is_Some. by apply in_map.
Qed.

Lemma graphEdge_taskEdge (tasks : list Task) (from to : jsstring) :
  graphEdge (initGraph tasks) from to <-> taskEdge tasks from to.
Proof.
  unfold graphEdge, taskEdge. setoid_rewrite initGraph_kept. split.
  - intros (node & Hnode & Hin & Hto).
    destruct (keptTask tasks from) as [task|]; [|done]. injection Hnode as <-.
    exists task. split; [done|]. split; [done|]. by apply fmap_is_Some in Hto.
  - intros (task & -> & Hin & Hto). exists (initNode task).
    split; [done|]. split; [done|]. by apply fmap_is_Some.
Qed.

Lemma nsteps_iff {A} (R1 R2 : relation A) (n : nat) (x y : A) :
  (forall a b, R1 a b -> R2 a b) -> nsteps R1 n x y -> nsteps R2 n x y.
Proof.
  intros H Hsteps. induction Hsteps as [|n a b c Hab _ IH]; [constructor|].
  econstructor; [by apply H | done].
Qed.

Lemma ownLevel_bound (fuel : nat) (g : TaskDependencyGraph)
    (k : jsstring) (seen : gset jsstring) (l : nat) :
  ownLevel fuel g k seen = Some l -> l <= size (dom g ∖ seen).
Proof.
  revert k seen l. induction fuel as [|fuel IH]; intros k seen l; [done|].
  cbn [ownLevel]. destruct (decide (k ∈ seen)) as [|Hnew]; [intros [= <-]; lia|].
  destruct (g !! k) as [n|] eqn:Ek; [|intros [= <-]; lia].
  destruct (node_dependencies n) as [|d0 rest0]; [intros [= <-]; lia|].
  assert (dom g ∖ ({[k]} ∪ seen) ⊂ dom g ∖ seen) as Hsub.
  { split; [set_solver|]. intros Hback. specialize (Hback k).
    assert (k ∈ dom g) by (apply elem_of_dom; by rewrite Ek). set_solver. }
  apply subset_size in Hsub.
  intros (_ & _ & [->|(d & ld & _ & _ & Hd & ->)])%ownLevelLoop_result; [lia|].
  apply IH in Hd. lia.
Qed.

Lemma initGraph_size tasks : size (initGraph tasks) <= length tasks.
Proof.
  unfold initGraph.
  assert (forall acc : TaskDependencyGraph,
            size (fold_left (fun graph task => <[task_id task := initNode task]> graph)
                    tasks acc) <= size acc + length tasks) as Hgen.
  { induction tasks as [|t tasks IH]; intros acc; simpl; [lia|].
    etrans; [apply IH|]. rewrite map_size_insert. destruct (acc !! task_id t); simpl; unfold id; lia. }
  etrans; [apply Hgen|]. by rewrite map_size_empty.
Qed.

(** What is returned when no dependency names an inherited property. *)
Lemma buildTaskDependencyGraph_lookup (tasks : list Task) :
  plainDependencies tasks ->
  exists graph,
    buildTaskDependencyGraph tasks = Some (Return graph) /\
    forall k,
      graph !! k
      = setLevel (if decide (k = protoKey) then 0
                  else levelOf (invertEdges tasks (initGraph tasks)) k)
        <$> (appendDependents (pushedOn k tasks) <$> (initNode <$> keptTask tasks k)).
Proof.
  intros Hplain. destruct (buildOwnGraph_lookup tasks) as (graph & Hbuild & Hlook).
  exists graph. split.
  - by rewrite buildTaskDependencyGraph_plain, Hbuild.
  - intros k. by rewrite Hlook, initGraph_kept.
Qed.

(** C5. An acyclic collection on which no levels are assigned: task [a]
    depends on the id [constructor], which no task has. The guard
    [if (graph[depId])] finds the function every object inherits under
    that name, and [graph[depId].dependents.push] throws a [TypeError];
    task [b], which has no dependencies, gets no level. *)
Theorem levels_fail_on_inherited_name :
  (forall k, ~ tc (taskEdge constructorTasks) k k) /\
  NoDup (List.map task_id constructorTasks) /\
  buildTaskDependencyGraph constructorTasks = Some (Throw cannotReadPush).
Proof.
  split; [|split].
  - intros k Hcycle.
    assert (exists w, taskEdge constructorTasks k w)
      as (w & task & Hkept & Hin & Hto) by (inversion Hcycle; eauto).
    apply keptTask_In in Hkept as [Htask _].
    destruct Htask as [<-|[<-|[]]]; simpl in Hin; [|done].
    destruct Hin as [<-|[]]. vm_compute in Hto. by destruct Hto.
  - vm_compute. repeat constructor; set_solver.
  - vm_compute. reflexivity.
Qed.

(** X16. When no dependency names an inherited property, a graph is
    returned; [Object.keys] of it are the task ids other than
    [__proto__]; a task called [__proto__] becomes the prototype; and the
    node found under an id carries the last task of the collection with
    that id, together with that task's dependency list. *)
Theorem graph_nodes tasks :
  plainDependencies tasks ->
  exists graph,
    buildTaskDependencyGraph tasks = Some (Return graph) /\
    (forall k, In k (ownKeys graph)
               <-> In k (List.map task_id tasks) /\ k <> protoKey) /\
    (is_Some (graph !! protoKey) <-> In protoKey (List.map task_id tasks)) /\
    forall k node, graph !! k = Some node ->
      keptTask tasks k = Some (node_task node) /\
      In (node_task node) tasks /\ task_id (node_task node) = k /\
      node_dependencies node = depsOrEmpty (task_dependencies (node_task node)).
Proof.
  intros Hplain.
  destruct (buildTaskDependencyGraph_lookup tasks Hplain) as (graph & Hbuild & Hlook).
  exists graph. split; [done|].
  assert (forall k, is_Some (graph !! k) <-> In k (List.map task_id tasks)) as Hkeys.
  { intros k. rewrite Hlook, !fmap_is_Some. apply keptTask_is_Some. }
  split; [|split; [apply Hkeys|]].
  - intros k. by rewrite ownKeys_spec, Hkeys.
  - intros k node. rewrite Hlook.
    destruct (keptTask tasks k) as [task|] eqn:Ek; [|done]. simpl.
    intros [= <-]. apply keptTask_In in Ek as [Hin Hid]. by repeat split.
Qed.

(** X17. When no dependency names an inherited property, [dependents]
    is the inverse of [dependencies]: an id is among the dependents of
    the node of [depId] exactly when it is the id of a task that lists
    [depId] among its dependencies. *)
Theorem graph_dependents_inverse tasks :
  plainDependencies tasks ->
  exists graph,
    buildTaskDependencyGraph tasks = Some (Return graph) /\
    forall depId node who, graph !! depId = Some node ->
      (In who (node_dependents node) <->
       exists task, In task tasks /\ task_id task = who /\
                    In depId (depsOrEmpty (task_dependencies task))).
Proof.
  intros Hplain.
  destruct (buildTaskDependencyGraph_lookup tasks Hplain) as (graph & Hbuild & Hlook).
  exists graph. split; [done|]. intros depId node who. rewrite Hlook.
  destruct (keptTask tasks depId) as [t0|] eqn:En; [|done]. simpl.
  intros [= <-].
  cbn [node_dependents setLevel appendDependents initNode app].
  unfold pushedOn. rewrite in_flat_map. split.
  - intros (task & Hin & Hwho). apply in_map_iff in Hwho as (x & <- & Hx).
    apply filter_In in Hx as [Hx Heq]. apply bool_decide_eq_true in Heq as ->.
    by exists task.
  - intros (task & Hin & <- & Hdep). exists task. split; [done|].
    apply in_map_iff. exists depId. split; [done|].
    apply filter_In. split; [done|]. by apply bool_decide_eq_true.
Qed.

(** X18. [buildTaskDependencyGraph] never runs forever, cyclic input or
    not. It throws the [TypeError] of [undefined.push] when some task has
    a dependency that names an inherited property; on every other input
    it returns a graph with at most as many nodes as there are tasks, in
    which no level exceeds the number of nodes. *)
Theorem graph_levels_bounded tasks :
  ((exists task depId,
      In task tasks /\ In depId (depsOrEmpty (task_dependencies task)) /\
      inheritedName tasks depId) ->
   buildTaskDependencyGraph tasks = Some (Throw cannotReadPush)) /\
  (plainDependencies tasks ->
   exists graph,
     buildTaskDependencyGraph tasks = Some (Return graph) /\
     size graph <= length tasks /\
     forall k node, graph !! k = Some node -> node_level node <= size graph).
Proof.
  split; [apply buildTaskDependencyGraph_throws|]. intros Hplain.
  destruct (buildOwnGraph_levels tasks) as (graph & Hbuild & Hshape & Hlevel).
  exists graph. split; [by rewrite buildTaskDependencyGraph_plain, Hbuild|].
  set (g0 := invertEdges tasks (initGraph tasks)) in *.
  assert (shape g0 = shape graph) as Hsame
    by (rewrite Hshape; apply invertEdges_shape).
  assert (size graph = size (initGraph tasks)) as Hsize.
  { rewrite <- !size_dom. by rewrite (shape_dom _ _ Hshape). }
  split; [rewrite Hsize; apply initGraph_size|].
  intros k node Hnode. destruct (Hlevel k node Hnode) as [Hown Hproto].
  destruct (decide (k = protoKey)) as [->|Hne].
  - specialize (Hproto eq_refl). unfold g0 in Hproto.
    rewrite invertEdges_lookup in Hproto.
    destruct (initGraph tasks !! protoKey) as [n|] eqn:En; [|done].
    apply initGraph_lookup in En as (t0 & _ & _ & ->).
    injection Hproto as <-. simpl. lia.
  - rewrite (Hown Hne).
    pose proof (levelOf_computed g0 k) as Hrun. apply ownLevel_bound in Hrun.
    rewrite <- size_dom, <- (shape_dom _ _ Hsame).
    etrans; [exact Hrun|]. apply subseteq_size. set_solver.
Qed.

(** X22. Levels. Take a collection without a cycle in which no task is
    called [__proto__] and no dependency names an inherited property. A
    graph is returned, and for every id the node under it carries the
    task kept for that id (each task, when the ids are distinct); its
    level is 0 when the task has no dependencies; it is one more than the
    largest level stored for its dependencies when these are all ids of
    tasks; and it is the length of the longest chain of dependencies
    that starts at the task. *)
Theorem levels_follow_dependencies tasks :
  plainDependencies tasks ->
  ~ In protoKey (List.map task_id tasks) ->
  (forall k, ~ tc (taskEdge tasks) k k) ->
  (NoDup (List.map task_id tasks) ->
   forall task, In task tasks -> keptTask tasks (task_id task) = Some task) /\
  exists graph,
    buildTaskDependencyGraph tasks = Some (Return graph) /\
    forall k task, keptTask tasks k = Some task ->
      let deps := depsOrEmpty (task_dependencies task) in
      exists node,
        graph !! k = Some node /\ node_task node = task /\
        (deps = [] -> node_level node = 0) /\
        (deps <> [] ->
         (forall depId, In depId deps -> In depId (List.map task_id tasks)) ->
         node_level node = S (max_list (levelAt graph <$> deps))) /\
        (exists last, nsteps (taskEdge tasks) (node_level node) k last) /\
        (forall n last, nsteps (taskEdge tasks) n k last -> n <= node_level node).
Proof.
  intros Hplain Hnoproto Hacyclic.
  split; [intros Hnodup task Hin; by apply keptTask_unique|].
  destruct (buildTaskDependencyGraph_lookup tasks Hplain) as (graph & Hbuild & Hlook).
  exists graph. split; [done|].
  set (g0 := invertEdges tasks (initGraph tasks)) in *.
  assert (shape g0 = shape (initGraph tasks)) as Hshape0 by apply invertEdges_shape.
  assert (forall u w, graphEdge g0 u w <-> taskEdge tasks u w) as Hedge.
  { intros u w. rewrite <- graphEdge_taskEdge.
    split; apply shape_edge; [done | by symmetry]. }
  assert (acyclicGraph g0) as Hacyclic0.
  { intros node Hcycle. apply (Hacyclic node).
    eapply (tc_congruence id); [|exact Hcycle]. intros u w. apply Hedge. }
  assert (forall d, In d (List.map task_id tasks) ->
            levelAt graph d = levelOf g0 d) as Hat.
  { intros d Hd. unfold levelAt. rewrite Hlook.
    apply keptTask_is_Some in Hd as [t Ht]. rewrite Ht. simpl.
    rewrite decide_False; [done|]. intros ->.
    apply Hnoproto, keptTask_is_Some. by rewrite Ht. }
  intros k task Hkept. cbn zeta.
  assert (In k (List.map task_id tasks)) as Hk
    by (apply keptTask_is_Some; by rewrite Hkept).
  assert (k <> protoKey) as Hne by (by intros ->).
  specialize (Hlook k) as Hnode. rewrite Hkept, decide_False in Hnode by done.
  simpl in Hnode. eexists. split; [exact Hnode|]. split; [done|].
  cbn [node_level setLevel].
  assert (g0 !! k = Some (appendDependents (pushedOn k tasks) (initNode task))) as Hk0.
  { unfold g0. by rewrite invertEdges_lookup, initGraph_kept, Hkept. }
  destruct (levelOf_recurrence g0 k _ Hacyclic0 Hk0) as [Hall Hsome].
  assert (forall d, graphEdge g0 k d <->
            In d (depsOrEmpty (task_dependencies task)) /\
            In d (List.map task_id tasks)) as Hout.
  { intros d. rewrite Hedge. unfold taskEdge. rewrite Hkept. split.
    - intros (t & [= <-] & Hin & Hto). split; [done|]. by apply keptTask_is_Some.
    - intros [Hin Hto]. exists task. split; [done|]. split; [done|].
      by apply keptTask_is_Some. }
  split; [|split].
  - intros Hnil. destruct Hsome as [Hz|(d & [Hin _]%Hout & _)]; [done|].
    by rewrite Hnil in Hin.
  - intros Hdeps Hresolve.
    set (deps := depsOrEmpty (task_dependencies task)) in *.
    assert (max_list (levelAt graph <$> deps) + 1 <= levelOf g0 k) as Hge.
    { assert (max_list (levelAt graph <$> deps) ∈ levelAt graph <$> deps) as Hmax
        by (apply max_list_elem_of; by destruct deps).
      apply list_elem_of_fmap in Hmax as (d & -> & Hd%list_elem_of_In).
      rewrite Hat by by apply Hresolve. apply Hall, Hout. split; [done|].
      by apply Hresolve. }
    destruct Hsome as [Hz|(d & [Hin Hd]%Hout & Heq)]; [lia|].
    assert (levelOf g0 d <= max_list (levelAt graph <$> deps)) as Hle.
    { rewrite <- Hat by done. apply max_list_elem_of_le, list_elem_of_fmap.
      exists d. split; [done|]. by apply list_elem_of_In. }
    lia.
  - destruct (levelOf_longest_chain g0 Hacyclic0 k) as [[last Hlast] Hmax];
      [by rewrite Hk0|].
    split.
    + exists last. eapply nsteps_iff; [|exact Hlast]. intros a b. apply Hedge.
    + intros n last' Hsteps. apply (Hmax n last').
      eapply nsteps_iff; [|exact Hsteps]. intros a b. apply Hedge.
Qed.

(** *** Instances *)

(** A check that decides [plainDependencies]. *)
Lemma plainDependencies_check (tasks : list Task) :
  forallb (fun task =>
    forallb (fun depId => negb (inherits (initGraph tasks) depId))
            (depsOrEmpty (task_dependencies task))) tasks = true ->
  plainDependencies tasks.
Proof.
  intros Hcheck task d Htask Hd Hinh%inherits_initGraph.
  rewrite forallb_forall in Hcheck. specialize (Hcheck task Htask).
  rewrite forallb_forall in Hcheck. specialize (Hcheck d Hd).
  by rewrite Hinh in Hcheck.
Qed.

Lemma taskEdge_acyclic (tasks : list Task) :
  acyclicTasks tasks -> forall k, ~ tc (taskEdge tasks) k k.
Proof.
  intros Hacyclic k Hcycle. apply (Hacyclic k).
  eapply (tc_congruence id); [|exact Hcycle].
  intros u w. apply graphEdge_taskEdge.
Qed.

Lemma diamond_acyclic : acyclicTasks diamond.
Proof.
  apply (acyclic_by_rank (fun k => N.to_nat (hd 0%N k))).
  intros from to (node & Hnode & Hin & _).
  apply initGraph_lookup in Hnode as (task & Htask & <- & ->).
  simpl in Htask. destruct Htask as [<-|[<-|[<-|[]]]]; simpl in Hin.
  - done.
  - destruct Hin as [<-|[]]. vm_compute. lia.
  - destruct Hin as [<-|[<-|[]]]; vm_compute; lia.
Qed.

Lemma diamond_plain : plainDependencies diamond.
Proof. apply plainDependencies_check. vm_compute. reflexivity. Qed.

(** The diamond: three keys; the node of [a] carries task [a]. *)
Lemma graph_nodes_witness :
  exists graph,
    buildTaskDependencyGraph diamond = Some (Return graph) /\
    (forall k, In k (ownKeys graph)
               <-> In k [js "a"; js "b"; js "c"] /\ k <> protoKey) /\
    forall node, graph !! js "a" = Some node ->
      node_task node = chainTask "a" [].
Proof.
  destruct (graph_nodes diamond diamond_plain) as (graph & Hbuild & Hkeys & _ & Hnode).
  exists graph. split; [exact Hbuild|]. split; [exact Hkeys|].
  intros node Hlook. destruct (Hnode _ _ Hlook) as (Hkept & _).
  vm_compute in Hkept. by injection Hkept.
Defined.

(** The diamond: [b] and [c] are the dependents of [a]. *)
Lemma graph_dependents_inverse_witness :
  exists graph,
    buildTaskDependencyGraph diamond = Some (Return graph) /\
    (node_dependents <$> graph !! js "a") = Some [js "b"; js "c"] /\
    forall node, graph !! js "a" = Some node -> In (js "c") (node_dependents node).
Proof.
  destruct (graph_dependents_inverse diamond diamond_plain) as (graph & Hbuild & Hinv).
  exists graph. split; [exact Hbuild|].
  assert (buildTaskDependencyGraph diamond = Some (Return graph)) as Hrun
    by exact Hbuild.
  vm_compute in Hrun. injection Hrun as <-.
  split; [vm_compute; reflexivity|].
  intros node Hnode. apply (Hinv (js "a") node (js "c") Hnode).
  exists (chainTask "c" [js "a"; js "b"]). split; [right; right; by left|].
  split; [reflexivity | by left].
Defined.

(** A task called [__proto__] and a dependency on [dependents]: the
    [TypeError]. Two tasks that depend on each other: a graph, in which
    both have level 2, the number of nodes. *)
Lemma graph_levels_bounded_witness :
  buildTaskDependencyGraph protoTasks = Some (Throw cannotReadPush) /\
  exists graph,
    buildTaskDependencyGraph cyclicPair = Some (Return graph) /\
    size graph <= 2 /\
    (node_level <$> graph !! js "p") = Some 2 /\
    (node_level <$> graph !! js "q") = Some 2.
Proof.
  split.
  - apply (proj1 (graph_levels_bounded protoTasks)).
    exists (exampleTask "x" TODO MEDIUM [js "dependents"] 0), (js "dependents").
    split; [right; by left|]. split; [by left|]. split.
    + vm_compute. intros [H|[H|[]]]; discriminate H.
    + right. split; [by left|]. right. right. by left.
  - destruct (proj2 (graph_levels_bounded cyclicPair)) as (graph & Hbuild & Hsize & _).
    { apply plainDependencies_check. vm_compute. reflexivity. }
    exists graph. split; [exact Hbuild|]. split; [exact Hsize|].
    assert (buildTaskDependencyGraph cyclicPair = Some (Return graph)) as Hrun
      by exact Hbuild.
    vm_compute in Hrun. injection Hrun as <-.
    split; vm_compute; reflexivity.
Defined.

(** The diamond: levels 0, 1 and 2. *)
Lemma levels_follow_dependencies_witness :
  exists graph,
    buildTaskDependencyGraph diamond = Some (Return graph) /\
    levelAt graph (js "a") = 0 /\
    levelAt graph (js "b") = 1 /\
    levelAt graph (js "c") = 2 /\
    exists node,
      graph !! js "c" = Some node /\
      node_task node = chainTask "c" [js "a"; js "b"] /\
      node_level node = S (max_list (levelAt graph <$> [js "a"; js "b"])).
Proof.
  destruct (levels_follow_dependencies diamond diamond_plain)
    as (_ & graph & Hbuild & Hspec).
  { vm_compute. intros [H|[H|[H|[]]]]; discriminate H. }
  { apply taskEdge_acyclic, diamond_acyclic. }
  exists graph. split; [exact Hbuild|].
  destruct (Hspec (js "c") (chainTask "c" [js "a"; js "b"]))
    as (node & Hnode & Htask & _ & Hmax & _); [vm_compute; reflexivity|].
  assert (buildTaskDependencyGraph diamond = Some (Return graph)) as Hrun
    by exact Hbuild.
  vm_compute in Hrun. injection Hrun as <-.
  split; [vm_compute; reflexivity|]. split; [vm_compute; reflexivity|].
  split; [vm_compute; reflexivity|].
  exists node. split; [exact Hnode|]. split; [exact Htask|].
  apply Hmax; [discriminate|].
  intros d [<-|[<-|[]]]; vm_compute; auto.
Defined.

(** ** [findNextTask]: the effect of [excludeBlocked] *)

Lemma isAvailable_exclude tasks task :
  isAvailable true tasks task
  = isAvailable false tasks task && negb (bool_decide (task_status task = BLOCKED)).
Proof.
  unfold isAvailable.
  by destruct (task_status task), (dependenciesMet tasks task).
Qed.

Lemma filter_exclude tasks (l : list Task) :
  List.filter (isAvailable true tasks) l
  = List.filter (fun t => negb (bool_decide (task_status t = BLOCKED)))
      (List.filter (isAvailable false tasks) l).
Proof.
  induction l as [|t l IH]; [done|]. simpl. rewrite isAvailable_exclude.
  destruct (isAvailable false tasks t); simpl; [|done].
  destruct (negb _); by rewrite IH.
Qed.

Lemma findNextTask_none tasks excludeBlocked :
  findNextTask tasks excludeBlocked = None <->
  List.filter (isAvailable excludeBlocked tasks) tasks = [].
Proof.
  unfold findNextTask.
  pose proof (stableSort_length compareTasks
                (List.filter (isAvailable excludeBlocked tasks) tasks)) as Hl.
  destruct (stableSort compareTasks _) as [|first rest];
    destruct (List.filter _ tasks); try done.
Qed.

(** The choice is determined by the list: only one position has nothing
    at least as good before it and nothing better after it. *)
Lemma first_best_unique (l b1 a1 b2 a2 : list Task) x y :
  l = b1 ++ x :: a1 -> l = b2 ++ y :: a2 ->
  (forall t, In t b1 -> ~ noLaterThan t x) -> (forall t, In t a1 -> noLaterThan x t) ->
  (forall t, In t b2 -> ~ noLaterThan t y) -> (forall t, In t a2 -> noLaterThan y t) ->
  x = y.
Proof.
  intros -> Heq Hb1 Ha1 Hb2 Ha2.
  destruct (Nat.lt_trichotomy (length b1) (length b2)) as [Hlt|[Hlen|Hgt]].
  - assert (In x b2 /\ In y a1) as [Hx Hy].
    { apply (f_equal (fun l => (l !! length b1, l !! length b2))) in Heq.
      rewrite lookup_app_r, Nat.sub_diag in Heq by lia. simpl in Heq.
      rewrite (lookup_app_l b2), (lookup_app_r b1), (lookup_app_r b2),
        Nat.sub_diag in Heq by lia. simpl in Heq.
      injection Heq as H1 H2. split.
      - by eapply list_elem_of_In, list_elem_of_lookup_2.
      - destruct (length b2 - length b1) as [|n] eqn:En; [lia|]. simpl in H2.
        by eapply list_elem_of_In, list_elem_of_lookup_2. }
    destruct (Hb2 x Hx). by apply Ha1.
  - apply (f_equal (fun l => l !! length b1)) in Heq.
    rewrite lookup_app_r, Nat.sub_diag in Heq by lia.
    rewrite Hlen, lookup_app_r, Nat.sub_diag in Heq by lia. simpl in Heq.
    by injection Heq.
  - assert (In y b1 /\ In x a2) as [Hy Hx].
    { apply (f_equal (fun l => (l !! length b2, l !! length b1))) in Heq.
      rewrite (lookup_app_l b1), (lookup_app_r b1), Nat.sub_diag in Heq by lia.
      simpl in Heq.
      rewrite (lookup_app_r b2), Nat.sub_diag, (lookup_app_r b2) in Heq by lia.
      simpl in Heq. injection Heq as H1 H2. split.
      - by eapply list_elem_of_In, list_elem_of_lookup_2.
      - destruct (length b1 - length b2) as [|n] eqn:En; [lia|]. simpl in H2.
        symmetry in H2. by eapply list_elem_of_In, list_elem_of_lookup_2. }
    destruct (Hb1 y Hy). by apply Ha2.
Qed.

(** X19. Excluding blocked tasks never gives a better recommendation,
    and changes it only when the recommendation was a blocked task: if
    the answer with blocked tasks allowed is not blocked, it is also the
    answer with blocked tasks excluded; and an answer with blocked tasks
    excluded comes with an answer, no later in the order, when they are
    allowed. *)
Theorem excludeBlocked_effect tasks :
  (forall chosen,
     findNextTask tasks true = Some chosen ->
     exists other, findNextTask tasks false = Some other /\ noLaterThan other chosen) /\
  (forall chosen,
     findNextTask tasks false = Some chosen ->
     task_status chosen <> BLOCKED ->
     findNextTask tasks true = Some chosen).
Proof.
  split.
  - intros chosen Htrue.
    destruct (findNextTask_first_of_ties _ _ _ Htrue) as (b & a & Hsplit & _ & _).
    assert (In chosen (List.filter (isAvailable false tasks) tasks)) as Hin.
    { assert (In chosen (List.filter (isAvailable true tasks) tasks)) as Hc
        by (rewrite Hsplit; apply in_or_app; right; by left).
      rewrite filter_exclude in Hc. by apply filter_In in Hc as [Hc _]. }
    destruct (findNextTask tasks false) as [other|] eqn:Hfalse.
    + exists other. split; [done|].
      destruct (findNextTask_first_of_ties _ _ _ Hfalse) as (b' & a' & Hsplit' & Hb' & Ha').
      rewrite Hsplit' in Hin. apply in_app_or in Hin as [Hin|[<-|Hin]].
      * specialize (Hb' chosen Hin). unfold noLaterThan in *. lia.
      * unfold noLaterThan. lia.
      * by apply Ha'.
    + apply findNextTask_none in Hfalse. by rewrite Hfalse in Hin.
  - intros chosen Hfalse Hstatus.
    destruct (findNextTask_first_of_ties _ _ _ Hfalse) as (b & a & Hsplit & Hb & Ha).
    assert (List.filter (isAvailable true tasks) tasks
            = List.filter (fun t => negb (bool_decide (task_status t = BLOCKED))) b
              ++ chosen ::
              List.filter (fun t => negb (bool_decide (task_status t = BLOCKED))) a)
      as Hsplit_true.
    { rewrite filter_exclude, Hsplit, List.filter_app. simpl.
      by rewrite bool_decide_eq_false_2. }
    destruct (findNextTask tasks true) as [other|] eqn:Htrue.
    + f_equal.
      destruct (findNextTask_first_of_ties _ _ _ Htrue) as (b' & a' & Hsplit' & Hb' & Ha').
      eapply (first_best_unique _ _ _ _ _ _ _ Hsplit' Hsplit_true); try done.
      * intros t [Ht _]%filter_In. by apply Hb.
      * intros t [Ht _]%filter_In. by apply Ha.
    + apply findNextTask_none in Htrue. rewrite Hsplit_true in Htrue.
      by destruct (List.filter _ b).
Qed.

(** ** The [parse-prp] tool: configuration and sanitised content *)

Lemma requestTasks_normalized service config tasks :
  requestTasks service config = Return tasks ->
  exists aiTasks, validateAndNormalizeTasks aiTasks config = Return tasks.
Proof.
  unfold requestTasks. destruct service as [e|content]; [done|].
  destruct (JSON_parse content) as [v|e]; simpl; [|done]. eauto.
Qed.

Lemma normalized_no_dependencies aiTasks config tasks t :
  generateDependencies config = false ->
  validateAndNormalizeTasks aiTasks config = Return tasks ->
  In t tasks -> ai_dependencies t = None.
Proof.
  intros Hoff. unfold validateAndNormalizeTasks. destruct aiTasks; try done.
  intros Hmap%mapiO_returns Hin.
  apply list_elem_of_In, list_elem_of_lookup in Hin as [i Hi].
  destruct (Forall2_lookup_r _ _ _ _ _ Hmap Hi) as (task & _ & j & Hj).
  apply normalizeTask_returns in Hj as (_ & _ & _ & _ & Hdeps).
  destruct (ai_dependencies t) as [deps|]; [|done].
  destruct (Hdeps deps eq_refl) as [Hon _]. congruence.
Qed.

(** X20. With the configuration the tool builds ([maxTasks || 10], no
    dependency hints), a request for [maxTasks >= 0] tasks yields, on
    either path, at most [maxTasks] tasks (at most 10 when [maxTasks] is
    0), and none of them carries dependencies. *)
Theorem tool_generation_bounded requestedMax generateMilestones
    service rand prpContent projectContext :
  (0 <= requestedMax)%Z ->
  exists tasks,
    generateTasksFromPRP service rand prpContent projectContext
      (toolConfig requestedMax generateMilestones) = Return tasks /\
    (Z.of_nat (length tasks)
       <= if (requestedMax =? 0)%Z then 10 else requestedMax)%Z /\
    forall t, In t tasks -> ai_dependencies t = None.
Proof.
  intros Hmax.
  set (config := toolConfig requestedMax generateMilestones).
  assert (maxTasks config = if (requestedMax =? 0)%Z then 10%Z else requestedMax)
    as Hlimit by done.
  assert (1 <= maxTasks config)%Z as Hone.
  { rewrite Hlimit. destruct (Z.eqb_spec requestedMax 0); lia. }
  destruct (generate_cases service rand prpContent projectContext config)
    as [(tasks & Hreq & Hgen) | (e & Hreq & Hgen)].
  - exists tasks. split; [done|]. split.
    + rewrite <- Hlimit. apply (requestTasks_length _ _ _ Hreq). lia.
    + intros t Hin. apply requestTasks_normalized in Hreq as [aiTasks Hnorm].
      by apply (normalized_no_dependencies aiTasks config tasks t eq_refl Hnorm).
  - eexists. split; [exact Hgen|]. split.
    + rewrite <- Hlimit.
      pose proof (fallback_length rand prpContent projectContext config). lia.
    + intros t Hin. rewrite fallback_closed_form_aux in Hin.
      apply list_elem_of_In, list_elem_of_lookup in Hin as [j Hj].
      rewrite list_lookup_imap in Hj.
      destruct (take _ _ !! j) as [line|]; [|done]. simpl in Hj. by injection Hj as <-.
Qed.

Lemma split_incl sep s line c : In line (split sep s) -> In c line -> In c s.
Proof.
  revert line. induction s as [|d s IH]; intros line; simpl.
  - by intros [<-|[]].
  - destruct (N.eqb d sep).
    + intros [<-|Hin]; [done|]. intros Hc. right. by eapply IH.
    + destruct (split sep s) as [|l ls] eqn:Es.
      * intros [<-|[]]. intros [<-|[]]. by left.
      * intros [<-|Hin].
        -- intros [<-|Hc]; [by left|]. right. apply (IH l); [by left | done].
        -- intros Hc. right. apply (IH line); [by right | done].
Qed.

Lemma take_incl {A} n (l : list A) x : In x (take n l) -> In x l.
Proof.
  revert n. induction l as [|y l IH]; intros [|n]; simpl; try done.
  intros [<-|Hin]; [by left | right; by eapply IH].
Qed.

Lemma validationReminder_units c : In c validationReminder -> sanitizedUnit c.
Proof.
  intros Hin.
  assert (forallb (fun c => negb (N.eqb c 60) && negb (N.eqb c 62) && negb (N.eqb c 39))
            validationReminder = true) as Hall by (vm_compute; reflexivity).
  rewrite forallb_forall in Hall. specialize (Hall c Hin).
  apply andb_prop in Hall as [[H1 H2]%andb_prop H3].
  apply negb_true_iff, N.eqb_neq in H1, H2, H3. done.
Qed.

(** X21. The tool hands sanitised content to the generator; the titles
    and descriptions of fallback tasks made from sanitised content
    contain no angle bracket and no single quote. *)
Theorem sanitized_fallback_text rand content projectContext config t :
  In t (parsePreviewPRP rand (sanitizePRPContent content) projectContext config) ->
  (forall c, In c (ai_title t) -> sanitizedUnit c) /\
  exists text,
    ai_description t = JString text /\ forall c, In c text -> sanitizedUnit c.
Proof.
  rewrite fallback_closed_form_aux. intros Hin.
  apply list_elem_of_In, list_elem_of_lookup in Hin as [j Hj].
  rewrite list_lookup_imap in Hj.
  destruct (take _ _ !! j) as [line|] eqn:Eline; [|done]. simpl in Hj.
  injection Hj as <-.
  assert (forall c, In c line -> sanitizedUnit c) as Hline.
  { intros c Hc. apply (sanitize_units content).
    apply (split_incl 10 _ line); [|done].
    assert (In line (keywordLines (sanitizePRPContent content))) as Hk.
    { eapply take_incl, list_elem_of_In, list_elem_of_lookup_2, Eline. }
    unfold keywordLines in Hk. by apply filter_In in Hk as [Hk _]. }
  unfold previewTask. cbn [ai_title ai_description]. split.
  - intros c Hc%trim_incl. apply Hline. unfold substring0 in Hc. by eapply take_incl.
  - eexists. split; [reflexivity|]. intros c Hc. apply in_app_or in Hc as [Hc|Hc].
    + by apply Hline, trim_incl.
    + by apply validationReminder_units.
Qed.

(** ** Instances *)

Lemma normalized_titles_witness :
  exists tasks,
    validateAndNormalizeTasks sampleArray fullConfig = Return tasks /\
    forall t, In t tasks -> ai_title t <> [].
Proof.
  destruct (validateAndNormalizeTasks sampleArray fullConfig) as [tasks|e] eqn:E;
    [|vm_compute in E; discriminate].
  exists tasks. split; [reflexivity|]. intros t Hin.
  exact (proj1 (normalized_titles sampleArray fullConfig tasks E t Hin)).
Defined.

Lemma normalized_optional_fields_witness :
  exists tasks,
    validateAndNormalizeTasks sampleArray fullConfig = Return tasks /\
    forall t q, In t tasks -> ai_estimatedHours t = Some q -> (q <= 40)%Q.
Proof.
  destruct (validateAndNormalizeTasks sampleArray fullConfig) as [tasks|e] eqn:E;
    [|vm_compute in E; discriminate].
  exists tasks. split; [reflexivity|]. intros t q Hin Hq.
  exact (proj2 (proj2 (proj1
    (normalized_optional_fields sampleArray fullConfig tasks E t Hin) q Hq))).
Defined.

Lemma normalized_count_witness :
  exists tasks,
    validateAndNormalizeTasks (JArray sampleItems) fullConfig = Return tasks /\
    length tasks = Nat.min (Z.to_nat 5) (length sampleItems).
Proof.
  destruct (validateAndNormalizeTasks (JArray sampleItems) fullConfig)
    as [tasks|e] eqn:E; [|vm_compute in E; discriminate].
  exists tasks. split; [reflexivity|].
  apply (proj1 (normalized_count sampleItems fullConfig tasks E)). simpl. lia.
Defined.

Lemma fallback_task_shape_witness :
  length (ai_title (previewTask (configOf 2 true) 0 (js "implement login"))) <= 100.
Proof.
  refine (proj1 (fallback_task_shape (fun _ => 0%Q) (js "implement login") JNull
                   (configOf 2 true) _ _)).
  vm_compute. left. reflexivity.
Defined.

Lemma fallback_hours_range_witness :
  exists h : Z, 1%Q = inject_Z h /\ (1 <= h <= 8)%Z.
Proof.
  apply (fallback_hours_range (fun _ => 0%Q) (js "implement login") JNull
           (configOf 2 true)
           (previewTask (configOf 2 true) 0 (js "implement login")) 1%Q).
  - intros k. split; vm_compute; [discriminate | reflexivity].
  - vm_compute. left. reflexivity.
  - vm_compute. reflexivity.
Defined.

Lemma valid_dependencies_sound_witness :
  ~ In (js "t6") [js "t1"; js "t4"].
Proof.
  refine (proj1 (valid_dependencies_sound (js "t6") [js "t1"; js "t4"] scenarioA
                   {| isValid := true; errors := [] |} _ _)).
  - vm_compute. reflexivity.
  - reflexivity.
Defined.

Lemma scenarioA_stored_acyclic node : ~ tc (storedEdge scenarioA) node node.
Proof.
  set (rank := fun k : jsstring =>
                 if bool_decide (k = js "t6") || bool_decide (k = js "t7") then 1 else 0).
  assert (forall x y, storedEdge scenarioA x y -> rank y < rank x) as Hrank.
  { intros x y. unfold storedEdge.
    destruct (findTask x scenarioA) as [task|] eqn:Ex; [|done].
    apply findTask_In in Ex as [Hin <-]. simpl in Hin.
    destruct Hin as [<-|[<-|[<-|[<-|[<-|[<-|[<-|[]]]]]]]]; simpl; try done;
      intros [<-|[]]; vm_compute; lia. }
  assert (forall x y, tc (storedEdge scenarioA) x y -> rank y < rank x) as Hdown.
  { intros x y H. induction H as [x y H|x z y H _ IH].
    - by apply Hrank.
    - apply Hrank in H. lia. }
  intros Hcycle%Hdown. lia.
Qed.

Lemma validation_preserves_acyclicity_witness :
  ~ tc (depEdge (js "t6") [js "t1"; js "t4"] scenarioA) (js "t4") (js "t4").
Proof.
  apply (validation_preserves_acyclicity (js "t6") [js "t1"; js "t4"] scenarioA
           {| isValid := true; errors := [] |}).
  - apply scenarioA_stored_acyclic.
  - vm_compute. reflexivity.
  - reflexivity.
Defined.

Lemma tool_generation_bounded_witness :
  exists tasks,
    generateTasksFromPRP (ServiceText mockPayload) (fun _ => 0%Q)
      (js "implement login") JNull (toolConfig 1 true) = Return tasks /\
    (Z.of_nat (length tasks) <= 1)%Z.
Proof.
  destruct (tool_generation_bounded 1 true (ServiceText mockPayload) (fun _ => 0%Q)
              (js "implement login") JNull) as (tasks & Hgen & Hlen & _).
  - vm_compute. discriminate.
  - exists tasks. split; [exact Hgen | exact Hlen].
Defined.

Lemma sanitized_fallback_text_witness :
  Forall sanitizedUnit
    (ai_title (previewTask (configOf 2 false) 0 (js "implement login"))).
Proof.
  apply List.Forall_forall.
  refine (proj1 (sanitized_fallback_text (fun _ => 0%Q) (js "<implement login>")
                   JNull (configOf 2 false) _ _)).
  vm_compute. left. reflexivity.
Defined.

Lemma normalization_throws_iff_witness :
  exists e, validateAndNormalizeTasks (JObject []) fullConfig = Throw e.
Proof.
  apply (proj2 (normalization_throws_iff (JObject []) fullConfig)).
  left. intros items H. discriminate H.
Defined.

Lemma validatePRPContent_accepts_witness :
  isValid (validatePRPContent (fun s => s) (js "build an api")) = false /\
  In tooShortError (errors (validatePRPContent (fun s => s) (js "build an api"))).
Proof.
  pose proof (validatePRPContent_accepts (fun s => s) (js "build an api")) as H.
  cbv zeta in H. apply H. vm_compute. lia.
Defined.

Lemma excludeBlocked_effect_witness :
  exists other,
    findNextTask scenarioA false = Some other /\
    noLaterThan other (exampleTask "t4" TODO HIGH [] 4).
Proof.
  apply (proj1 (excludeBlocked_effect scenarioA)). vm_compute. reflexivity.
Defined.

(** Scenario D: the ratio is above zero, and so are both totals. An
    estimate of 5e-324 against 1000 actual hours: both totals are above
    zero and the ratio underflows to 0. *)
Lemma analytics_ranges_witness :
  let d := calculateProjectAnalytics (fun _ => S754_nan) scenarioD in
  let t := calculateProjectAnalytics (fun _ => S754_nan) tinyEstimate in
  (SFltb (S754_zero false) (totalEstimatedHours d) = true /\
   SFltb (S754_zero false) (totalActualHours d) = true) /\
  SFltb (S754_zero false) (totalEstimatedHours t) = true /\
  SFltb (S754_zero false) (totalActualHours t) = true /\
  efficiencyRatio t = S754_zero false /\
  SFltb (efficiencyRatio t) (S754_zero false) = false.
Proof.
  cbn zeta.
  pose proof (analytics_ranges (fun _ => S754_nan) scenarioD) as (_ & _ & _ & Hd & _).
  pose proof (analytics_ranges (fun _ => S754_nan) tinyEstimate)
    as (_ & _ & [_ Ht] & _).
  cbn zeta in Hd, Ht.
  split; [apply Hd; vm_compute; reflexivity|].
  split; [vm_compute; reflexivity|]. split; [vm_compute; reflexivity|].
  split; [vm_compute; reflexivity | exact Ht].
Defined.
